(** * Word-category API: a shallow embedding of the router and its store

    The development follows the Express router of the word API (lazy
    collection handle, provider chain with local fallback generator,
    [GET /categories] with its capacity and freshness branches,
    [POST /categories]) and the connection helper [db/connect.js].

    JavaScript values that reach the code from outside (parsed JSON of a
    provider reply, the request body) are modelled by [Js.json]; a text is
    held as its UTF-8 bytes; effects
    (random draws, clock reads, console output, the database) are threaded
    explicitly through a state-and-exception monad. *)

From Stdlib Require Import ZArith List String Ascii Bool Arith Lia.
From Stdlib Require Import DecimalString DecimalPos.
From Stdlib Require Import Sorted Permutation.
Import ListNotations.

Set Warnings "-register-all".
Local Open Scope list_scope.
Local Open Scope string_scope.

(* ================================================================== *)
(** * JavaScript values and coercions *)
(* ================================================================== *)

Module Js.

(** What [JSON.parse] and [express.json()] can produce.  [JNum z] is the
    Number whose value is the integer [z] (the nearest double, for a
    literal that is none).  A Number that is no integer is [JFrac] with the
    text [String] prints for it, which tells two such Numbers apart: the
    code only prints a parsed Number, tests it for truth (it is never zero)
    and hands it to the database. *)
Inductive json : Type :=
| JNull
| JBool (b : bool)
| JNum (z : Z)
| JFrac (printed : string)
| JStr (s : string)
| JArr (items : list json)
| JObj (fields : list (string * json)).

(** A thrown JavaScript error: [err.message] and [err.code]. *)
Record exn : Type := { message : string; code : option Z }.

Inductive result (A : Type) : Type :=
| Ok (a : A)
| Throw (e : exn).
Arguments Ok {A} a.
Arguments Throw {A} e.

Definition TypeError (msg : string) : exn := {| message := msg; code := None |}.

Definition bindR {A B} (r : result A) (k : A -> result B) : result B :=
  match r with
  | Ok a => k a
  | Throw e => Throw e
  end.

(** [Array.prototype.map] with a callback that may throw: left to right,
    the first exception aborts the whole map. *)
Fixpoint mapR {A B} (f : A -> result B) (l : list A) : result (list B) :=
  match l with
  | [] => Ok []
  | x :: rest =>
      bindR (f x) (fun y => bindR (mapR f rest) (fun ys => Ok (y :: ys)))
  end.

(** Own property of a parsed object; [JSON.parse] keeps the last of
    duplicated keys. *)
Fixpoint lookup_last (k : string) (fields : list (string * json)) : option json :=
  match fields with
  | [] => None
  | (k', v) :: rest =>
      match lookup_last k rest with
      | Some w => Some w
      | None => if String.eqb k k' then Some v else None
      end
  end.

Definition has_key (k : string) (fields : list (string * json)) : bool :=
  existsb (fun kv => String.eqb k (fst kv)) fields.

(** [v.k] for a key that no prototype defines ([categoryName], [words]):
    [None] is [undefined]; reading a property of [null] throws. *)
Definition get_member (v : json) (k : string) : result (option json) :=
  match v with
  | JNull =>
      Throw (TypeError ("Cannot read properties of null (reading '" ++ k ++ "')"))
  | JObj fields => Ok (lookup_last k fields)
  | _ => Ok None
  end.

(** [const { k } = body]: as [get_member], on a value that is never
    [null] or [undefined] at this point. *)
Definition destructure (v : json) (k : string) : option json :=
  match v with
  | JObj fields => lookup_last k fields
  | _ => None
  end.

(** ToBoolean; [None] is [undefined]. *)
Definition truthy (v : option json) : bool :=
  match v with
  | None => false
  | Some JNull => false
  | Some (JBool b) => b
  | Some (JNum z) => negb (Z.eqb z 0)
  | Some (JFrac _) => true
  | Some (JStr s) => negb (String.eqb s "")
  | Some (JArr _) => true
  | Some (JObj _) => true
  end.

(** The decimal numeral of an integer. *)
Definition decimal (z : Z) : string :=
  NilZero.string_of_int (Z.to_int z).

(** The double nearest to the positive integer [p], ties to even: [p]
    itself up to 53 bits, else [p] without the low bits that do not fit. *)
Definition nearest_double (p : Z) : Z :=
  let s := (Z.log2 p + 1 - 53)%Z in
  if (s <=? 0)%Z then p
  else
    let q := (p / 2 ^ s)%Z in
    let r := (p mod 2 ^ s)%Z in
    let half := (2 ^ (s - 1))%Z in
    ((if (half <? r)%Z || ((r =? half)%Z && Z.odd q) then q + 1 else q) * 2 ^ s)%Z.

Definition digits_count (x : Z) : Z := Z.of_nat (String.length (decimal x)).

(** The numerals [s * 10^e] with [k] digits in [s] that lie next to the
    double [x] and read back as [x]. *)
Definition numerals_near (x k : Z) : list (Z * Z) :=
  flat_map
    (fun n =>
       let e := (n - k)%Z in
       if (e <? 0)%Z then []
       else
         filter
           (fun se =>
              ((10 ^ (k - 1) <=? fst se) && (fst se <? 10 ^ k)
               && (nearest_double (fst se * 10 ^ e) =? x))%Z)
           [((x / 10 ^ e)%Z, e); ((x / 10 ^ e + 1)%Z, e)])
    [digits_count x; (digits_count x + 1)%Z].

(** Of two numerals the one closer to [x]; the even [s] when they are
    as close. *)
Definition closer (x : Z) (a b : Z * Z) : Z * Z :=
  let da := Z.abs (fst a * 10 ^ snd a - x) in
  let db := Z.abs (fst b * 10 ^ snd b - x) in
  if (da <? db)%Z then a
  else if (db <? da)%Z then b
  else if Z.even (fst a) then a else b.

Definition closest (x : Z) (l : list (Z * Z)) : option (Z * Z) :=
  match l with
  | [] => None
  | a :: rest => Some (fold_left (closer x) rest a)
  end.

(** The numeral with the fewest digits that reads back as the double
    [x]: [k] is tried from 1 up to 17 digits. *)
Fixpoint shortest_numeral (x : Z) (k : Z) (fuel : nat) : option (Z * Z) :=
  match fuel with
  | O => None
  | S fuel' =>
      match closest x (numerals_near x k) with
      | Some se => Some se
      | None => shortest_numeral x (k + 1) fuel'
      end
  end.

Definition zeros (e : Z) : string := concat "" (repeat "0" (Z.to_nat e)).

(** Number::toString of the double [x], an integer of at least [2^53]. *)
Definition large_toString (x : Z) : string :=
  if (2 ^ 1024 <=? x)%Z then "Infinity"
  else
    match shortest_numeral x 1 17 with
    | None => decimal x
    | Some (s, e) =>
        let n := (digits_count s + e)%Z in
        if (n <=? 21)%Z then decimal s ++ zeros e
        else
          match decimal s with
          | String c EmptyString => String c ("e+" ++ decimal (n - 1))
          | String c rest => String c ("." ++ rest ++ "e+" ++ decimal (n - 1))
          | EmptyString => EmptyString
          end
    end.

(** Number::toString on an integer: all its digits below [2^53]; above,
    the shortest numeral that reads back as the double, followed by zeros
    up to 21 digits and in exponent notation beyond. *)
Definition Number_toString (z : Z) : string :=
  if (Z.abs z <? 2 ^ 53)%Z then decimal z
  else if (z <? 0)%Z then "-" ++ large_toString (nearest_double (- z))
  else large_toString (nearest_double z).

(** [String(v)] on a parsed value.  Arrays join their elements with a
    comma, [null] elements printing as the empty string; a plain object
    prints as [[object Object]] unless an own [toString] field (which
    cannot be callable) shadows the inherited method. *)
Fixpoint ToString (v : json) : result string :=
  match v with
  | JNull => Ok "null"
  | JBool true => Ok "true"
  | JBool false => Ok "false"
  | JNum z => Ok (Number_toString z)
  | JFrac printed => Ok printed
  | JStr s => Ok s
  | JArr items =>
      (fix join (l : list json) : result string :=
         match l with
         | [] => Ok ""
         | x :: rest =>
             match (match x with JNull => Ok "" | _ => ToString x end) with
             | Throw e => Throw e
             | Ok sx =>
                 match rest with
                 | [] => Ok sx
                 | _ :: _ =>
                     match join rest with
                     | Throw e => Throw e
                     | Ok sr => Ok (sx ++ "," ++ sr)
                     end
                 end
             end
         end) items
  | JObj fields =>
      if has_key "toString" fields
      then Throw (TypeError "Cannot convert object to primitive value")
      else Ok "[object Object]"
  end.

(** [String(x)] where [x] may be [undefined]. *)
Definition String_ (v : option json) : result string :=
  match v with
  | None => Ok "undefined"
  | Some j => ToString j
  end.

Definition is_string (v : json) : bool :=
  match v with JStr _ => true | _ => false end.

Definition as_string (v : json) : string :=
  match v with JStr s => s | _ => "" end.

(** Structural equality of parsed values. *)
Fixpoint json_eqb (a b : json) : bool :=
  match a, b with
  | JNull, JNull => true
  | JBool x, JBool y => Bool.eqb x y
  | JNum x, JNum y => Z.eqb x y
  | JFrac x, JFrac y => String.eqb x y
  | JStr x, JStr y => String.eqb x y
  | JArr xs, JArr ys =>
      (fix all2 (l1 l2 : list json) : bool :=
         match l1, l2 with
         | [], [] => true
         | x :: r1, y :: r2 => json_eqb x y && all2 r1 r2
         | _, _ => false
         end) xs ys
  | JObj xs, JObj ys =>
      (fix all2 (l1 l2 : list (string * json)) : bool :=
         match l1, l2 with
         | [], [] => true
         | (k1, x) :: r1, (k2, y) :: r2 =>
             String.eqb k1 k2 && json_eqb x y && all2 r1 r2
         | _, _ => false
         end) xs ys
  | _, _ => false
  end.

(** ** [parseInt(s, 10)] *)

(** The white space and line terminators [parseInt] skips, as the UTF-8
    text holds them.  In one byte: TAB, LF, VT, FF, CR and SPACE. *)
Definition is_StrWhiteSpaceChar (c : ascii) : bool :=
  let n := nat_of_ascii c in
  ((9 <=? n) && (n <=? 13) || (n =? 32))%nat.

(** In two bytes: U+00A0, the bytes C2 A0. *)
Definition white2 (c1 c2 : ascii) : bool :=
  ((nat_of_ascii c1 =? 194) && (nat_of_ascii c2 =? 160))%nat.

(** In three bytes: U+1680 (E1 9A 80), U+2000 to U+200A (E2 80 80 to
    E2 80 8A), U+2028, U+2029 and U+202F (E2 80 A8, A9, AF), U+205F
    (E2 81 9F), U+3000 (E3 80 80) and U+FEFF (EF BB BF). *)
Definition white3 (c1 c2 c3 : ascii) : bool :=
  let n1 := nat_of_ascii c1 in
  let n2 := nat_of_ascii c2 in
  let n3 := nat_of_ascii c3 in
  ((n1 =? 225) && (n2 =? 154) && (n3 =? 128)
   || (n1 =? 226) && (n2 =? 128)
      && ((128 <=? n3) && (n3 <=? 138) || (n3 =? 168) || (n3 =? 169) || (n3 =? 175))
   || (n1 =? 226) && (n2 =? 129) && (n3 =? 159)
   || (n1 =? 227) && (n2 =? 128) && (n3 =? 128)
   || (n1 =? 239) && (n2 =? 187) && (n3 =? 191))%nat.

Fixpoint skip_white (s : string) : string :=
  match s with
  | String c1 rest1 =>
      if is_StrWhiteSpaceChar c1 then skip_white rest1
      else
        match rest1 with
        | String c2 rest2 =>
            if white2 c1 c2 then skip_white rest2
            else
              match rest2 with
              | String c3 rest3 =>
                  if white3 c1 c2 c3 then skip_white rest3 else s
              | EmptyString => s
              end
        | EmptyString => s
        end
  | EmptyString => s
  end.

Definition digit_value (c : ascii) : option Z :=
  let n := nat_of_ascii c in
  if ((48 <=? n) && (n <=? 57))%nat then Some (Z.of_nat (n - 48)) else None.

(** Value of the longest prefix of decimal digits; [None] when it is
    empty. *)
Fixpoint digits_prefix (s : string) (acc : option Z) : option Z :=
  match s with
  | EmptyString => acc
  | String c rest =>
      match digit_value c with
      | Some d =>
          digits_prefix rest
            (Some (10 * (match acc with Some a => a | None => 0 end) + d)%Z)
      | None => acc
      end
  end.

(** [parseInt(input, 10)]; [None] is [NaN].  The result is the
    mathematical integer: its rounding to a double is monotone and exact
    below [2^53], so comparisons with [1] and [1000] are not affected. *)
Definition parseInt10 (input : string) : option Z :=
  let s := skip_white input in
  let '(sign, body) :=
    match s with
    | String "-" rest => ((-1)%Z, rest)
    | String "+" rest => (1%Z, rest)
    | _ => (1%Z, s)
    end in
  match digits_prefix body None with
  | Some v => Some (sign * v)%Z
  | None => None
  end.

(** [Array.from(new Set(xs))]: first occurrences, in insertion order. *)
Fixpoint Set_from (seen : list string) (xs : list string) : list string :=
  match xs with
  | [] => []
  | x :: rest =>
      if existsb (String.eqb x) seen
      then Set_from seen rest
      else x :: Set_from (x :: seen) rest
  end.

End Js.
Export Js.

(* ================================================================== *)
(** * Effects *)
(* ================================================================== *)

Module Effects.

(** A provider SDK call as the code observes it: the awaited call
    rejects, or yields no text ([undefined] or the empty string), or
    yields a text; of a text only what [JSON.parse] makes of the extracted
    JSON matters: a [SyntaxError] or a parsed value. *)
Inductive reply : Type :=
| Rejects (e : exn)
| NoText
| Text (parse : result json).

Inductive provider : Type := Gemini | Mistral.

(** One stored or proposed record.  [categoryName] is a string in every
    generated record, but [POST] stores the value of the body as it
    came; [ai] is absent from records created by [POST]. *)
Record Category : Type := {
  categoryName : json;
  words : list string;
  createdAt : Z;
  ai : option string
}.

(** Everything the environment decides. *)
Record Oracle : Type := {
  random_src : nat -> Z;        (* k-th Math.random() is (random_src k mod 2^53) / 2^53 *)
  clock_src : nat -> Z;         (* k-th new Date(), in ms since the epoch *)
  GEMINI_API_KEY : option string;
  MISTRAL_API_KEY : option string;
  gemini_src : nat -> reply;    (* k-th Gemini generateContent *)
  mistral_src : nat -> reply;   (* k-th Mistral chat.complete *)
  sample_src : nat -> nat;      (* choices of the $sample stage *)
  ATLAS_URI : option string;
  connect_src : nat -> option exn;   (* k-th MongoClient.connect(): its error, if any *)
  word_class_json : Category -> bool (* validators/word_class.json as a predicate *)
}.

Inductive log_line : Type :=
| Log (text : string)
| Warn (text : string)
| Error (text : string).

(** Process-level state outside the database. *)
Record Sys : Type := {
  n_random : nat;
  n_clock : nat;
  n_gemini : nat;
  n_mistral : nat;
  console : list log_line
}.

(** State, reader and exception monad. *)
Definition M (S A : Type) : Type := Oracle -> S -> result A * S.

Definition ret {S A} (a : A) : M S A := fun _ s => (Ok a, s).

Definition bind {S A B} (m : M S A) (k : A -> M S B) : M S B :=
  fun o s =>
    match m o s with
    | (Ok a, s') => k a o s'
    | (Throw e, s') => (Throw e, s')
    end.

Definition throw {S A} (e : exn) : M S A := fun _ s => (Throw e, s).

(** [try { m } catch (e) { handler e }]: state changes made before the
    exception stay. *)
Definition try_catch {S A} (m : M S A) (handler : exn -> M S A) : M S A :=
  fun o s =>
    match m o s with
    | (Ok a, s') => (Ok a, s')
    | (Throw e, s') => handler e o s'
    end.

Definition liftR {S A} (r : result A) : M S A := fun _ s => (r, s).

Definition ask {S} : M S Oracle := fun o s => (Ok o, s).

Fixpoint mapM {S A B} (f : A -> M S B) (l : list A) : M S (list B) :=
  match l with
  | [] => ret []
  | x :: rest =>
      bind (f x) (fun y => bind (mapM f rest) (fun ys => ret (y :: ys)))
  end.

End Effects.
Export Effects.

Declare Scope monad_scope.
Delimit Scope monad_scope with monad.
Notation "x <- m ;; k" := (bind m (fun x => k))
  (at level 100, m at next level, right associativity) : monad_scope.
Notation "m ;;; k" := (bind m (fun _ => k))
  (at level 100, right associativity) : monad_scope.
Local Open Scope monad_scope.

(* ================================================================== *)
(** * Category generation *)
(* ================================================================== *)

Module Generation.

Definition G := M Sys.

Definition two53 : Z := 2 ^ 53.

(** [Math.random()]: the numerator [k] of the double [k / 2^53] in
    [0, 1), the grid on which the engine draws. *)
Definition Math_random : G Z :=
  fun o s =>
    (Ok (random_src o (n_random s) mod two53)%Z,
     {| n_random := S (n_random s); n_clock := n_clock s;
        n_gemini := n_gemini s; n_mistral := n_mistral s;
        console := console s |}).

(** Rounding to the nearest double, ties to even, of the positive value
    [p / 2^53]: the result again as a numerator over [2^53].  A numerator
    of at most 53 bits is exact; a longer one loses its low [s] bits. *)
Definition round_to_double (p : Z) : Z :=
  let s := (Z.log2 p + 1 - 53)%Z in
  if (s <=? 0)%Z then p
  else
    let q := (p / 2 ^ s)%Z in
    let r := (p mod 2 ^ s)%Z in
    let half := (2 ^ (s - 1))%Z in
    ((if (half <? r)%Z || ((r =? half)%Z && Z.odd q) then q + 1 else q) * 2 ^ s)%Z.

(** [Math.floor(r * m)] for [r = k / 2^53] and a positive integer [m]:
    the product of the two doubles, rounded, then floored. *)
Definition floor_times (k m : Z) : Z := (round_to_double (k * m) / two53)%Z.

(** [r < 0.1], the double [0.1] being [3602879701896397 / 2^55]. *)
Definition lt_tenth (k : Z) : bool := (4 * k <? 3602879701896397)%Z.

(** [new Date()]. *)
Definition new_Date : G Z :=
  fun o s =>
    (Ok (clock_src o (n_clock s)),
     {| n_random := n_random s; n_clock := S (n_clock s);
        n_gemini := n_gemini s; n_mistral := n_mistral s;
        console := console s |}).

Definition console_put (l : log_line) : G unit :=
  fun _ s =>
    (Ok tt,
     {| n_random := n_random s; n_clock := n_clock s;
        n_gemini := n_gemini s; n_mistral := n_mistral s;
        console := (console s ++ [l])%list |}).

Definition adjectives : list string :=
  ["blue"; "green"; "golden"; "ancient"; "modern"; "silent"; "loud";
   "quick"; "slow"; "bright"; "dark"; "tiny"; "giant"].

Definition nouns : list string :=
  ["garden"; "river"; "market"; "song"; "journey"; "castle"; "cafe";
   "street"; "plate"; "device"; "machine"; "festival"; "language";
   "flavor"].

Definition wordsPool : list string :=
  ["apple"; "stone"; "river"; "cloud"; "light"; "sound"; "dance"; "wind";
   "fire"; "earth"; "ocean"; "mountain"; "bird"; "leaf"; "root"; "spark";
   "tone"; "glass"; "bridge"; "path"; "seed"; "pulse"; "orbit"; "note";
   "frame"].

(** [arr[i]]; out of range reads [undefined], which a template or a
    [+] prints as such. *)
Definition at_index (arr : list string) (i : nat) : string :=
  nth i arr "undefined".

Definition fallback_tag : string := "No-ai-fallback".

(** One pushed word: a pool word, then with probability about one tenth
    an underscore and a number below one hundred. *)
Definition draw_word : G string :=
  r1 <- Math_random ;;
  r2 <- Math_random ;;
  if lt_tenth r2
  then r3 <- Math_random ;;
       ret (at_index wordsPool (Z.to_nat (floor_times r1 (Z.of_nat (List.length wordsPool))))
            ++ "_" ++ Number_toString (floor_times r3 100))
  else ret (at_index wordsPool (Z.to_nat (floor_times r1 (Z.of_nat (List.length wordsPool))))
            ++ "").

(** The inner loop, [for (j = 0; j < wordsCount; j++)]. *)
Fixpoint draw_words (wordsCount : nat) : G (list string) :=
  match wordsCount with
  | O => ret []
  | S j => w <- draw_word ;; ws <- draw_words j ;; ret (w :: ws)
  end.

Definition catName (i : nat) (r : Z) : string :=
  at_index adjectives (i mod List.length adjectives) ++ " "
  ++ at_index nouns (i mod List.length nouns) ++ " "
  ++ Number_toString (floor_times r 10000).

(** The body of the outer loop at index [i]. *)
Definition fallback_record (i : nat) : G Category :=
  r <- Math_random ;;
  ws <- draw_words (5 + i mod 16) ;;
  t <- new_Date ;;
  ret {| categoryName := JStr (catName i r);
         words := firstn 20 (Set_from [] ws);
         createdAt := t;
         ai := Some fallback_tag |}.

Definition fallbackGenerate (n : nat) : G (list Category) :=
  mapM fallback_record (seq 0 n).

(** *** Providers *)

Definition api_key (p : provider) (o : Oracle) : option string :=
  match p with
  | Gemini => GEMINI_API_KEY o
  | Mistral => MISTRAL_API_KEY o
  end.

(** [if (KEY)]: set and not the empty string. *)
Definition key_set (k : option string) : bool :=
  match k with
  | Some s => negb (String.eqb s "")
  | None => false
  end.

Definition provider_tag (p : provider) : string :=
  match p with Gemini => "gemini" | Mistral => "mistral" end.

Definition failed_label (p : provider) : string :=
  match p with
  | Gemini => "Gemini generation failed: "
  | Mistral => "Mistral generation failed: "
  end.

(** The reply the next call to provider [p] gets. *)
Definition reply_of (p : provider) (o : Oracle) (s : Sys) : reply :=
  match p with
  | Gemini => gemini_src o (n_gemini s)
  | Mistral => mistral_src o (n_mistral s)
  end.

(** The state once provider [p] has been asked. *)
Definition asked (p : provider) (s : Sys) : Sys :=
  match p with
  | Gemini =>
      {| n_random := n_random s; n_clock := n_clock s;
         n_gemini := S (n_gemini s); n_mistral := n_mistral s;
         console := console s |}
  | Mistral =>
      {| n_random := n_random s; n_clock := n_clock s;
         n_gemini := n_gemini s; n_mistral := S (n_mistral s);
         console := console s |}
  end.

(** The awaited SDK call with the text taken out of the response:
    [None] is a text that fails [if (text)]. *)
Definition request (p : provider) (n : nat) : G (option (result json)) :=
  fun o s =>
    match reply_of p o s with
    | Rejects e => (Throw e, asked p s)
    | NoText => (Ok None, asked p s)
    | Text parse => (Ok (Some parse), asked p s)
    end.

(** [(p.words || []).slice(0, 20).map(String)]. *)
Definition normalize_words (w : option json) : result (list string) :=
  if truthy w then
    match w with
    | Some (JArr items) => mapR ToString (firstn 20 items)
    | Some (JStr _) =>
        Throw (TypeError "(p.words || []).slice(...).map is not a function")
    | _ => Throw (TypeError "(p.words || []).slice is not a function")
    end
  else Ok [].

(** [String(p.categoryName)], then the words, of one parsed item. *)
Definition normalize_fields (p : json) : result (string * list string) :=
  bindR (bindR (get_member p "categoryName") String_) (fun name =>
  bindR (bindR (get_member p "words") normalize_words) (fun ws =>
  Ok (name, ws))).

(** The callback of [parsed.map]. *)
Definition normalize (tag : string) (p : json) : G Category :=
  nw <- liftR (normalize_fields p) ;;
  t <- new_Date ;;
  ret {| categoryName := JStr (fst nw); words := snd nw; createdAt := t;
         ai := Some tag |}.

Definition parsed_map (parsed : json) (f : json -> G Category) : G (list Category) :=
  match parsed with
  | JArr items => mapM f items
  | JNull => throw (TypeError "Cannot read properties of null (reading 'map')")
  | _ => throw (TypeError "parsed.map is not a function")
  end.

(** One [if (KEY) { try { ... return ... } catch (e) { warn } }] block:
    [Some batch] when the block returns, [None] when control falls out
    of it.  The warning prints [e.message]. *)
Definition provider_attempt (p : provider) (n : nat) : G (option (list Category)) :=
  o <- ask ;;
  if key_set (api_key p o) then
    try_catch
      (text <- request p n ;;
       match text with
       | Some parse =>
           parsed <- liftR parse ;;
           batch <- parsed_map parsed (normalize (provider_tag p)) ;;
           ret (Some batch)
       | None => ret None
       end)
      (fun e => console_put (Warn (failed_label p ++ message e)) ;;; ret None)
  else ret None.

Definition generateCategories (n : nat) : G (list Category) :=
  g <- provider_attempt Gemini n ;;
  match g with
  | Some batch => ret batch
  | None =>
      m <- provider_attempt Mistral n ;;
      match m with
      | Some batch => ret batch
      | None => fallbackGenerate n
      end
  end.

End Generation.
Export Generation.

(* ================================================================== *)
(** * The store: the [worddb.word_class] collection *)
(* ================================================================== *)

Module Store.

Record Doc : Type := { _id : nat; fields : Category }.

(** The collection as the server holds it. *)
Record Collection : Type := {
  docs : list Doc;
  unique_categoryName : bool;               (* the unique index { categoryName: 1 } exists *)
  validator : option (Category -> bool);    (* the $jsonSchema validator, if it was created with one *)
  next_id : nat                             (* supply of fresh ids *)
}.

Definition empty_collection (v : option (Category -> bool)) : Collection :=
  {| docs := []; unique_categoryName := false; validator := v; next_id := 0 |}.

(** Commands that change the database, in the order they were sent. *)
Inductive db_op : Type :=
| OpCreateCollection
| OpCreateIndex
| OpDeleteMany (ids : list nat)
| OpInsertMany (batch : list Category)
| OpInsertOne (c : Category).

(** The promise held by [collectionPromise]. *)
Inductive promise : Type :=
| Pending
| Settled (r : result unit).

Record App : Type := {
  sys : Sys;
  word_class : option Collection;      (* [None]: the collection does not exist yet *)
  oplog : list db_op;
  collectionPromise : option promise;  (* router module; [None] is [null] *)
  inits : nat;                         (* how many times the initialisation closure was started *)
  cachedClient : bool;                 (* connect.js module: [cachedClient] is set *)
  n_connect : nat;
  n_sample : nat
}.

Definition H := M App.

Definition with_sys (st : App) (s : Sys) : App :=
  {| sys := s; word_class := word_class st; oplog := oplog st;
     collectionPromise := collectionPromise st; inits := inits st;
     cachedClient := cachedClient st; n_connect := n_connect st;
     n_sample := n_sample st |}.

Definition with_coll (st : App) (c : Collection) (op : list db_op) : App :=
  {| sys := sys st; word_class := Some c; oplog := (oplog st ++ op)%list;
     collectionPromise := collectionPromise st; inits := inits st;
     cachedClient := cachedClient st; n_connect := n_connect st;
     n_sample := n_sample st |}.

Definition with_promise (st : App) (p : option promise) (k : nat) : App :=
  {| sys := sys st; word_class := word_class st; oplog := oplog st;
     collectionPromise := p; inits := k;
     cachedClient := cachedClient st; n_connect := n_connect st;
     n_sample := n_sample st |}.

Definition with_client (st : App) (cached : bool) (k : nat) : App :=
  {| sys := sys st; word_class := word_class st; oplog := oplog st;
     collectionPromise := collectionPromise st; inits := inits st;
     cachedClient := cached; n_connect := k;
     n_sample := n_sample st |}.

Definition with_sample (st : App) (k : nat) : App :=
  {| sys := sys st; word_class := word_class st; oplog := oplog st;
     collectionPromise := collectionPromise st; inits := inits st;
     cachedClient := cachedClient st; n_connect := n_connect st;
     n_sample := k |}.

(** Run a generation or console action inside a handler. *)
Definition lift {A} (g : G A) : H A :=
  fun o st => let '(r, s) := g o (sys st) in (r, with_sys st s).

(** The collection behind the handle; a collection that does not exist
    reads as empty and comes into being with the first insert. *)
Definition coll (st : App) : Collection :=
  match word_class st with
  | Some c => c
  | None => empty_collection None
  end.

(** *** The unique index *)

(** Keys of one value in the index: an array is indexed by its
    elements, the empty array by [undefined] ([None]). *)
Definition index_keys (v : json) : list (option json) :=
  match v with
  | JArr [] => [None]
  | JArr items => map Some items
  | _ => [Some v]
  end.

Definition key_eqb (a b : option json) : bool :=
  match a, b with
  | None, None => true
  | Some x, Some y => json_eqb x y
  | _, _ => false
  end.

Definition keys_clash (a b : json) : bool :=
  existsb (fun k => existsb (key_eqb k) (index_keys b)) (index_keys a).

Definition duplicate_key (c : Category) (ds : list Doc) : bool :=
  existsb (fun d => keys_clash (categoryName c) (categoryName (fields d))) ds.

Fixpoint has_clash (ds : list Doc) : bool :=
  match ds with
  | [] => false
  | d :: rest => duplicate_key (fields d) rest || has_clash rest
  end.

Definition DuplicateKey : exn :=
  {| message := "E11000 duplicate key error collection: worddb.word_class";
     code := Some 11000%Z |}.

Definition ValidationFailed : exn :=
  {| message := "Document failed validation"; code := Some 121%Z |}.

Definition BulkWriteError (first : exn) : exn := first.

Definition EmptyBatch : exn :=
  {| message := "Invalid BulkOperation, Batch cannot be empty"; code := None |}.

Definition passes (c : Collection) (x : Category) : bool :=
  match validator c with
  | Some v => v x
  | None => true
  end.

(** The server's decision on one document. *)
Definition write_error (c : Collection) (x : Category) : option exn :=
  if negb (passes c x) then Some ValidationFailed
  else if unique_categoryName c && duplicate_key x (docs c) then Some DuplicateKey
  else None.

Definition store (c : Collection) (x : Category) : Collection :=
  {| docs := (docs c ++ [{| _id := next_id c; fields := x |}])%list;
     unique_categoryName := unique_categoryName c;
     validator := validator c;
     next_id := S (next_id c) |}.

(** [insertMany(batch, { ordered: false })] on the server: every document
    is tried, the ones in error are skipped; the first error is kept. *)
Fixpoint insert_unordered (c : Collection) (batch : list Category)
  : Collection * option exn :=
  match batch with
  | [] => (c, None)
  | x :: rest =>
      match write_error c x with
      | Some e =>
          let '(c', _) := insert_unordered c rest in (c', Some e)
      | None =>
          let '(c', e') := insert_unordered (store c x) rest in (c', e')
      end
  end.

(** *** Commands on the collection handle *)

Definition countDocuments : H nat :=
  fun _ st => (Ok (List.length (docs (coll st))), st).

Fixpoint insert_desc (d : Doc) (l : list Doc) : list Doc :=
  match l with
  | [] => [d]
  | x :: rest =>
      if (createdAt (fields x) <? createdAt (fields d))%Z
      then d :: l
      else x :: insert_desc d rest
  end.

Definition sort_desc (l : list Doc) : list Doc := fold_right insert_desc [] l.

(** [find({}).sort({ createdAt: -1 }).limit(k).toArray()], [k >= 1]. *)
Definition find_recent (k : nat) : H (list Doc) :=
  fun _ st => (Ok (firstn k (sort_desc (docs (coll st)))), st).

Fixpoint remove_at {A} (i : nat) (l : list A) : list A :=
  match l, i with
  | [], _ => []
  | _ :: rest, O => rest
  | x :: rest, S j => x :: remove_at j rest
  end.

(** [size] draws without replacement, fewer when the pool runs out. *)
Fixpoint take_sample (pick : nat -> nat) (from size : nat) (pool : list Doc)
  : list Doc :=
  match size with
  | O => []
  | S size' =>
      let i := pick from mod List.length pool in
      match nth_error pool i with
      | None => []
      | Some d => d :: take_sample pick (S from) size' (remove_at i pool)
      end
  end.

(** [aggregate([{ $sample: { size } }, { $project: { _id: 1 } }]).toArray()]. *)
Definition aggregate_sample (size : nat) : H (list nat) :=
  fun o st =>
    (Ok (map _id (take_sample (sample_src o) (n_sample st) size (docs (coll st)))),
     with_sample st (n_sample st + size)).

Definition deleteMany (ids : list nat) : H unit :=
  fun _ st =>
    let c := coll st in
    (Ok tt,
     with_coll st
       {| docs := filter (fun d => negb (existsb (Nat.eqb (_id d)) ids)) (docs c);
          unique_categoryName := unique_categoryName c;
          validator := validator c;
          next_id := next_id c |}
       [OpDeleteMany ids]).

Definition insertMany (batch : list Category) : H unit :=
  fun _ st =>
    match batch with
    | [] => (Throw EmptyBatch, st)
    | _ :: _ =>
        let '(c', err) := insert_unordered (coll st) batch in
        let st' := with_coll st c' [OpInsertMany batch] in
        match err with
        | Some e => (Throw (BulkWriteError e), st')
        | None => (Ok tt, st')
        end
    end.

(** [insertOne(doc)]: the inserted id. *)
Definition insertOne (x : Category) : H nat :=
  fun _ st =>
    let c := coll st in
    match write_error c x with
    | Some e => (Throw e, st)
    | None => (Ok (next_id c), with_coll st (store c x) [OpInsertOne x])
    end.

(** [createIndex({ categoryName: 1 }, { unique: true })]: nothing to do
    when the index is there; building it fails on duplicated keys. *)
Definition createIndex : H unit :=
  fun _ st =>
    let c := coll st in
    if unique_categoryName c then (Ok tt, st)
    else if has_clash (docs c) then (Throw DuplicateKey, st)
    else
      (Ok tt,
       with_coll st
         {| docs := docs c; unique_categoryName := true;
            validator := validator c; next_id := next_id c |}
         [OpCreateIndex]).

End Store.
Export Store.

(* ================================================================== *)
(** * db/connect.js *)
(* ================================================================== *)

Module Connect.

Definition MissingUri : exn :=
  {| message := "ATLAS_URI is missing in environment variables."; code := None |}.

Definition getClient : H unit :=
  fun o st =>
    if cachedClient st then (Ok tt, st)
    else if negb (key_set (ATLAS_URI o)) then (Throw MissingUri, st)
    else
      match connect_src o (n_connect st) with
      | Some e => (Throw e, with_client st false (S (n_connect st)))
      | None => (Ok tt, with_client st true (S (n_connect st)))
      end.

(** [connectToDb('worddb', 'word_class', { validatorObject })] with the
    default [createIfMissing]. *)
Definition connectToDb : H unit :=
  getClient ;;;
  (fun o st =>
     match word_class st with
     | None =>
         (Ok tt,
          with_coll st (empty_collection (Some (word_class_json o)))
            [OpCreateCollection])
     | Some _ => (Ok tt, st)
     end).

End Connect.
Export Connect.

(* ================================================================== *)
(** * The router *)
(* ================================================================== *)

Module Router.

Inductive body : Type :=
| Docs (l : list Doc)
| ErrorBody (msg : string)
| InsertedId (id : nat).

Record response : Type := { status : nat; payload : body }.

(** The closure whose promise [collectionPromise] holds. *)
Definition init_body : H unit :=
  connectToDb ;;;
  try_catch createIndex
    (fun err =>
       lift (console_put (Warn ("Could not create unique index: " ++ message err)))) ;;;
  lift (console_put (Log "Connected to worddb -> word_class collection")).

(** The synchronous part of [getCollection()]:
    [if (!collectionPromise) collectionPromise = (async () => ...)()]. *)
Definition getCollection_start : H unit :=
  fun _ st =>
    match collectionPromise st with
    | None => (Ok tt, with_promise st (Some Pending) (S (inits st)))
    | Some _ => (Ok tt, st)
    end.

(** The pending initialisation runs to its end and settles the promise. *)
Definition settle : H unit :=
  fun o st =>
    match collectionPromise st with
    | Some Pending =>
        let '(r, st') := init_body o st in
        (Ok tt, with_promise st' (Some (Settled r)) (inits st'))
    | _ => (Ok tt, st)
    end.

Definition NotSettled : exn := {| message := "pending"; code := None |}.

(** What a caller that awaits the settled promise gets. *)
Definition await_promise : H unit :=
  fun _ st =>
    match collectionPromise st with
    | Some (Settled r) => (r, st)
    | _ => (Throw NotSettled, st)
    end.

(** [await getCollection()] as one handler sees it. *)
Definition getCollection : H unit :=
  getCollection_start ;;; settle ;;; await_promise.

(** [let limit = parseInt(req.query.limit, 10);
     if (isNaN(limit) || limit < 1 || limit > 1000) limit = 100;]
    with [None] for a query without [limit]; a repeated or bracketed
    parameter reaches [parseInt] as the text [String] makes of it. *)
Definition parse_limit (query_limit : option string) : Z :=
  match parseInt10 (match query_limit with Some s => s | None => "undefined" end) with
  | None => 100
  | Some limit =>
      if ((limit <? 1) || (1000 <? limit))%Z then 100%Z else limit
  end.

Definition oneDayMs : Z := 24 * 60 * 60 * 1000.

(** [latest[0]?.createdAt || null]. *)
Definition lastCreatedAt (latest : list Doc) : option Z :=
  match latest with
  | d :: _ => Some (createdAt (fields d))
  | [] => None
  end.

(** [!lastCreatedAt || (now - new Date(lastCreatedAt) >= oneDayMs)]. *)
Definition stale (now : Z) (last : option Z) : bool :=
  match last with
  | None => true
  | Some t => (oneDayMs <=? now - t)%Z
  end.

(** [insertMany(newCats, { ordered: false }).catch(e => console.warn(label, e.message))]. *)
Definition insertMany_tolerant (label : string) (newCats : list Category) : H unit :=
  try_catch (insertMany newCats)
    (fun e => lift (console_put (Warn (label ++ message e)))).

(** The capacity branch of [GET /categories]. *)
Definition prune_and_add : H unit :=
  toRemove <- aggregate_sample 100 ;;
  (match toRemove with
   | [] => ret tt
   | _ :: _ => deleteMany toRemove
   end) ;;;
  newCats <- lift (generateCategories 100) ;;
  insertMany_tolerant "Insert after prune errors: " newCats.

(** The freshness branch. *)
Definition add_fresh : H unit :=
  newCats <- lift (generateCategories 100) ;;
  insertMany_tolerant "Insert errors: " newCats.

(** The refresh step of [GET /categories]: both tests read [count],
    [lastCreatedAt] and [now] taken at entry. *)
Definition ensureFresh : H unit :=
  now <- lift new_Date ;;
  count <- countDocuments ;;
  latest <- find_recent 1 ;;
  (if (1000 <? count)%nat then prune_and_add else ret tt) ;;;
  (if stale now (lastCreatedAt latest) then add_fresh else ret tt).

Definition not_ready : response :=
  {| status := 503; payload := ErrorBody "DB not ready" |}.

Definition ready : H bool :=
  try_catch (getCollection ;;; ret true) (fun _ => ret false).

Definition get_categories (query_limit : option string) : H response :=
  ok <- ready ;;
  if ok then
    let limit := parse_limit query_limit in
    try_catch
      (ensureFresh ;;;
       found <- find_recent (Z.to_nat limit) ;;
       ret {| status := 200; payload := Docs found |})
      (fun err =>
         lift (console_put (Error ("GET /categories error: " ++ message err))) ;;;
         ret {| status := 500; payload := ErrorBody (message err) |})
  else ret not_ready.

(** The test of [POST /categories]: [true] when the body is refused. *)
Definition invalid (categoryName words : option json) : bool :=
  negb (truthy categoryName)
  || match words with
     | Some (JArr items) =>
         (List.length items <? 1)%nat || (20 <? List.length items)%nat
         || negb (forallb is_string items)
     | _ => true
     end.

Definition words_of (words : option json) : list string :=
  match words with
  | Some (JArr items) => map as_string items
  | _ => []
  end.

Definition name_of (categoryName : option json) : json :=
  match categoryName with
  | Some v => v
  | None => JNull
  end.

(** [req.body || {}]. *)
Definition body_or_empty (req_body : option json) : json :=
  match req_body with
  | Some b => if truthy req_body then b else JObj []
  | None => JObj []
  end.

Definition post_categories (req_body : option json) : H response :=
  ok <- ready ;;
  if ok then
    let b := body_or_empty req_body in
    let categoryName := destructure b "categoryName" in
    let words := destructure b "words" in
    if invalid categoryName words then
      ret {| status := 400;
             payload := ErrorBody "Invalid categoryName or words array" |}
    else
      try_catch
        (now <- lift new_Date ;;
         id <- insertOne {| categoryName := name_of categoryName;
                            words := words_of words;
                            createdAt := now;
                            ai := None |} ;;
         ret {| status := 201; payload := InsertedId id |})
        (fun err =>
           if match code err with Some c => (c =? 11000)%Z | None => false end
           then ret {| status := 409;
                       payload := ErrorBody "categoryName already exists" |}
           else ret {| status := 500; payload := ErrorBody (message err) |})
  else ret not_ready.

(** Arrivals of requests at [getCollection()] interleaved with the end of
    the initialisation. *)
Inductive event : Type :=
| Arrives
| InitEnds.

Definition step (o : Oracle) (st : App) (e : event) : App :=
  match e with
  | Arrives => snd (getCollection_start o st)
  | InitEnds => snd (settle o st)
  end.

Definition run (o : Oracle) (evs : list event) (st : App) : App :=
  fold_left (step o) evs st.

End Router.
Export Router.

(* ================================================================== *)
(** * Specification predicates *)
(* ================================================================== *)

(** [total m Q]: from every state [m] returns, without throwing, a
    value that satisfies [Q]. *)
Definition total {S A} (m : M S A) (Q : A -> Prop) : Prop :=
  forall o s, exists a s', m o s = (Ok a, s') /\ Q a.

(** [returns m Q]: whenever [m] returns a value, it satisfies [Q]. *)
Definition returns {S A} (m : M S A) (Q : A -> Prop) : Prop :=
  forall o s a s', m o s = (Ok a, s') -> Q a.

(** What the loop body at index [i] always produces. *)
Definition fallback_shape (i : nat) (c : Category) : Prop :=
  (exists k : Z,
      (0 <= k < 10000)%Z /\
      categoryName c =
        JStr (at_index adjectives (i mod 13) ++ " "
              ++ at_index nouns (i mod 14) ++ " " ++ Number_toString k))
  /\ In (at_index adjectives (i mod 13)) adjectives
  /\ In (at_index nouns (i mod 14)) nouns
  /\ 1 <= List.length (words c) <= 5 + i mod 16
  /\ 5 + i mod 16 <= 20
  /\ NoDup (words c)
  /\ ai c = Some "No-ai-fallback".

(** The provider blocks of [generateCategories] in sequence, the
    fallback generator last. *)
Fixpoint chain (ps : list provider) (n : nat) : G (list Category) :=
  match ps with
  | [] => fallbackGenerate n
  | p :: rest =>
      r <- provider_attempt p n ;;
      match r with
      | Some batch => ret batch
      | None => chain rest n
      end
  end.

(** The exception the callback of [parsed.map] raises first, if any. *)
Fixpoint first_error (items : list json) : option exn :=
  match items with
  | [] => None
  | x :: rest =>
      match normalize_fields x with
      | Throw e => Some e
      | Ok _ => first_error rest
      end
  end.

(** The exception a reply makes the [try] block raise: a rejected call,
    a text that does not parse, a parsed value that is no array, an array
    with an item that cannot be normalised. *)
Definition failure_of (r : reply) : option exn :=
  match r with
  | Rejects e => Some e
  | NoText => None
  | Text (Throw e) => Some e
  | Text (Ok (JArr items)) => first_error items
  | Text (Ok JNull) => Some (TypeError "Cannot read properties of null (reading 'map')")
  | Text (Ok _) => Some (TypeError "parsed.map is not a function")
  end.

(** The block of provider [p] returns no batch from state [s]: its key
    is not set, or the reply has no text, or the block raises an
    exception. *)
Definition yields_nothing (p : provider) (o : Oracle) (s : Sys) : Prop :=
  key_set (api_key p o) = false
  \/ reply_of p o s = NoText
  \/ exists e, failure_of (reply_of p o s) = Some e.

(** A normalised item costs one clock read and nothing else. *)
Definition tick (s : Sys) : Sys :=
  {| n_random := n_random s; n_clock := S (n_clock s);
     n_gemini := n_gemini s; n_mistral := n_mistral s;
     console := console s |}.

(** The shape of a record a provider block builds. *)
Definition provider_shape (tag : string) (c : Category) : Prop :=
  (exists name, categoryName c = JStr name)
  /\ List.length (words c) <= 20
  /\ ai c = Some tag.

(** The shape of every generated record, whichever block built it. *)
Definition generated_shape (c : Category) : Prop :=
  (exists name, categoryName c = JStr name)
  /\ List.length (words c) <= 20
  /\ (ai c = Some "gemini" \/ ai c = Some "mistral" \/ ai c = Some "No-ai-fallback").

(** The limit as the specification words it: the parsed number clamped
    into [1, 1000], 100 when there is none. *)
Definition clamp_limit (query_limit : option string) : Z :=
  match parseInt10 (match query_limit with Some s => s | None => "undefined" end) with
  | None => 100
  | Some limit => Z.max 1 (Z.min 1000 limit)
  end.

(** What is asked of one proposed record: a non-empty name and between
    one and twenty words. *)
Definition well_formed (c : Category) : Prop :=
  (exists s, categoryName c = JStr s /\ s <> "")
  /\ 1 <= List.length (words c) <= 20.

(** [Generate(n)] answers with exactly [n] well-formed records. *)
Definition generates (n : nat) (r : result (list Category)) : Prop :=
  exists out, r = Ok out /\ List.length out = n /\ Forall well_formed out.

(** A fallback record holding five to twenty distinct words. *)
Definition five_to_twenty (c : Category) : Prop :=
  5 <= List.length (words c) <= 20 /\ NoDup (words c).

(* ================================================================== *)
(** * Concrete environments *)
(* ================================================================== *)

(** No provider key, a reachable database, every random draw zero. *)
Definition offline : Oracle :=
  {| random_src := fun _ => 0%Z;
     clock_src := fun k => (1700000000000 + Z.of_nat k)%Z;
     GEMINI_API_KEY := None;
     MISTRAL_API_KEY := None;
     gemini_src := fun _ => NoText;
     mistral_src := fun _ => NoText;
     sample_src := fun _ => 0;
     ATLAS_URI := Some "mongodb+srv://cluster0";
     connect_src := fun _ => None;
     word_class_json := fun _ => true |}.

(** Both keys set; Gemini answers with the given reply every time. *)
Definition with_gemini (r : reply) : Oracle :=
  {| random_src := fun _ => 0%Z;
     clock_src := fun k => (1700000000000 + Z.of_nat k)%Z;
     GEMINI_API_KEY := Some "g-key";
     MISTRAL_API_KEY := Some "m-key";
     gemini_src := fun _ => r;
     mistral_src := fun _ => NoText;
     sample_src := fun _ => 0;
     ATLAS_URI := Some "mongodb+srv://cluster0";
     connect_src := fun _ => None;
     word_class_json := fun _ => true |}.

Definition boot : Sys :=
  {| n_random := 0; n_clock := 0; n_gemini := 0; n_mistral := 0; console := [] |}.

(** The process right after start: nothing initialised, no collection. *)
Definition fresh_app : App :=
  {| sys := boot; word_class := None; oplog := [];
     collectionPromise := None; inits := 0;
     cachedClient := false; n_connect := 0; n_sample := 0 |}.

(** What [insertMany] sends to the server: nothing for an empty batch,
    which the driver refuses. *)
Definition sent (batch : list Category) : list db_op :=
  match batch with
  | [] => []
  | _ :: _ => [OpInsertMany batch]
  end.

Definition kept (ids : list nat) (ds : list Doc) : list Doc :=
  filter (fun d => negb (existsb (Nat.eqb (_id d)) ids)) ds.

(** The record [POST /categories] builds from a body that passed the
    test. *)
Definition posted (categoryName words : option json) (now : Z) : Category :=
  {| categoryName := name_of categoryName;
     words := words_of words;
     createdAt := now;
     ai := None |}.

(** No provider key is configured. *)
Definition no_keys (o : Oracle) : bool :=
  negb (key_set (GEMINI_API_KEY o)) && negb (key_set (MISTRAL_API_KEY o)).

(** A record that stands for a batch that is not generated. *)
Definition blank : Category :=
  {| categoryName := JStr ""; words := []; createdAt := 0; ai := None |}.

(** The sizes of the write commands, in order: ids deleted, records
    offered for insertion. *)
Definition op_size (op : db_op) : nat :=
  match op with
  | OpDeleteMany ids => List.length ids
  | OpInsertMany batch => List.length batch
  | OpInsertOne _ => 1
  | OpCreateCollection => 0
  | OpCreateIndex => 0
  end.



(** A running process on a given collection, initialisation done. *)
Definition running (c : Collection) : App :=
  {| sys := boot; word_class := Some c; oplog := [];
     collectionPromise := Some (Settled (Ok tt)); inits := 1;
     cachedClient := true; n_connect := 1; n_sample := 0 |}.

(** One record created a second before the first clock reading of
    [offline]. *)
Definition recent : Collection :=
  {| docs := [{| _id := 0;
                 fields := {| categoryName := JStr "blue garden 7";
                              words := ["apple"; "stone"; "river"; "cloud"; "light"];
                              createdAt := 1699999999000;
                              ai := Some "No-ai-fallback" |} |}];
     unique_categoryName := true;
     validator := None;
     next_id := 1 |}.

(** The first connection attempt fails, every later one would succeed. *)
Definition ECONNREFUSED : exn :=
  {| message := "connect ECONNREFUSED"; code := None |}.

Definition flaky : Oracle :=
  {| random_src := fun _ => 0%Z;
     clock_src := fun k => (1700000000000 + Z.of_nat k)%Z;
     GEMINI_API_KEY := None;
     MISTRAL_API_KEY := None;
     gemini_src := fun _ => NoText;
     mistral_src := fun _ => NoText;
     sample_src := fun _ => 0;
     ATLAS_URI := Some "mongodb+srv://cluster0";
     connect_src := fun k => match k with O => Some ECONNREFUSED | S _ => None end;
     word_class_json := fun _ => true |}.

(** A later call to [getCollection()] starts a new initialisation. *)
Definition retried (o : Oracle) (st : App) : Prop :=
  inits (step o st Arrives) = S (inits st).

(** The test of [Create] as the specification words it: [categoryName]
    is a non-empty string and [words] is a list of 1 to 20 strings. *)
Definition create_ok (categoryName words : option json) : bool :=
  match categoryName with
  | Some (JStr s) => negb (String.eqb s "")
  | _ => false
  end
  && match words with
     | Some (JArr items) =>
         (1 <=? List.length items)%nat && (List.length items <=? 20)%nat
         && forallb is_string items
     | _ => false
     end.

(** A body whose [categoryName] is the number 42. *)
Definition numbered_body : json :=
  JObj [("categoryName", JNum 42); ("words", JArr [JStr "a"])].

(** A body naming the category [x]. *)
Definition body_x : json :=
  JObj [("categoryName", JStr "x"); ("words", JArr [JStr "a"; JStr "b"])].

Definition stored (name : string) (i : nat) : Doc :=
  {| _id := i;
     fields := {| categoryName := JStr name; words := ["one"];
                  createdAt := 1600000000000; ai := None |} |}.

(** A collection that holds the name [y] twice, so that the unique
    index cannot be built, and the name [x] once. *)
Definition duplicated : Collection :=
  {| docs := [stored "y" 0; stored "y" 1; stored "x" 2];
     unique_categoryName := false;
     validator := None;
     next_id := 3 |}.

(** A collection with the unique index that holds the name [x]. *)
Definition indexed : Collection :=
  {| docs := [stored "x" 0];
     unique_categoryName := true;
     validator := None;
     next_id := 1 |}.

(** The process right after start, on an existing collection. *)
Definition cold (c : Collection) : App :=
  {| sys := boot; word_class := Some c; oplog := [];
     collectionPromise := None; inits := 0;
     cachedClient := false; n_connect := 0; n_sample := 0 |}.


(* ================================================================== *)
(** * Invariants and orderings of the store *)
(* ================================================================== *)

(** The uniqueness invariant of the collection: the unique index exists
    and no two stored names clash in it. *)
Definition unique_names (c : Collection) : Prop :=
  unique_categoryName c = true /\ has_clash (docs c) = false.

(** A handler keeps a property of the process state, whether it returns
    or throws. *)
Definition keeps {A} (I : App -> Prop) (m : H A) : Prop :=
  forall o st r st', I st -> m o st = (r, st') -> I st'.

(** Newest first. *)
Definition newer_or_equal (a b : Doc) : Prop :=
  (createdAt (fields b) <= createdAt (fields a))%Z.

(** The answers of [POST /categories]. *)
Definition created (id : nat) : response :=
  {| status := 201; payload := InsertedId id |}.

Definition conflict : response :=
  {| status := 409; payload := ErrorBody "categoryName already exists" |}.

Definition bad_request : response :=
  {| status := 400; payload := ErrorBody "Invalid categoryName or words array" |}.

Definition failed (e : exn) : response :=
  {| status := 500; payload := ErrorBody (message e) |}.

Definition is_duplicate (e : exn) : bool :=
  match code e with
  | Some c => (c =? 11000)%Z
  | None => false
  end.

(* ================================================================== *)
(** * Connection and initialisation, observed *)
(* ================================================================== *)

(** The client is there, or can be had at this attempt. *)
Definition connects (o : Oracle) (st : App) : bool :=
  cachedClient st
  || (key_set (ATLAS_URI o)
      && match connect_src o (n_connect st) with
         | None => true
         | Some _ => false
         end).

(** The collection a successful initialisation leaves: created empty
    with the validator of [word_class.json] when it was missing, given the
    unique index unless two stored names clash. *)
Definition initialised (o : Oracle) (st : App) : Collection :=
  {| docs := docs (coll st);
     unique_categoryName :=
       unique_categoryName (coll st) || negb (has_clash (docs (coll st)));
     validator :=
       match word_class st with
       | Some c => validator c
       | None => Some (word_class_json o)
       end;
     next_id := next_id (coll st) |}.

(** [k] calls of [getClient()] in a row. *)
Fixpoint getClient_calls (o : Oracle) (k : nat) (st : App) : App :=
  match k with
  | O => st
  | S k' => getClient_calls o k' (snd (getClient o st))
  end.

(* ================================================================== *)
(** * Footprints of the generators *)
(* ================================================================== *)

(** A word of the fallback generator: a pool word, as it is or followed
    by an underscore and a number below one hundred. *)
Definition pool_word (w : string) : Prop :=
  exists base,
    In base wordsPool
    /\ (w = base
        \/ exists k, (0 <= k < 100)%Z /\ w = base ++ "_" ++ Number_toString k).

(** Record [c] is what the loop body builds at index [i] from state
    [s]: it is named with the first draw, holds the distinct words among
    the [5 + i mod 16] words drawn next, in the order of their first
    draw, and is stamped with the clock read after them. *)
Definition fallback_drawn (o : Oracle) (s : Sys) (i : nat) (c : Category) : Prop :=
  exists r s1 ws s2,
    Math_random o s = (Ok r, s1)
    /\ draw_words (5 + i mod 16) o s1 = (Ok ws, s2)
    /\ List.length ws = 5 + i mod 16
    /\ Forall pool_word ws
    /\ c = {| categoryName := JStr (catName i r);
              words := Set_from [] ws;
              createdAt := clock_src o (n_clock s2);
              ai := Some "No-ai-fallback" |}
    /\ NoDup (words c)
    /\ (forall w, In w (words c) <-> In w ws).

(** Nothing but random draws happened between two states: [lo] to [hi]
    of them. *)
Definition drew (lo hi : nat) (s s' : Sys) : Prop :=
  n_random s + lo <= n_random s' /\ n_random s' <= n_random s + hi
  /\ n_clock s' = n_clock s
  /\ n_gemini s' = n_gemini s
  /\ n_mistral s' = n_mistral s
  /\ console s' = console s.

(** Record [c] is item [x] of a provider's array, normalised and tagged. *)
Definition normalized (tag : string) (x : json) (c : Category) : Prop :=
  exists name ws,
    normalize_fields x = Ok (name, ws)
    /\ categoryName c = JStr name
    /\ words c = ws
    /\ ai c = Some tag.

(** One item as a provider may send it: a name and two words, one of
    them a number. *)
Definition fruits_item : json :=
  JObj [("categoryName", JStr "fruits"); ("words", JArr [JStr "pomme"; JNum 3])].

(* ================================================================== *)
(** * Names of the fallback generator *)
(* ================================================================== *)

(** The text before the space numbered [k], counting from zero. *)
Fixpoint before_space (k : nat) (s : string) : string :=
  match s with
  | EmptyString => EmptyString
  | String c rest =>
      if Ascii.eqb c " "
      then match k with
           | O => EmptyString
           | S k' => String c (before_space k' rest)
           end
      else String c (before_space k rest)
  end.

Fixpoint no_space (s : string) : bool :=
  match s with
  | EmptyString => true
  | String c rest => negb (Ascii.eqb c " ") && no_space rest
  end.

(** Adjective and noun of the name at index [i]. *)
Definition stem (i : nat) : string :=
  at_index adjectives (i mod 13) ++ " " ++ at_index nouns (i mod 14).

Definition name_text (c : Category) : string := as_string (categoryName c).

(** Every record of the batch is new to the index: it clashes neither
    with the records [seen] nor with an earlier record of the batch. *)
Fixpoint all_new (seen : list Category) (batch : list Category) : Prop :=
  match batch with
  | [] => True
  | x :: rest =>
      (forall d, In d seen -> keys_clash (categoryName x) (categoryName d) = false)
      /\ all_new (seen ++ [x]) rest
  end.

(** The documents a batch becomes, with ids from [from] on. *)
Fixpoint numbered (from : nat) (batch : list Category) : list Doc :=
  match batch with
  | [] => []
  | x :: rest => {| _id := from; fields := x |} :: numbered (S from) rest
  end.

(* ================================================================== *)
(** * Texts around a number *)
(* ================================================================== *)

(** U+00A0 and U+2028 as the text holds them. *)
Definition nbsp : string :=
  String (ascii_of_nat 194) (String (ascii_of_nat 160) EmptyString).

Definition line_separator : string :=
  String (ascii_of_nat 226)
    (String (ascii_of_nat 128) (String (ascii_of_nat 168) EmptyString)).

(** The text is made of white space and line terminators only. *)
Fixpoint all_white (s : string) : bool :=
  match s with
  | EmptyString => true
  | String c1 rest1 =>
      if is_StrWhiteSpaceChar c1 then all_white rest1
      else
        match rest1 with
        | String c2 rest2 =>
            if white2 c1 c2 then all_white rest2
            else
              match rest2 with
              | String c3 rest3 => white3 c1 c2 c3 && all_white rest3
              | EmptyString => false
              end
        | EmptyString => false
        end
  end.

Fixpoint all_digits (s : string) : bool :=
  match s with
  | EmptyString => true
  | String c rest =>
      match digit_value c with Some _ => all_digits rest | None => false end
  end.

(** The text is empty or starts with something else than a digit. *)
Definition no_digit_first (s : string) : bool :=
  match s with
  | EmptyString => true
  | String c _ => match digit_value c with Some _ => false | None => true end
  end.

(* ================================================================== *)
(** * Requests in sequence *)
(* ================================================================== *)

Inductive request_to : Type :=
| Get (query_limit : option string)
| Post (req_body : option json).

Definition serve (r : request_to) : H response :=
  match r with
  | Get q => get_categories q
  | Post b => post_categories b
  end.

(** The requests are handled one after the other. *)
Definition serve_all (rs : list request_to) : H (list response) := mapM serve rs.

(** A collection whose validator wants a text as [categoryName]. *)
Definition strict : Collection :=
  {| docs := [];
     unique_categoryName := true;
     validator := Some (fun c => match categoryName c with
                                 | JStr _ => true
                                 | _ => false
                                 end);
     next_id := 0 |}.

(** The state a failed initialisation leaves. *)
Definition broken (e : exn) : App :=
  {| sys := boot; word_class := None; oplog := [];
     collectionPromise := Some (Settled (Throw e)); inits := 1;
     cachedClient := false; n_connect := 1; n_sample := 0 |}.

(* ================================================================== *)
(** * db/connect.js with its options *)
(* ================================================================== *)

(** [require('../../db/validators/word_class.json')]. *)
Definition require_validator : H (Category -> bool) :=
  fun o st => (Ok (word_class_json o), st).

(** [connectToDb('worddb', 'word_class', { validatorObject, createIfMissing })];
    [None] is an option that is not given, which reads as [null]. *)
Definition connectToDb_with (validatorObject : option (Category -> bool))
  (createIfMissing : bool) : H unit :=
  getClient ;;;
  (fun _ st =>
     match word_class st with
     | None =>
         if createIfMissing
         then (Ok tt,
               with_coll st (empty_collection validatorObject) [OpCreateCollection])
         else (Ok tt, st)
     | Some _ => (Ok tt, st)
     end).

(* ================================================================== *)
(** * The router with the module-level handle *)
(* ================================================================== *)

Module Legacy.

(** The process, with [let collection = null] of the module. *)
Record Server : Type := { app : App; collection : bool }.

Definition L := M Server.

Definition on_app {A} (h : H A) : L A :=
  fun o sv =>
    let '(r, st) := h o (app sv) in
    (r, {| app := st; collection := collection sv |}).

(** [collection = coll]. *)
Definition assign_collection : L unit :=
  fun _ sv => (Ok tt, {| app := app sv; collection := true |}).

(** The function run at load.  The options object has the key
    [validationObject], so [connectToDb] gets no [validatorObject]. *)
Definition init : L unit :=
  try_catch
    (validationObject <- on_app require_validator ;;
     on_app (connectToDb_with None true) ;;;
     assign_collection ;;;
     on_app
       (try_catch createIndex
          (fun idxErr =>
             lift (console_put
                     (Warn ("Could not create unique index on categoryName: "
                            ++ message idxErr))))) ;;;
     on_app
       (lift (console_put
                (Log "wordapi: connected to worddb and ensured word_class collection"))))
    (fun err =>
       on_app
         (lift (console_put
                  (Warn ("wordapi: could not connect/create collection (continuing without DB): "
                         ++ message err))))).

Definition nouns : list string :=
  ["garden"; "river"; "market"; "song"; "journey"; "castle"; "cafe";
   "street"; "plate"; "song"; "device"; "machine"; "festival"; "language";
   "flavor"].

Definition catName (i : nat) (r : Z) : string :=
  at_index adjectives (i mod List.length adjectives) ++ " "
  ++ at_index nouns (i mod List.length nouns) ++ " "
  ++ Number_toString (floor_times r 10000).

Definition fallback_record (i : nat) : G Category :=
  r <- Math_random ;;
  ws <- draw_words (5 + i mod 16) ;;
  t <- new_Date ;;
  ret {| categoryName := JStr (catName i r);
         words := firstn 20 (Set_from [] ws);
         createdAt := t;
         ai := Some fallback_tag |}.

Definition fallbackGenerate (n : nat) : G (list Category) :=
  mapM fallback_record (seq 0 n).

Definition generateCategories (n : nat) : G (list Category) :=
  g <- provider_attempt Gemini n ;;
  match g with
  | Some batch => ret batch
  | None =>
      m <- provider_attempt Mistral n ;;
      match m with
      | Some batch => ret batch
      | None => fallbackGenerate n
      end
  end.

(** [if (count > 1000) { ... }]. *)
Definition prune_and_add : H unit :=
  idsToRemove <- aggregate_sample 100 ;;
  (match idsToRemove with
   | [] => ret tt
   | _ :: _ => deleteMany idsToRemove
   end) ;;;
  newCats <- lift (generateCategories 100) ;;
  insertMany_tolerant "Insert many (after prune) had errors: " newCats.

Definition add_fresh : H unit :=
  newCats <- lift (generateCategories 100) ;;
  insertMany_tolerant "Insert many had errors: " newCats.

(** [lastCreatedAt && (now - new Date(lastCreatedAt) < oneDayMs)]. *)
Definition fresh_enough (now : Z) (last : option Z) : bool :=
  match last with
  | Some t => (now - t <? oneDayMs)%Z
  | None => false
  end.

(** [count === 0 || !lastCreatedAt || (now - new Date(lastCreatedAt) >= oneDayMs)]. *)
Definition wants_more (count : nat) (now : Z) (last : option Z) : bool :=
  (count =? 0)%nat
  || match last with
     | None => true
     | Some t => (oneDayMs <=? now - t)%Z
     end.

Definition get_categories : L response :=
  fun o sv =>
    if negb (collection sv) then (Ok not_ready, sv)
    else
      on_app
        (try_catch
           (now <- lift new_Date ;;
            count <- countDocuments ;;
            latest <- find_recent 1 ;;
            (if (1000 <? count)%nat then prune_and_add else ret tt) ;;;
            (if fresh_enough now (lastCreatedAt latest) then ret tt
             else if wants_more count now (lastCreatedAt latest) then add_fresh
                  else ret tt) ;;;
            found <- find_recent 1000 ;;
            ret {| status := 200; payload := Docs found |})
           (fun err =>
              lift (console_put (Error ("GET /categories error: " ++ message err))) ;;;
              ret {| status := 500; payload := ErrorBody (message err) |}))
        o sv.

Definition isArray (v : option json) : bool :=
  match v with
  | Some (JArr _) => true
  | _ => false
  end.

Definition items_of (v : option json) : list json :=
  match v with
  | Some (JArr items) => items
  | _ => []
  end.

Definition refused (msg : string) : response :=
  {| status := 400; payload := ErrorBody msg |}.

Definition post_categories (req_body : option json) : L response :=
  fun o sv =>
    if negb (collection sv) then (Ok not_ready, sv)
    else
      let b := body_or_empty req_body in
      let categoryName := destructure b "categoryName" in
      let words := destructure b "words" in
      if negb (truthy categoryName) || negb (isArray words) then
        (Ok (refused "categoryName (string) and words (array) are required"), sv)
      else if (List.length (items_of words) <? 1)%nat
              || (20 <? List.length (items_of words))%nat then
        (Ok (refused "words must contain between 1 and 20 items"), sv)
      else if negb (forallb is_string (items_of words)) then
        (Ok (refused "all words must be strings"), sv)
      else
        on_app
          (try_catch
             (now <- lift new_Date ;;
              id <- insertOne {| categoryName := name_of categoryName;
                                 words := words_of words;
                                 createdAt := now;
                                 ai := None |} ;;
              ret {| status := 201; payload := InsertedId id |})
             (fun err =>
                if match code err with Some c => (c =? 11000)%Z | None => false end
                then ret {| status := 409;
                            payload := ErrorBody "categoryName already exists" |}
                else ret {| status := 500; payload := ErrorBody (message err) |}))
          o sv.

End Legacy.

(** The server at load, before [Legacy.init] has run. *)
Definition at_load : Legacy.Server :=
  {| Legacy.app := fresh_app; Legacy.collection := false |}.

(** The server once the handle is set. *)
Definition up (st : App) : Legacy.Server :=
  {| Legacy.app := st; Legacy.collection := true |}.

(** The suffix of a fallback name drawn at position [j] of the random
    source. *)
Definition suffix (o : Oracle) (j : nat) : Z :=
  floor_times (random_src o j mod two53) 10000.

(** The collection the function run at load leaves when it connects: as
    [initialised], but a collection it creates has no validator. *)
Definition initialised_bare (st : App) : Collection :=
  {| docs := docs (coll st);
     unique_categoryName :=
       unique_categoryName (coll st) || negb (has_clash (docs (coll st)));
     validator := validator (coll st);
     next_id := next_id (coll st) |}.

(** The message of the first test of the legacy [POST] that refuses. *)
Definition refusal (categoryName words : option json) : string :=
  if negb (truthy categoryName) || negb (Legacy.isArray words)
  then "categoryName (string) and words (array) are required"
  else if (List.length (Legacy.items_of words) <? 1)%nat
          || (20 <? List.length (Legacy.items_of words))%nat
  then "words must contain between 1 and 20 items"
  else "all words must be strings".

(** The validator file wants a text as [categoryName]. *)
Definition picky : Oracle :=
  {| random_src := fun _ => 0%Z;
     clock_src := fun k => (1700000000000 + Z.of_nat k)%Z;
     GEMINI_API_KEY := None;
     MISTRAL_API_KEY := None;
     gemini_src := fun _ => NoText;
     mistral_src := fun _ => NoText;
     sample_src := fun _ => 0;
     ATLAS_URI := Some "mongodb+srv://cluster0";
     connect_src := fun _ => None;
     word_class_json := fun c => match categoryName c with
                                 | JStr _ => true
                                 | _ => false
                                 end |}.

(* ================================================================== *)
(** * The earlier db/connect.js: one client, opened and closed *)
(* ================================================================== *)

Module Connect0.

(** [_client], [_connected], and the calls of [connect()] made so far. *)
Record Pool : Type := { _client : bool; _connected : bool; dials : nat }.

Definition NotConfigured : exn :=
  {| message := "ATLAS_URI not configured in environment"; code := None |}.

Definition getClient : M Pool unit :=
  fun o p =>
    if _connected p && _client p then (Ok tt, p)
    else if negb (_client p) && negb (key_set (ATLAS_URI o))
    then (Throw NotConfigured, p)
    else
      match connect_src o (dials p) with
      | Some e =>
          (Throw e,
           {| _client := true; _connected := _connected p; dials := S (dials p) |})
      | None =>
          (Ok tt, {| _client := true; _connected := true; dials := S (dials p) |})
      end.

Definition closeClient : M Pool unit :=
  fun _ p =>
    if _client p
    then (Ok tt, {| _client := false; _connected := false; dials := dials p |})
    else (Ok tt, p).

End Connect0.

Inductive pool_op : Type :=
| Open
| Close.

Definition pool_step (o : Oracle) (p : Connect0.Pool) (op : pool_op) : Connect0.Pool :=
  match op with
  | Open => snd (Connect0.getClient o p)
  | Close => snd (Connect0.closeClient o p)
  end.

Definition pool_run (o : Oracle) (ops : list pool_op) (p : Connect0.Pool)
  : Connect0.Pool :=
  fold_left (pool_step o) ops p.

(** The module right after load. *)
Definition unloaded : Connect0.Pool :=
  {| Connect0._client := false; Connect0._connected := false; Connect0.dials := 0 |}.

(** The pool of the earlier module and the process of the current one
    have connected alike. *)
Definition alike (o : Oracle) (p : Connect0.Pool) (st : App) : Prop :=
  Connect0._connected p = cachedClient st
  /\ Connect0.dials p = n_connect st
  /\ (Connect0._connected p = true -> Connect0._client p = true)
  /\ (Connect0._client p = true -> key_set (ATLAS_URI o) = true).

Definition returned {A} (r : result A) : bool :=
  match r with
  | Ok _ => true
  | Throw _ => false
  end.
(* ================================================================== *)
(** * Reasoning about computations *)
(* ================================================================== *)

Lemma total_ret {S A} (a : A) (Q : A -> Prop) : Q a -> total (S := S) (ret a) Q.
Proof. intros HQ o s. exists a, s. split; [reflexivity | exact HQ]. Qed.

Lemma total_bind {S A B} (m : M S A) (k : A -> M S B) (P : A -> Prop) (Q : B -> Prop) :
  total m P -> (forall a, P a -> total (k a) Q) -> total (bind m k) Q.
Proof.
  intros Hm Hk o s.
  destruct (Hm o s) as (a & s1 & E1 & Pa).
  destruct (Hk a Pa o s1) as (b & s2 & E2 & Qb).
  exists b, s2. unfold bind. rewrite E1. split; assumption.
Qed.

Lemma total_weaken {S A} (m : M S A) (P Q : A -> Prop) :
  total m P -> (forall a, P a -> Q a) -> total m Q.
Proof.
  intros Hm HPQ o s. destruct (Hm o s) as (a & s1 & E1 & Pa).
  exists a, s1. split; [assumption | auto].
Qed.

Lemma returns_ret {S A} (a : A) (Q : A -> Prop) : Q a -> returns (S := S) (ret a) Q.
Proof. intros HQ o s a' s' E. inversion E; subst. exact HQ. Qed.

Lemma returns_bind {S A B} (m : M S A) (k : A -> M S B) (P : A -> Prop) (Q : B -> Prop) :
  returns m P -> (forall a, P a -> returns (k a) Q) -> returns (bind m k) Q.
Proof.
  intros Hm Hk o s b s' E. unfold bind in E.
  destruct (m o s) as [[a | e] s1] eqn:E1; [| discriminate].
  eapply Hk; [eapply Hm; exact E1 | exact E].
Qed.

Lemma returns_throw {S A} (e : exn) (Q : A -> Prop) : returns (S := S) (throw e) Q.
Proof. intros o s a s' E. discriminate E. Qed.

Lemma returns_weaken {S A} (m : M S A) (P Q : A -> Prop) :
  returns m P -> (forall a, P a -> Q a) -> returns m Q.
Proof. intros Hm HPQ o s a s' E. apply HPQ. eapply Hm. exact E. Qed.

Lemma total_returns {S A} (m : M S A) (Q : A -> Prop) : total m Q -> returns m Q.
Proof.
  intros Hm o s a s' E. destruct (Hm o s) as (a' & s1 & E1 & Qa).
  rewrite E in E1. inversion E1; subst. exact Qa.
Qed.

(** A loop over a list pairs every input with its output. *)
Lemma total_mapM {S A B} (f : A -> M S B) (P : A -> B -> Prop) (l : list A) :
  (forall x, total (f x) (P x)) -> total (mapM f l) (Forall2 P l).
Proof.
  intros Hf. induction l as [| x rest IH]; simpl.
  - apply total_ret. constructor.
  - eapply total_bind; [apply Hf |]. intros y Py.
    eapply total_bind; [apply IH |]. intros ys Pys.
    apply total_ret. constructor; assumption.
Qed.

Lemma returns_mapM {S A B} (f : A -> M S B) (P : A -> B -> Prop) (l : list A) :
  (forall x, returns (f x) (P x)) -> returns (mapM f l) (Forall2 P l).
Proof.
  intros Hf. induction l as [| x rest IH]; simpl.
  - apply returns_ret. constructor.
  - eapply returns_bind; [apply Hf |]. intros y Py.
    eapply returns_bind; [apply IH |]. intros ys Pys.
    apply returns_ret. constructor; assumption.
Qed.

Lemma Forall2_length_eq {A B} (P : A -> B -> Prop) (l : list A) (l' : list B) :
  Forall2 P l l' -> List.length l' = List.length l.
Proof. induction 1; simpl; congruence. Qed.

Lemma Forall2_forall_r {A B} (P : A -> B -> Prop) (Q : B -> Prop) l l' :
  Forall2 P l l' -> (forall a b, P a b -> Q b) -> Forall Q l'.
Proof. induction 1; intros HPQ; constructor; eauto. Qed.

(* ================================================================== *)
(** * Small runs *)
(* ================================================================== *)

Example parseInt10_px : parseInt10 "  42px" = Some 42%Z.
Proof. reflexivity. Qed.

Example parseInt10_negative : parseInt10 "-5" = Some (-5)%Z.
Proof. reflexivity. Qed.

Example parseInt10_abc : parseInt10 "abc" = None.
Proof. reflexivity. Qed.

Example parseInt10_undefined : parseInt10 "undefined" = None.
Proof. reflexivity. Qed.

Example ToString_array :
  ToString (JArr [JNum 1; JNull; JArr [JStr "a"; JStr "b"]; JObj []])
  = Ok "1,,a,b,[object Object]".
Proof. reflexivity. Qed.

Example normalize_fields_number :
  normalize_fields (JNum 7) = Ok ("undefined", []).
Proof. reflexivity. Qed.

Example normalize_fields_words_string :
  exists e,
    normalize_fields (JObj [("categoryName", JStr "c"); ("words", JStr "a b")])
    = Throw e.
Proof. eexists. reflexivity. Qed.

Example Set_from_keeps_first :
  Set_from [] ["b"; "a"; "b"; "c"; "a"] = ["b"; "a"; "c"].
Proof. reflexivity. Qed.

(** The largest draw times 10000 rounds to a double just below 10000. *)
Example floor_times_largest : floor_times (two53 - 1) 10000 = 9999%Z.
Proof. vm_compute. reflexivity. Qed.

Example fallbackGenerate_two :
  fst (fallbackGenerate 2 offline boot)
  = Ok [{| categoryName := JStr "blue garden 0"; words := ["apple_0"];
           createdAt := 1700000000000; ai := Some "No-ai-fallback" |};
        {| categoryName := JStr "green river 0"; words := ["apple_0"];
           createdAt := 1700000000001; ai := Some "No-ai-fallback" |}].
Proof. vm_compute. reflexivity. Qed.

Example get_categories_first_call :
  match get_categories None offline fresh_app with
  | (Ok r, st) =>
      status r = 200 /\ List.length (docs (coll st)) = 100
      /\ map op_size (oplog st) = [0; 0; 100]
  | _ => False
  end.
Proof. vm_compute. repeat split. Qed.

(* ================================================================== *)
(** * The fallback generator *)
(* ================================================================== *)

Section SetFrom.

Lemma existsb_eqb_In (x : string) (l : list string) :
  existsb (String.eqb x) l = true <-> In x l.
Proof.
  rewrite existsb_exists. split.
  - intros (y & Hy & E). apply String.eqb_eq in E. subst. exact Hy.
  - intros Hx. exists x. split; [exact Hx | apply String.eqb_refl].
Qed.

Lemma Set_from_fresh (xs seen : list string) (x : string) :
  In x (Set_from seen xs) -> In x xs /\ ~ In x seen.
Proof.
  revert seen. induction xs as [| y rest IH]; intros seen Hx; simpl in Hx.
  - contradiction.
  - destruct (existsb (String.eqb y) seen) eqn:E.
    + destruct (IH _ Hx) as [H1 H2]. split; [right; exact H1 | exact H2].
    + destruct Hx as [-> | Hx].
      * split; [left; reflexivity |].
        intros Hin. apply existsb_eqb_In in Hin. congruence.
      * destruct (IH _ Hx) as [H1 H2]. split; [right; exact H1 |].
        intros Hin. apply H2. right. exact Hin.
Qed.

Lemma Set_from_NoDup (xs seen : list string) : NoDup (Set_from seen xs).
Proof.
  revert seen. induction xs as [| y rest IH]; intros seen; simpl.
  - constructor.
  - destruct (existsb (String.eqb y) seen); [apply IH |].
    constructor; [| apply IH].
    intros Hin. apply Set_from_fresh in Hin. destruct Hin as [_ Hn].
    apply Hn. left. reflexivity.
Qed.

Lemma Set_from_length (xs seen : list string) :
  List.length (Set_from seen xs) <= List.length xs.
Proof.
  revert seen. induction xs as [| y rest IH]; intros seen; simpl.
  - lia.
  - destruct (existsb (String.eqb y) seen); simpl.
    + specialize (IH seen). lia.
    + specialize (IH (y :: seen)). lia.
Qed.

Lemma Set_from_nonempty (xs : list string) :
  xs <> [] -> 1 <= List.length (Set_from [] xs).
Proof.
  destruct xs as [| y rest]; [congruence |]. intros _. simpl. lia.
Qed.

Lemma firstn_In {A} (k : nat) (l : list A) (x : A) :
  In x (firstn k l) -> In x l.
Proof.
  revert k. induction l as [| y rest IH]; intros [| k] Hx; simpl in *;
    try contradiction.
  destruct Hx as [-> | Hx]; [left; reflexivity | right; eauto].
Qed.

Lemma NoDup_firstn {A} (k : nat) (l : list A) : NoDup l -> NoDup (firstn k l).
Proof.
  intros Hl. revert k. induction Hl as [| x l Hx Hl IH]; intros [| k]; simpl;
    try constructor.
  - intros Hin. apply Hx. eapply firstn_In. exact Hin.
  - apply IH.
Qed.

End SetFrom.

Lemma Math_random_range :
  total Math_random (fun k => (0 <= k < two53)%Z).
Proof.
  intros o s. eexists _, _. split; [reflexivity |].
  apply Z.mod_pos_bound. reflexivity.
Qed.

(** Rounding moves a numerator by at most half a unit of its last kept
    place. *)
Lemma round_to_double_bounds (p : Z) :
  (0 <= p)%Z ->
  (0 <= round_to_double p)%Z
  /\ (round_to_double p * two53 <= p * two53 + p)%Z.
Proof.
  intros Hp. unfold round_to_double.
  destruct (Z.leb_spec (Z.log2 p + 1 - 53) 0) as [Hs | Hs].
  - split; [exact Hp |]. unfold two53. nia.
  - set (s := (Z.log2 p + 1 - 53)%Z) in *.
    assert (Hpos : (0 < p)%Z).
    { destruct (Z.eq_dec p 0) as [-> | Hne]; [| lia].
      unfold s in Hs. simpl in Hs. lia. }
    destruct (Z.log2_spec p Hpos) as [Hlo _].
    assert (HB : (2 ^ s = 2 * 2 ^ (s - 1))%Z).
    { replace s with (Z.succ (s - 1)) at 1 by lia. apply Z.pow_succ_r. lia. }
    assert (Hh : (0 < 2 ^ (s - 1))%Z) by (apply Z.pow_pos_nonneg; lia).
    assert (Hlog : (2 ^ Z.log2 p = 2 ^ (s - 1) * two53)%Z).
    { unfold two53. rewrite <- Z.pow_add_r by lia. f_equal. unfold s. lia. }
    pose proof (Z.div_mod p (2 ^ s) ltac:(lia)) as Hdm.
    pose proof (Z.mod_pos_bound p (2 ^ s) ltac:(lia)) as Hr.
    assert (Hq : (0 <= p / 2 ^ s)%Z) by (apply Z.div_pos; lia).
    set (q := (p / 2 ^ s)%Z) in *. set (r := (p mod 2 ^ s)%Z) in *.
    set (h := (2 ^ (s - 1))%Z) in *.
    assert (Htwo : (0 < two53)%Z) by reflexivity.
    destruct ((h <? r)%Z || ((r =? h)%Z && Z.odd q)) eqn:Hup.
    + assert (Hge : (h <= r)%Z).
      { apply orb_prop in Hup. destruct Hup as [Hup | Hup].
        - apply Z.ltb_lt in Hup. lia.
        - apply andb_prop in Hup. destruct Hup as [Hup _].
          apply Z.eqb_eq in Hup. lia. }
      split; [nia |].
      assert (Hle : ((q + 1) * 2 ^ s <= p + h)%Z) by nia.
      assert (Hhp : (h * two53 <= p)%Z) by lia.
      nia.
    + split; [nia |].
      assert (Hle : (q * 2 ^ s <= p)%Z) by nia.
      nia.
Qed.

(** The rounding of [Math.floor(r * m)] is that of the nearest double. *)
Lemma round_to_double_nearest (p : Z) : round_to_double p = nearest_double p.
Proof. reflexivity. Qed.

Lemma floor_times_range (k m : Z) :
  (0 <= k < two53)%Z -> (0 < m)%Z -> (0 <= floor_times k m < m)%Z.
Proof.
  intros Hk Hm. unfold floor_times.
  assert (Hp : (0 <= k * m)%Z) by nia.
  destruct (round_to_double_bounds (k * m) Hp) as [H0 H1].
  assert (Htwo : (0 < two53)%Z) by reflexivity.
  remember two53 as T eqn:ET. clear ET.
  split.
  - apply Z.div_pos; assumption.
  - apply Z.div_lt_upper_bound; [exact Htwo |].
    assert (Hkm : (k * m <= (T - 1) * m)%Z)
      by (apply Z.mul_le_mono_nonneg_r; lia).
    assert (Hmul : (k * m * (T + 1) <= (T - 1) * m * (T + 1))%Z)
      by (apply Z.mul_le_mono_nonneg_r; lia).
    replace ((T - 1) * m * (T + 1))%Z with (T * m * T - m)%Z in Hmul by ring.
    replace (k * m * (T + 1))%Z with (k * m * T + k * m)%Z in Hmul by ring.
    assert (Hr : (round_to_double (k * m) * T < T * m * T)%Z) by lia.
    apply Z.mul_lt_mono_pos_r with (p := T); [exact Htwo |]. exact Hr.
Qed.

Lemma new_Date_total : total new_Date (fun _ => True).
Proof. intros o s. eexists _, _. split; [reflexivity | exact I]. Qed.

Lemma draw_word_total : total draw_word (fun _ => True).
Proof.
  intros o s. unfold draw_word, bind, Math_random.
  destruct (lt_tenth _); eexists _, _; (split; [reflexivity | exact I]).
Qed.

Lemma draw_words_total (k : nat) :
  total (draw_words k) (fun ws => List.length ws = k).
Proof.
  induction k as [| k IH]; simpl.
  - apply total_ret. reflexivity.
  - eapply total_bind; [apply draw_word_total |]. intros w _.
    eapply total_bind; [apply IH |]. intros ws Hws.
    apply total_ret. simpl. congruence.
Qed.


Lemma fallback_record_shape (i : nat) :
  total (fallback_record i) (fallback_shape i).
Proof.
  unfold fallback_record.
  eapply total_bind; [apply Math_random_range |]. intros r Hr.
  eapply total_bind; [apply draw_words_total |]. intros ws Hws.
  eapply total_bind; [apply new_Date_total |]. intros t _.
  apply total_ret. unfold fallback_shape. cbn [categoryName words ai].
  cbv beta in Hr, Hws.
  assert (Hi : i mod 16 < 16) by (apply Nat.mod_upper_bound; lia).
  assert (Hset : List.length (Set_from [] ws) <= List.length ws)
    by apply Set_from_length.
  assert (Hne : 1 <= List.length (Set_from [] ws))
    by (apply Set_from_nonempty; destruct ws; [discriminate Hws | discriminate]).
  repeat split.
  - exists (floor_times r 10000). split; [| reflexivity].
    apply floor_times_range; [exact Hr | lia].
  - apply nth_In. change (List.length adjectives) with 13.
    apply Nat.mod_upper_bound. lia.
  - apply nth_In. change (List.length nouns) with 14.
    apply Nat.mod_upper_bound. lia.
  - rewrite length_firstn. lia.
  - rewrite length_firstn. lia.
  - lia.
  - apply NoDup_firstn, Set_from_NoDup.
Qed.

Lemma fallbackGenerate_shape (n : nat) :
  total (fallbackGenerate n) (Forall2 fallback_shape (seq 0 n)).
Proof. apply total_mapM. apply fallback_record_shape. Qed.

Lemma catName_nonempty (a b c : string) : (a ++ " " ++ b ++ " " ++ c)%string <> "".
Proof. destruct a; simpl; discriminate. Qed.

Lemma fallback_shape_well_formed (i : nat) (c : Category) :
  fallback_shape i c -> well_formed c.
Proof.
  intros ((k & _ & Hname) & _ & _ & Hlen & Hmax & _ & _).
  split; [| lia].
  eexists. split; [exact Hname | apply catName_nonempty].
Qed.

(** With no key set, both provider blocks are skipped. *)
Lemma generateCategories_no_keys (o : Oracle) (s : Sys) (n : nat) :
  key_set (GEMINI_API_KEY o) = false ->
  key_set (MISTRAL_API_KEY o) = false ->
  generateCategories n o s = fallbackGenerate n o s.
Proof.
  intros Hg Hm. unfold generateCategories, provider_attempt, bind, ask, api_key.
  rewrite Hg. unfold ret. rewrite Hm. reflexivity.
Qed.

(** C7 as stated fails: when every draw picks the same pool word, the
    five pushed words collapse to a single one. *)
Lemma fallback_words_below_five :
  exists c,
    fst (fallbackGenerate 1 offline boot) = Ok [c]
    /\ List.length (words c) = 1
    /\ ~ five_to_twenty c.
Proof.
  eexists. split; [vm_compute; reflexivity |].
  split; [reflexivity |].
  intros [[H _] _]. vm_compute in H. lia.
Qed.

(** C1 as stated fails: Gemini configured and answering [[]] makes
    [generateCategories(1)] return no record at all. *)
Lemma generateCategories_provider_batch_size :
  fst (generateCategories 1 (with_gemini (Text (Ok (JArr [])))) boot) = Ok []
  /\ ~ generates 1 (fst (generateCategories 1 (with_gemini (Text (Ok (JArr [])))) boot)).
Proof.
  split; [reflexivity |].
  intros (out & E & Hlen & _). vm_compute in E.
  inversion E; subst. discriminate Hlen.
Qed.

(* ================================================================== *)
(** * The [limit] query parameter *)
(* ================================================================== *)

Section ParseInt.

Lemma digits_prefix_acc (d : Decimal.uint) (acc : positive) :
  digits_prefix (NilEmpty.string_of_uint d) (Some (Z.pos acc))
  = Some (Z.pos (Pos.of_uint_acc d acc)).
Proof.
  revert acc. induction d; intros acc; cbn [NilEmpty.string_of_uint digits_prefix Pos.of_uint_acc];
    try reflexivity;
    (change (digit_value _) with (Some 0%Z)
     || change (digit_value _) with (Some 1%Z)
     || change (digit_value _) with (Some 2%Z)
     || change (digit_value _) with (Some 3%Z)
     || change (digit_value _) with (Some 4%Z)
     || change (digit_value _) with (Some 5%Z)
     || change (digit_value _) with (Some 6%Z)
     || change (digit_value _) with (Some 7%Z)
     || change (digit_value _) with (Some 8%Z)
     || change (digit_value _) with (Some 9%Z));
    cbv iota beta; rewrite <- IHd; do 2 f_equal; lia.
Qed.

Lemma digits_prefix_zero (d : Decimal.uint) :
  digits_prefix (NilEmpty.string_of_uint d) (Some 0%Z)
  = Some (Z.of_N (Pos.of_uint d)).
Proof.
  induction d; cbn [NilEmpty.string_of_uint digits_prefix Pos.of_uint];
    try reflexivity;
    try (change (digit_value _) with (Some 0%Z); cbv iota beta;
         change (10 * 0 + 0)%Z with 0%Z; exact IHd);
    (change (digit_value _) with (Some 1%Z)
     || change (digit_value _) with (Some 2%Z)
     || change (digit_value _) with (Some 3%Z)
     || change (digit_value _) with (Some 4%Z)
     || change (digit_value _) with (Some 5%Z)
     || change (digit_value _) with (Some 6%Z)
     || change (digit_value _) with (Some 7%Z)
     || change (digit_value _) with (Some 8%Z)
     || change (digit_value _) with (Some 9%Z));
    cbv iota beta; apply digits_prefix_acc.
Qed.

Lemma digits_prefix_first (c : ascii) (rest : string) (d0 : Z) :
  digit_value c = Some d0 ->
  digits_prefix (String c rest) None = digits_prefix (String c rest) (Some 0%Z).
Proof. intros Hc. cbn [digits_prefix]. rewrite Hc. reflexivity. Qed.

(** A text that starts with a digit: nothing is skipped, no sign is
    taken off. *)
(** White space starts with none of the digits and signs. *)
Lemma skip_white_digit (c : ascii) (rest : string) (d0 : Z) :
  digit_value c = Some d0 -> skip_white (String c rest) = String c rest.
Proof.
  intros Hc.
  destruct c as [[] [] [] [] [] [] [] []]; try discriminate Hc;
    destruct rest as [| c2 [| c3 r3]]; reflexivity.
Qed.

Lemma skip_white_minus (rest : string) :
  skip_white (String "-" rest) = String "-" rest.
Proof. destruct rest as [| c2 [| c3 r3]]; reflexivity. Qed.

Lemma parseInt10_digit_first (c : ascii) (rest : string) (d0 : Z) :
  digit_value c = Some d0 ->
  parseInt10 (String c rest) = digits_prefix (String c rest) (Some 0%Z).
Proof.
  intros Hc. unfold parseInt10.
  rewrite (skip_white_digit c rest d0 Hc).
  assert (Hs : match String c rest with
               | String "-" r => ((-1)%Z, r)
               | String "+" r => (1%Z, r)
               | _ => (1%Z, String c rest)
               end = (1%Z, String c rest)).
  { destruct c as [[] [] [] [] [] [] [] []]; try reflexivity; discriminate Hc. }
  rewrite Hs. rewrite (digits_prefix_first c rest d0 Hc).
  destruct (digits_prefix (String c rest) (Some 0%Z)) as [v |]; [| reflexivity].
  f_equal. lia.
Qed.

Lemma numeral_head (d : Decimal.uint) :
  d <> Decimal.Nil ->
  exists c rest d0,
    NilEmpty.string_of_uint d = String c rest /\ digit_value c = Some d0.
Proof.
  intros Hd. destruct d; try congruence; cbn [NilEmpty.string_of_uint];
    do 3 eexists; (split; reflexivity).
Qed.

Lemma parseInt10_numeral (d : Decimal.uint) :
  d <> Decimal.Nil ->
  parseInt10 (NilEmpty.string_of_uint d) = Some (Z.of_N (Pos.of_uint d)).
Proof.
  intros Hd. destruct (numeral_head d Hd) as (c & rest & d0 & E & Hc).
  rewrite <- digits_prefix_zero, E. eapply parseInt10_digit_first. exact Hc.
Qed.

Lemma parseInt10_minus_numeral (d : Decimal.uint) :
  d <> Decimal.Nil ->
  parseInt10 (String "-" (NilEmpty.string_of_uint d))
  = Some (- Z.of_N (Pos.of_uint d))%Z.
Proof.
  intros Hd. destruct (numeral_head d Hd) as (c & rest & d0 & E & Hc).
  unfold parseInt10. rewrite skip_white_minus.
  rewrite E, (digits_prefix_first c rest d0 Hc), <- E, digits_prefix_zero.
  f_equal; lia.
Qed.

(** Printing an integer and parsing it back gives the integer. *)
Lemma parseInt10_decimal (n : Z) :
  parseInt10 (decimal n) = Some n.
Proof.
  unfold decimal, Z.to_int, NilZero.string_of_int, NilZero.string_of_uint.
  destruct n as [| p | p].
  - reflexivity.
  - pose proof (Unsigned.to_uint_nonnil p) as Hp.
    pose proof (parseInt10_numeral _ Hp) as Hn.
    rewrite Unsigned.of_to in Hn.
    destruct (Pos.to_uint p); try congruence; exact Hn.
  - pose proof (Unsigned.to_uint_nonnil p) as Hp.
    pose proof (parseInt10_minus_numeral _ Hp) as Hn.
    rewrite Unsigned.of_to in Hn.
    destruct (Pos.to_uint p); try congruence; exact Hn.
Qed.

End ParseInt.

(** C2, as amended: a [limit] that reads as an integer in [1, 1000] is
    used as it is; any other integer, a text without leading number and a
    missing parameter all give 100.  So [limit=50000] is served with 100
    (not 1000) and [limit=abc] with 100. *)
Theorem parse_limit_in_range_or_default :
  (forall n : Z,
      parse_limit (Some (decimal n))
      = if ((1 <=? n) && (n <=? 1000))%Z then n else 100%Z)
  /\ (forall q,
         parse_limit q
         = match parseInt10 (match q with Some s => s | None => "undefined" end) with
           | Some v => if ((1 <=? v) && (v <=? 1000))%Z then v else 100%Z
           | None => 100%Z
           end)
  /\ (forall q, (1 <= parse_limit q <= 1000)%Z)
  /\ parse_limit (Some "50000") = 100%Z
  /\ parse_limit (Some "abc") = 100%Z
  /\ parse_limit None = 100%Z.
Proof.
  assert (Hgen : forall q,
             parse_limit q
             = match parseInt10 (match q with Some s => s | None => "undefined" end) with
               | Some v => if ((1 <=? v) && (v <=? 1000))%Z then v else 100%Z
               | None => 100%Z
               end).
  { intros q. unfold parse_limit.
    destruct (parseInt10 _) as [v |]; [| reflexivity].
    destruct (Z.ltb_spec v 1), (Z.ltb_spec 1000 v), (Z.leb_spec 1 v), (Z.leb_spec v 1000);
      simpl; try reflexivity; lia. }
  split; [| split; [exact Hgen | split; [| repeat split]]].
  - intros n. rewrite Hgen, parseInt10_decimal. reflexivity.
  - intros q. rewrite Hgen. destruct (parseInt10 _) as [v |]; [| lia].
    destruct (Z.leb_spec 1 v), (Z.leb_spec v 1000); simpl; lia.
Qed.

(** C2 as stated fails: 50000 is not clamped to 1000 but replaced by the
    default. *)
Lemma limit_50000_not_clamped :
  parse_limit (Some "50000") = 100%Z
  /\ clamp_limit (Some "50000") = 1000%Z
  /\ parse_limit (Some "50000") <> clamp_limit (Some "50000").
Proof. repeat split. vm_compute. discriminate. Qed.

(* ================================================================== *)
(** * The provider chain *)
(* ================================================================== *)

Lemma total_try_catch {S A} (m : M S A) (h : exn -> M S A) (Q : A -> Prop) :
  returns m Q -> (forall e, total (h e) Q) -> total (try_catch m h) Q.
Proof.
  intros Hm Hh o s. unfold try_catch.
  destruct (m o s) as [[a | e] s1] eqn:E.
  - exists a, s1. split; [reflexivity | eapply Hm; exact E].
  - apply Hh.
Qed.

Lemma mapR_length {A B} (f : A -> result B) (l : list A) (l' : list B) :
  mapR f l = Ok l' -> List.length l' = List.length l.
Proof.
  revert l'. induction l as [| x rest IH]; intros l' E; simpl in E.
  - inversion E. reflexivity.
  - destruct (f x) as [y | e]; simpl in E; [| discriminate].
    destruct (mapR f rest) as [ys | e]; simpl in E; [| discriminate].
    inversion E; subst. simpl. f_equal. apply IH. reflexivity.
Qed.

Lemma normalize_words_length (w : option json) (ws : list string) :
  normalize_words w = Ok ws -> List.length ws <= 20.
Proof.
  unfold normalize_words. destruct (truthy w).
  - destruct w as [[| | | | | items |] |]; try discriminate.
    intros E. apply mapR_length in E. rewrite E. apply firstn_le_length.
  - intros E. inversion E. simpl. lia.
Qed.

Lemma normalize_fields_length (x : json) (name : string) (ws : list string) :
  normalize_fields x = Ok (name, ws) -> List.length ws <= 20.
Proof.
  unfold normalize_fields.
  destruct (bindR (get_member x "categoryName") String_) as [nm | e]; simpl;
    [| discriminate].
  destruct (get_member x "words") as [w | e]; simpl; [| discriminate].
  destruct (normalize_words w) as [ws' | e] eqn:E; simpl; [| discriminate].
  intros H. inversion H; subst. eapply normalize_words_length. exact E.
Qed.


Lemma normalize_ok (tag : string) (x : json) (nw : string * list string) o s :
  normalize_fields x = Ok nw ->
  normalize tag x o s
  = (Ok {| categoryName := JStr (fst nw); words := snd nw;
           createdAt := clock_src o (n_clock s); ai := Some tag |}, tick s).
Proof. intros E. unfold normalize, bind, liftR. rewrite E. reflexivity. Qed.

Lemma normalize_throw (tag : string) (x : json) (e : exn) o s :
  normalize_fields x = Throw e -> normalize tag x o s = (Throw e, s).
Proof. intros E. unfold normalize, bind, liftR. rewrite E. reflexivity. Qed.


Lemma mapM_normalize_error (tag : string) (items : list json) (e : exn) :
  first_error items = Some e ->
  forall o s, exists s',
    mapM (normalize tag) items o s = (Throw e, s') /\ console s' = console s.
Proof.
  induction items as [| x rest IH]; intros E o s; simpl in E; [discriminate |].
  cbn [mapM]. unfold bind at 1.
  destruct (normalize_fields x) as [nw | e'] eqn:Ex.
  - rewrite (normalize_ok tag x nw o s Ex).
    destruct (IH E o (tick s)) as (s' & E' & Hc).
    exists s'. unfold bind at 1. rewrite E'. split; [reflexivity | exact Hc].
  - inversion E; subst. rewrite (normalize_throw tag x e o s Ex).
    exists s. split; reflexivity.
Qed.

Lemma mapM_normalize_ok (tag : string) (items : list json) :
  first_error items = None ->
  forall o s, exists batch s',
    mapM (normalize tag) items o s = (Ok batch, s')
    /\ List.length batch = List.length items
    /\ console s' = console s
    /\ n_gemini s' = n_gemini s /\ n_mistral s' = n_mistral s.
Proof.
  induction items as [| x rest IH]; intros E o s; simpl in E.
  - exists [], s. repeat split.
  - cbn [mapM]. unfold bind at 1.
    destruct (normalize_fields x) as [nw | e'] eqn:Ex; [| discriminate].
    rewrite (normalize_ok tag x nw o s Ex).
    destruct (IH E o (tick s)) as (batch & s' & E' & Hl & Hc & Hg & Hm).
    eexists _, s'. unfold bind at 1. rewrite E'. unfold ret.
    split; [reflexivity |]. simpl in *. repeat split; congruence.
Qed.

Lemma normalize_shape (tag : string) (x : json) :
  returns (normalize tag x) (provider_shape tag).
Proof.
  intros o s c s' E.
  destruct (normalize_fields x) as [[name ws] | e] eqn:Ex.
  - rewrite (normalize_ok tag x _ o s Ex) in E. inversion E; subst.
    split; [eexists; reflexivity |]. split; [| reflexivity].
    simpl. eapply normalize_fields_length. exact Ex.
  - rewrite (normalize_throw tag x e o s Ex) in E. discriminate.
Qed.

Lemma provider_attempt_skipped (p : provider) (n : nat) o s :
  key_set (api_key p o) = false -> provider_attempt p n o s = (Ok None, s).
Proof.
  intros Hk. unfold provider_attempt, bind, ask. rewrite Hk. reflexivity.
Qed.

Lemma provider_attempt_no_text (p : provider) (n : nat) o s :
  key_set (api_key p o) = true ->
  reply_of p o s = NoText ->
  provider_attempt p n o s = (Ok None, asked p s).
Proof.
  intros Hk Hr. unfold provider_attempt, bind, ask, try_catch, request.
  rewrite Hk, Hr. reflexivity.
Qed.

Lemma asked_console (p : provider) (s : Sys) : console (asked p s) = console s.
Proof. destruct p; reflexivity. Qed.

Lemma provider_attempt_failure (p : provider) (n : nat) (e : exn) o s :
  key_set (api_key p o) = true ->
  failure_of (reply_of p o s) = Some e ->
  exists s',
    provider_attempt p n o s = (Ok None, s')
    /\ console s' = (console s ++ [Warn (failed_label p ++ message e)])%list.
Proof.
  intros Hk Hf. unfold provider_attempt, bind, ask, try_catch, request.
  rewrite Hk. unfold failure_of in Hf.
  destruct (reply_of p o s) as [e' | | [j | e']]; try discriminate.
  - inversion Hf; subst. eexists. split; [reflexivity |].
    simpl. rewrite asked_console. reflexivity.
  - unfold liftR, parsed_map.
    destruct j as [| b | z | fr | str | items | fs];
      try (inversion Hf; subst; eexists; split; [reflexivity |];
           simpl; rewrite asked_console; reflexivity).
    destruct (mapM_normalize_error (provider_tag p) items e Hf o (asked p s))
      as (s1 & E1 & Hc).
    rewrite E1. eexists. split; [reflexivity |].
    simpl. rewrite Hc, asked_console. reflexivity.
  - inversion Hf; subst. eexists. split; [reflexivity |].
    simpl. rewrite asked_console. reflexivity.
Qed.

Lemma provider_attempt_batch (p : provider) (n : nat) (items : list json) o s :
  key_set (api_key p o) = true ->
  reply_of p o s = Text (Ok (JArr items)) ->
  first_error items = None ->
  exists batch s',
    provider_attempt p n o s = (Ok (Some batch), s')
    /\ List.length batch = List.length items
    /\ console s' = console s.
Proof.
  intros Hk Hr Hf. unfold provider_attempt, bind, ask, try_catch, request.
  rewrite Hk, Hr. unfold liftR, parsed_map.
  destruct (mapM_normalize_ok (provider_tag p) items Hf o (asked p s))
    as (batch & s1 & E1 & Hl & Hc & _).
  rewrite E1. exists batch, s1. split; [reflexivity |].
  split; [exact Hl |]. rewrite Hc. apply asked_console.
Qed.

Lemma provider_attempt_total (p : provider) (n : nat) :
  total (provider_attempt p n)
    (fun r => match r with
              | Some batch => Forall (provider_shape (provider_tag p)) batch
              | None => True
              end).
Proof.
  unfold provider_attempt.
  eapply total_bind with (P := fun _ => True).
  { intros o s. exists o, s. split; [reflexivity | exact I]. }
  intros o _. destruct (key_set (api_key p o)); [| apply total_ret; exact I].
  apply total_try_catch.
  - eapply returns_bind with (P := fun _ => True).
    { intros ? ? ? ? _. exact I. }
    intros [parse |] _; [| apply returns_ret; exact I].
    eapply returns_bind with (P := fun _ => True).
    { intros ? ? ? ? _. exact I. }
    intros parsed _.
    eapply returns_bind with (P := Forall (provider_shape (provider_tag p))).
    + unfold parsed_map. destruct parsed; try apply returns_throw.
      eapply returns_weaken.
      * apply returns_mapM with (P := fun _ c => provider_shape (provider_tag p) c).
        intros x. apply normalize_shape.
      * intros batch Hb. eapply Forall2_forall_r; [exact Hb |]. auto.
    + intros batch Hb. apply returns_ret. exact Hb.
  - intros e. eapply total_bind with (P := fun _ => True).
    + intros o' s. eexists _, _. split; [reflexivity | exact I].
    + intros _ _. apply total_ret. exact I.
Qed.

Lemma provider_shape_generated (p : provider) (c : Category) :
  provider_shape (provider_tag p) c -> generated_shape c.
Proof.
  intros (Hn & Hl & Ht). split; [exact Hn |]. split; [exact Hl |].
  destruct p; [left | right; left]; exact Ht.
Qed.

Lemma fallback_shape_generated (i : nat) (c : Category) :
  fallback_shape i c -> generated_shape c.
Proof.
  intros ((k & _ & Hname) & _ & _ & Hlen & Hmax & _ & Ht).
  split; [eexists; exact Hname |]. split; [lia |]. right; right. exact Ht.
Qed.

(** [generateCategories] never throws, and every record it returns has
    a string for a name, at most twenty words and a source tag. *)
Lemma generateCategories_total (n : nat) :
  total (generateCategories n) (Forall generated_shape).
Proof.
  unfold generateCategories.
  eapply total_bind; [apply (provider_attempt_total Gemini) |].
  intros [batch |] Hb.
  { apply total_ret. eapply Forall_impl; [| exact Hb].
    intros c. apply (provider_shape_generated Gemini). }
  eapply total_bind; [apply (provider_attempt_total Mistral) |].
  intros [batch |] Hb'.
  { apply total_ret. eapply Forall_impl; [| exact Hb'].
    intros c. apply (provider_shape_generated Mistral). }
  eapply total_weaken; [apply fallbackGenerate_shape |].
  intros out Hout. eapply Forall2_forall_r; [exact Hout |].
  intros i c. apply fallback_shape_generated.
Qed.

Lemma mapM_normalize_frame (tag : string) (items : list json) o s r s' :
  mapM (normalize tag) items o s = (r, s') ->
  n_random s' = n_random s
  /\ n_gemini s' = n_gemini s
  /\ n_mistral s' = n_mistral s.
Proof.
  revert s r s'. induction items as [| x rest IH]; intros s r s' E.
  - inversion E; subst. repeat split.
  - cbn [mapM] in E. unfold bind at 1 in E.
    destruct (normalize_fields x) as [nw | e] eqn:Ex.
    + rewrite (normalize_ok tag x nw o s Ex) in E. unfold bind at 1 in E.
      destruct (mapM (normalize tag) rest o (tick s)) as [[ys | e] s1] eqn:E1;
        inversion E; subst; apply (IH _ _ _ E1).
    + rewrite (normalize_throw tag x e o s Ex) in E. inversion E; subst.
      repeat split.
Qed.

(** A provider block draws no random number and leaves the other
    provider alone. *)
Lemma provider_attempt_frame (p q : provider) (n : nat) o s r s' :
  provider_attempt p n o s = (r, s') ->
  n_random s' = n_random s /\ (q <> p -> reply_of q o s' = reply_of q o s).
Proof.
  unfold provider_attempt, bind, ask, try_catch, request.
  destruct (key_set (api_key p o)); [| intros E; inversion E; subst; auto].
  assert (Hasked : n_random (asked p s) = n_random s
                   /\ (q <> p -> reply_of q o (asked p s) = reply_of q o s)).
  { destruct p, q; split; try reflexivity; intros Hne; congruence. }
  destruct Hasked as [Hr Hq].
  assert (Hdone : forall (s1 : Sys) (l : list log_line),
             n_random s1 = n_random (asked p s) ->
             n_gemini s1 = n_gemini (asked p s) ->
             n_mistral s1 = n_mistral (asked p s) ->
             let s2 := {| n_random := n_random s1; n_clock := n_clock s1;
                          n_gemini := n_gemini s1; n_mistral := n_mistral s1;
                          console := l |} in
             n_random s2 = n_random s
             /\ (q <> p -> reply_of q o s2 = reply_of q o s)).
  { intros s1 l H1 H2 H3. cbn zeta. split; [cbn [n_random]; congruence |].
    intros Hne. rewrite <- (Hq Hne).
    destruct q; cbn [reply_of n_gemini n_mistral]; congruence. }
  assert (Hsame : forall s1 : Sys,
             n_random s1 = n_random (asked p s) ->
             n_gemini s1 = n_gemini (asked p s) ->
             n_mistral s1 = n_mistral (asked p s) ->
             n_random s1 = n_random s
             /\ (q <> p -> reply_of q o s1 = reply_of q o s)).
  { intros s1 H1 H2 H3. split; [congruence |].
    intros Hne. rewrite <- (Hq Hne).
    destruct q; cbn [reply_of]; congruence. }
  destruct (reply_of p o s) as [e | | [j | e]].
  - unfold console_put, ret. intros E. inversion E; subst.
    apply Hdone; reflexivity.
  - unfold ret. intros E. inversion E; subst. auto.
  - unfold liftR, parsed_map.
    destruct j as [| b | z | fr | str | items | fs];
      try (unfold throw, console_put, ret; intros E; inversion E; subst;
           apply Hdone; reflexivity).
    destruct (mapM (normalize (provider_tag p)) items o (asked p s))
      as [[batch | e] s1] eqn:E1;
      destruct (mapM_normalize_frame _ _ _ _ _ _ E1) as (Hf1 & Hf2 & Hf3);
      unfold console_put, ret; intros E; inversion E; subst.
    + apply Hsame; assumption.
    + apply Hdone; assumption.
  - unfold liftR, console_put, ret. intros E. inversion E; subst.
    apply Hdone; reflexivity.
Qed.

Lemma provider_attempt_nothing (p : provider) (n : nat) o s :
  yields_nothing p o s ->
  exists s', provider_attempt p n o s = (Ok None, s').
Proof.
  intros [Hk | Hrest].
  - exists s. apply provider_attempt_skipped. exact Hk.
  - destruct (key_set (api_key p o)) eqn:Hk;
      [| exists s; apply provider_attempt_skipped; exact Hk].
    destruct Hrest as [Hr | (e & He)].
    + eexists. apply provider_attempt_no_text; assumption.
    + destruct (provider_attempt_failure p n e o s Hk He) as (s' & E & _). eauto.
Qed.

(** C1, as amended: for every [n], whenever no provider block returns
    a batch (for each provider the key is not set, or the reply has no
    text, or the block raises an exception), [generateCategories(n)]
    returns exactly [n] records, each with a non-empty name and between 1
    and 20 words; they are the records of the local fallback generator,
    run with the random source where the call found it. *)
Theorem generateCategories_without_providers (o : Oracle) (s : Sys) (n : nat) :
  yields_nothing Gemini o s ->
  yields_nothing Mistral o s ->
  generates n (fst (generateCategories n o s))
  /\ exists s0 out s',
      generateCategories n o s = (Ok out, s')
      /\ fallbackGenerate n o s0 = (Ok out, s')
      /\ n_random s0 = n_random s
      /\ Forall2 fallback_shape (seq 0 n) out.
Proof.
  intros Hg Hm.
  destruct (provider_attempt_nothing Gemini n o s Hg) as (s1 & E1).
  destruct (provider_attempt_frame Gemini Mistral n o s _ _ E1) as [Hr1 Hq1].
  assert (Hm1 : yields_nothing Mistral o s1).
  { unfold yields_nothing. rewrite (Hq1 ltac:(discriminate)). exact Hm. }
  destruct (provider_attempt_nothing Mistral n o s1 Hm1) as (s2 & E2).
  destruct (provider_attempt_frame Mistral Gemini n o s1 _ _ E2) as [Hr2 _].
  assert (E : generateCategories n o s = fallbackGenerate n o s2).
  { unfold generateCategories, bind. rewrite E1, E2. reflexivity. }
  destruct (fallbackGenerate_shape n o s2) as (out & s' & Ef & Hout).
  assert (Hgen : generates n (Ok out)).
  { exists out. split; [reflexivity |]. split.
    - rewrite (Forall2_length_eq _ _ _ Hout). apply length_seq.
    - eapply Forall2_forall_r; [exact Hout |].
      intros i c. apply fallback_shape_well_formed. }
  rewrite E, Ef. split; [exact Hgen |].
  exists s2, out, s'. split; [reflexivity |]. split; [exact Ef |].
  split; [congruence | exact Hout].
Qed.

Lemma generateCategories_without_providers_witness :
  generates 3 (fst (generateCategories 3 (with_gemini (Text (Ok (JObj [])))) boot))
  /\ exists s0 out s',
      generateCategories 3 (with_gemini (Text (Ok (JObj [])))) boot = (Ok out, s')
      /\ fallbackGenerate 3 (with_gemini (Text (Ok (JObj [])))) s0 = (Ok out, s')
      /\ n_random s0 = n_random boot
      /\ Forall2 fallback_shape (seq 0 3) out.
Proof.
  apply (generateCategories_without_providers
           (with_gemini (Text (Ok (JObj [])))) boot 3).
  - right. right. eexists. reflexivity.
  - right. left. reflexivity.
Defined.

Lemma generateCategories_is_chain (n : nat) :
  generateCategories n = chain [Gemini; Mistral] n.
Proof. reflexivity. Qed.

Lemma chain_total (ps : list provider) (n : nat) :
  total (chain ps n) (fun _ => True).
Proof.
  induction ps as [| p rest IH]; cbn [chain].
  - eapply total_weaken; [apply fallbackGenerate_shape | auto].
  - eapply total_bind; [apply provider_attempt_total |].
    intros [batch |] _; [apply total_ret; exact I | exact IH].
Qed.

(** C6, as amended: [generateCategories] never throws.  When the block
    of a configured provider raises an exception (the call is rejected,
    the text does not parse, the parsed value is not an array or holds an
    item that cannot be normalised) the exception is logged with
    [console.warn] and the chain goes on with the next block, the fallback
    generator being the last.  A reply without text goes on to the next
    block without a log line, and a reply that parses to an array of items
    that normalise, even an empty one, is returned as the batch. *)
Theorem provider_failure_logged_and_skipped
  (p : provider) (ps : list provider) (n : nat) (o : Oracle) (s : Sys) :
  key_set (api_key p o) = true ->
  match failure_of (reply_of p o s) with
  | Some e =>
      exists s',
        provider_attempt p n o s = (Ok None, s')
        /\ console s' = (console s ++ [Warn (failed_label p ++ message e)])%list
        /\ chain (p :: ps) n o s = chain ps n o s'
  | None =>
      match reply_of p o s with
      | Text (Ok (JArr items)) =>
          exists batch s',
            provider_attempt p n o s = (Ok (Some batch), s')
            /\ List.length batch = List.length items
            /\ console s' = console s
            /\ chain (p :: ps) n o s = (Ok batch, s')
      | _ =>
          provider_attempt p n o s = (Ok None, asked p s)
          /\ console (asked p s) = console s
          /\ chain (p :: ps) n o s = chain ps n o (asked p s)
      end
  end
  /\ (exists out s'', chain (p :: ps) n o s = (Ok out, s''))
  /\ generateCategories n = chain [Gemini; Mistral] n
  /\ (exists out s'', generateCategories n o s = (Ok out, s'')).
Proof.
  intros Hk. split; [| split; [| split]].
  - destruct (failure_of (reply_of p o s)) as [e |] eqn:Hf.
    + destruct (provider_attempt_failure p n e o s Hk Hf) as (s' & E & Hc).
      exists s'. split; [exact E |]. split; [exact Hc |].
      cbn [chain]. unfold bind. rewrite E. reflexivity.
    + destruct (reply_of p o s) as [e | | [j | e]] eqn:Hr; try discriminate Hf.
      * rewrite (provider_attempt_no_text p n o s Hk Hr).
        split; [reflexivity |]. split; [apply asked_console |].
        cbn [chain]. unfold bind.
        rewrite (provider_attempt_no_text p n o s Hk Hr). reflexivity.
      * destruct j as [| b | z | fr | str | items | fs]; try discriminate Hf.
        cbn [failure_of] in Hf.
        destruct (provider_attempt_batch p n items o s Hk Hr Hf)
          as (batch & s' & E & Hl & Hc).
        exists batch, s'. split; [exact E |]. split; [exact Hl |].
        split; [exact Hc |].
        cbn [chain]. unfold bind. rewrite E. reflexivity.
  - destruct (chain_total (p :: ps) n o s) as (out & s2 & E2 & _). eauto.
  - reflexivity.
  - destruct (generateCategories_total n o s) as (out & s2 & E2 & _). eauto.
Qed.

Lemma provider_failure_logged_and_skipped_witness :
  key_set (api_key Gemini (with_gemini (Text (Ok (JObj []))))) = true
  /\ (exists s',
         provider_attempt Gemini 2 (with_gemini (Text (Ok (JObj [])))) boot = (Ok None, s')
         /\ console s'
            = [Warn "Gemini generation failed: parsed.map is not a function"]
         /\ chain [Gemini; Mistral] 2 (with_gemini (Text (Ok (JObj [])))) boot
            = chain [Mistral] 2 (with_gemini (Text (Ok (JObj [])))) s').
Proof.
  split; [reflexivity |].
  exact (proj1 (provider_failure_logged_and_skipped Gemini [Mistral] 2
                  (with_gemini (Text (Ok (JObj [])))) boot eq_refl)).
Defined.

(** C6 as stated fails on an empty result: Gemini answering [[]] is not
    logged and ends the chain (Mistral, though configured, is never asked);
    and a reply without text goes on to the next block without a log line. *)
Lemma empty_result_ends_chain :
  fst (generateCategories 1 (with_gemini (Text (Ok (JArr [])))) boot) = Ok []
  /\ console (snd (generateCategories 1 (with_gemini (Text (Ok (JArr [])))) boot)) = []
  /\ n_mistral (snd (generateCategories 1 (with_gemini (Text (Ok (JArr [])))) boot)) = 0
  /\ console (snd (provider_attempt Gemini 1 (with_gemini NoText) boot)) = [].
Proof. repeat split. Qed.

(* ================================================================== *)
(** * The store *)
(* ================================================================== *)

Lemma remove_at_length {A} (i : nat) (l : list A) :
  i < List.length l -> List.length (remove_at i l) = List.length l - 1.
Proof.
  revert i. induction l as [| x rest IH]; intros i Hi; simpl in *; [lia |].
  destruct i as [| j]; simpl; [lia |].
  rewrite IH by lia. lia.
Qed.

Lemma take_sample_length (pick : nat -> nat) (size from : nat) (pool : list Doc) :
  List.length (take_sample pick from size pool) = Nat.min size (List.length pool).
Proof.
  revert from pool. induction size as [| size IH]; intros from pool; simpl.
  - reflexivity.
  - destruct pool as [| d rest] eqn:Ep.
    + rewrite nth_error_nil. reflexivity.
    + rewrite <- Ep.
      assert (Hlen : 0 < List.length pool) by (rewrite Ep; simpl; lia).
      assert (Hi : pick from mod List.length pool < List.length pool)
        by (apply Nat.mod_upper_bound; lia).
      destruct (nth_error pool (pick from mod List.length pool)) as [x |] eqn:En.
      * simpl. rewrite IH, remove_at_length by exact Hi.
        rewrite Ep in *. simpl in *. lia.
      * apply nth_error_None in En. lia.
Qed.

Lemma insert_unordered_docs (batch : list Category) (c : Collection) :
  exists added,
    docs (fst (insert_unordered c batch)) = (docs c ++ added)%list
    /\ List.length added <= List.length batch
    /\ Forall (fun d => In (fields d) batch) added
    /\ unique_categoryName (fst (insert_unordered c batch)) = unique_categoryName c
    /\ validator (fst (insert_unordered c batch)) = validator c.
Proof.
  revert c. induction batch as [| x rest IH]; intros c; simpl.
  - exists []. rewrite app_nil_r. repeat split; auto.
  - destruct (write_error c x) as [e |].
    + destruct (IH c) as (added & Hd & Hl & Hf & Hu & Hv).
      destruct (insert_unordered c rest) as [c' e']. simpl in *.
      exists added. repeat split; auto.
      eapply Forall_impl; [| exact Hf]. intros d Hin. right. exact Hin.
    + destruct (IH (store c x)) as (added & Hd & Hl & Hf & Hu & Hv).
      destruct (insert_unordered (store c x) rest) as [c' e']. simpl in *.
      exists ({| _id := next_id c; fields := x |} :: added).
      rewrite Hd, <- app_assoc. simpl. repeat split; auto; try lia.
      constructor; [left; reflexivity |].
      eapply Forall_impl; [| exact Hf]. intros d Hin. right. exact Hin.
Qed.

(** A generation step inside a handler touches nothing but [sys]. *)
Lemma lift_total {A} (g : G A) (Q : A -> Prop) :
  total g Q ->
  forall o st, exists a s', lift g o st = (Ok a, with_sys st s') /\ Q a.
Proof.
  intros Hg o st. destruct (Hg o (sys st)) as (a & s' & E & Qa).
  exists a, s'. unfold lift. rewrite E. split; [reflexivity | exact Qa].
Qed.

Lemma coll_with_sys (st : App) (s : Sys) : coll (with_sys st s) = coll st.
Proof. reflexivity. Qed.

Lemma insertMany_tolerant_spec (label : string) (batch : list Category) o st :
  exists st' added,
    insertMany_tolerant label batch o st = (Ok tt, st')
    /\ oplog st' = (oplog st ++ sent batch)%list
    /\ docs (coll st') = (docs (coll st) ++ added)%list
    /\ List.length added <= List.length batch
    /\ Forall (fun d => In (fields d) batch) added
    /\ unique_categoryName (coll st') = unique_categoryName (coll st)
    /\ collectionPromise st' = collectionPromise st
    /\ n_clock (sys st') = n_clock (sys st).
Proof.
  unfold insertMany_tolerant, try_catch, insertMany.
  destruct batch as [| x rest].
  - eexists _, []. split; [reflexivity |]. simpl.
    rewrite !app_nil_r. repeat split; auto.
  - destruct (insert_unordered_docs (x :: rest) (coll st))
      as (added & Hd & Hl & Hf & Hu & Hv).
    destruct (insert_unordered (coll st) (x :: rest)) as [c' err].
    simpl fst in *.
    destruct err as [e |]; eexists _, added; (split; [reflexivity |]);
      simpl; repeat split; auto.
Qed.

(* ================================================================== *)
(** * The refresh step of [GET /categories] *)
(* ================================================================== *)

Lemma generate_step (o : Oracle) (st : App) :
  exists b s',
    lift (generateCategories 100) o st = (Ok b, with_sys st s')
    /\ Forall generated_shape b
    /\ (if no_keys o then List.length b = 100 else True).
Proof.
  destruct (lift_total _ _ (generateCategories_total 100) o st)
    as (b & s' & E & Hb).
  exists b, s'. split; [exact E |]. split; [exact Hb |].
  unfold no_keys.
  destruct (key_set (GEMINI_API_KEY o)) eqn:Hg; simpl; [exact I |].
  destruct (key_set (MISTRAL_API_KEY o)) eqn:Hm; simpl; [exact I |].
  unfold lift in E. rewrite (generateCategories_no_keys o (sys st) 100 Hg Hm) in E.
  destruct (fallbackGenerate_shape 100 o (sys st)) as (out & s2 & E2 & Hsh).
  rewrite E2 in E. inversion E; subst.
  apply Forall2_length in Hsh. rewrite length_seq in Hsh. symmetry. exact Hsh.
Qed.

Lemma added_shape (b : list Category) (added : list Doc) :
  Forall generated_shape b ->
  Forall (fun d => In (fields d) b) added ->
  Forall (fun d => generated_shape (fields d)) added.
Proof.
  intros Hb Ha. rewrite Forall_forall in Hb.
  eapply Forall_impl; [| exact Ha]. intros d Hin. apply Hb. exact Hin.
Qed.

Lemma add_fresh_spec (o : Oracle) (st : App) :
  exists st' b added,
    add_fresh o st = (Ok tt, st')
    /\ oplog st' = (oplog st ++ sent b)%list
    /\ docs (coll st') = (docs (coll st) ++ added)%list
    /\ List.length added <= List.length b
    /\ Forall (fun d => generated_shape (fields d)) added
    /\ (if no_keys o then List.length b = 100 else True)
    /\ unique_categoryName (coll st') = unique_categoryName (coll st)
    /\ collectionPromise st' = collectionPromise st.
Proof.
  destruct (generate_step o st) as (b & s' & E & Hb & Hn).
  destruct (insertMany_tolerant_spec "Insert errors: " b o (with_sys st s'))
    as (st' & added & E' & Hop & Hd & Hl & Hf & Hu & Hp & _).
  exists st', b, added. unfold add_fresh, bind. rewrite E, E'.
  split; [reflexivity |]. repeat split; auto.
  eapply added_shape; eassumption.
Qed.

Lemma delete_if_any (ids : list nat) :
  ids <> [] ->
  match ids with
  | [] => ret tt
  | _ :: _ => deleteMany ids
  end = deleteMany ids.
Proof. destruct ids; [congruence | reflexivity]. Qed.

Lemma prune_and_add_spec (o : Oracle) (st : App) :
  1000 < List.length (docs (coll st)) ->
  exists st' ids b added,
    prune_and_add o st = (Ok tt, st')
    /\ oplog st' = (oplog st ++ OpDeleteMany ids :: sent b)%list
    /\ List.length ids = 100
    /\ docs (coll st') = (kept ids (docs (coll st)) ++ added)%list
    /\ List.length added <= List.length b
    /\ Forall (fun d => generated_shape (fields d)) added
    /\ (if no_keys o then List.length b = 100 else True)
    /\ unique_categoryName (coll st') = unique_categoryName (coll st)
    /\ collectionPromise st' = collectionPromise st.
Proof.
  intros Hcount.
  remember (map _id (take_sample (sample_src o) (n_sample st) 100 (docs (coll st))))
    as ids eqn:Eids.
  assert (Hids : List.length ids = 100).
  { subst ids. rewrite length_map, take_sample_length. lia. }
  assert (Hne : ids <> []) by (intros ->; discriminate Hids).
  remember (snd (deleteMany ids o (with_sample st (n_sample st + 100)))) as st2 eqn:E2.
  destruct (generate_step o st2) as (b & s' & E & Hb & Hn).
  destruct (insertMany_tolerant_spec "Insert after prune errors: " b o (with_sys st2 s'))
    as (st' & added & E' & Hop & Hd & Hl & Hf & Hu & Hp & _).
  exists st', ids, b, added.
  split.
  { unfold prune_and_add, bind at 1, aggregate_sample. rewrite <- Eids.
    rewrite (delete_if_any ids Hne).
    unfold bind at 1.
    assert (Hdel : deleteMany ids o (with_sample st (n_sample st + 100)) = (Ok tt, st2))
      by (subst st2; reflexivity).
    rewrite Hdel. unfold bind. rewrite E, E'. reflexivity. }
  subst st2. simpl in Hop, Hd, Hu, Hp.
  split; [rewrite Hop, <- app_assoc; reflexivity |].
  split; [exact Hids |].
  split; [exact Hd |].
  repeat split; auto.
  eapply added_shape; eassumption.
Qed.

(** Both tests of the refresh step are computed from the state at
    entry. *)
Lemma ensureFresh_unfold (o : Oracle) (st : App) :
  ensureFresh o st
  = bind (if (1000 <? List.length (docs (coll st)))%nat then prune_and_add else ret tt)
      (fun _ =>
         if stale (clock_src o (n_clock (sys st)))
                  (lastCreatedAt (firstn 1 (sort_desc (docs (coll st)))))
         then add_fresh else ret tt)
      o (with_sys st (tick (sys st))).
Proof. reflexivity. Qed.

(** With neither test firing the refresh step only reads the clock. *)
Lemma ensureFresh_idle (o : Oracle) (st : App) :
  (1000 <? List.length (docs (coll st)))%nat = false ->
  stale (clock_src o (n_clock (sys st)))
        (lastCreatedAt (firstn 1 (sort_desc (docs (coll st))))) = false ->
  ensureFresh o st = (Ok tt, with_sys st (tick (sys st))).
Proof.
  intros Hc Hs. rewrite ensureFresh_unfold, Hc, Hs. reflexivity.
Qed.

Lemma ensureFresh_spec (o : Oracle) (st : App) :
  let count := List.length (docs (coll st)) in
  let last := lastCreatedAt (firstn 1 (sort_desc (docs (coll st)))) in
  let now := clock_src o (n_clock (sys st)) in
  exists st' ids b1 b2 added,
    ensureFresh o st = (Ok tt, st')
    /\ oplog st'
       = (oplog st
          ++ (if (1000 <? count)%nat then OpDeleteMany ids :: sent b1 else [])
          ++ (if stale now last then sent b2 else []))%list
    /\ List.length ids = 100
    /\ (if no_keys o then List.length b1 = 100 /\ List.length b2 = 100 else True)
    /\ docs (coll st')
       = ((if (1000 <? count)%nat then kept ids (docs (coll st)) else docs (coll st))
          ++ added)%list
    /\ List.length added
       <= (if (1000 <? count)%nat then List.length b1 else 0)
          + (if stale now last then List.length b2 else 0)
    /\ Forall (fun d => generated_shape (fields d)) added.
Proof.
  intros count last now. rewrite ensureFresh_unfold.
  fold count. fold last. fold now.
  set (st0 := with_sys st (tick (sys st))).
  assert (Hblank : List.length (repeat blank 100) = 100) by apply repeat_length.
  assert (Hzero : List.length (repeat 0 100) = 100) by apply repeat_length.
  destruct (1000 <? count)%nat eqn:Hcap.
  - apply Nat.ltb_lt in Hcap.
    destruct (prune_and_add_spec o st0 Hcap)
      as (st1 & ids & b1 & added1 & E1 & Hop1 & Hids & Hd1 & Hl1 & Hsh1 & Hn1 & _).
    unfold bind. rewrite E1.
    destruct (stale now last).
    + destruct (add_fresh_spec o st1)
        as (st2 & b2 & added2 & E2 & Hop2 & Hd2 & Hl2 & Hsh2 & Hn2 & _).
      exists st2, ids, b1, b2, (added1 ++ added2)%list.
      split; [exact E2 |].
      split; [rewrite Hop2, Hop1, <- !app_assoc; reflexivity |].
      split; [exact Hids |].
      split; [destruct (no_keys o); [split; assumption | exact I] |].
      split; [rewrite Hd2, Hd1, <- app_assoc; reflexivity |].
      split; [rewrite length_app; lia |].
      apply Forall_app. split; assumption.
    + exists st1, ids, b1, (repeat blank 100), added1.
      split; [reflexivity |].
      split; [rewrite Hop1, app_nil_r; reflexivity |].
      split; [exact Hids |].
      split; [destruct (no_keys o); [split; assumption | exact I] |].
      split; [exact Hd1 |]. split; [lia | exact Hsh1].
  - unfold bind, ret.
    destruct (stale now last).
    + destruct (add_fresh_spec o st0)
        as (st2 & b2 & added2 & E2 & Hop2 & Hd2 & Hl2 & Hsh2 & Hn2 & _).
      exists st2, (repeat 0 100), (repeat blank 100), b2, added2.
      split; [exact E2 |].
      split; [exact Hop2 |].
      split; [exact Hzero |].
      split; [destruct (no_keys o); [split; assumption | exact I] |].
      split; [exact Hd2 |]. split; [lia | exact Hsh2].
    + exists st0, (repeat 0 100), (repeat blank 100), (repeat blank 100), [].
      split; [reflexivity |].
      split; [simpl; rewrite app_nil_r; reflexivity |].
      split; [exact Hzero |].
      split; [destruct (no_keys o); [split; assumption | exact I] |].
      split; [simpl; rewrite app_nil_r; reflexivity |].
      split; [simpl; lia | constructor].
Qed.



(** C9: on a store below capacity whose latest record is within the
    window at both calls, the first call changes nothing and the second
    call sends no insert and no delete. *)
Theorem ensureFresh_twice_idle (o : Oracle) (st : App) (t : Z) :
  List.length (docs (coll st)) <= 1000 ->
  lastCreatedAt (firstn 1 (sort_desc (docs (coll st)))) = Some t ->
  (clock_src o (n_clock (sys st)) - t < oneDayMs)%Z ->
  (clock_src o (S (n_clock (sys st))) - t < oneDayMs)%Z ->
  exists st1 st2,
    ensureFresh o st = (Ok tt, st1)
    /\ ensureFresh o st1 = (Ok tt, st2)
    /\ oplog st2 = oplog st1
    /\ word_class st2 = word_class st1
    /\ oplog st1 = oplog st
    /\ word_class st1 = word_class st.
Proof.
  intros Hcount Hlast Hnow1 Hnow2.
  assert (Hcap : (1000 <? List.length (docs (coll st)))%nat = false)
    by (apply Nat.ltb_ge; exact Hcount).
  assert (Hs1 : stale (clock_src o (n_clock (sys st)))
                  (lastCreatedAt (firstn 1 (sort_desc (docs (coll st))))) = false).
  { rewrite Hlast. unfold stale. apply Z.leb_gt. exact Hnow1. }
  set (st1 := with_sys st (tick (sys st))).
  assert (Hs2 : stale (clock_src o (n_clock (sys st1)))
                  (lastCreatedAt (firstn 1 (sort_desc (docs (coll st1))))) = false).
  { change (coll st1) with (coll st). rewrite Hlast.
    unfold stale. apply Z.leb_gt. exact Hnow2. }
  exists st1, (with_sys st1 (tick (sys st1))).
  split; [apply ensureFresh_idle; assumption |].
  split; [apply ensureFresh_idle; assumption |].
  repeat split.
Qed.

Lemma ensureFresh_twice_idle_witness :
  List.length (docs (coll (running recent))) <= 1000
  /\ lastCreatedAt (firstn 1 (sort_desc (docs (coll (running recent)))))
     = Some 1699999999000%Z
  /\ (clock_src offline (n_clock (sys (running recent))) - 1699999999000 < oneDayMs)%Z
  /\ (clock_src offline (S (n_clock (sys (running recent)))) - 1699999999000 < oneDayMs)%Z
  /\ exists st1 st2,
      ensureFresh offline (running recent) = (Ok tt, st1)
      /\ ensureFresh offline st1 = (Ok tt, st2)
      /\ oplog st2 = oplog st1
      /\ word_class st2 = word_class st1
      /\ oplog st1 = oplog (running recent)
      /\ word_class st1 = word_class (running recent).
Proof.
  assert (H1 : List.length (docs (coll (running recent))) <= 1000)
    by (simpl; lia).
  assert (H2 : lastCreatedAt (firstn 1 (sort_desc (docs (coll (running recent)))))
               = Some 1699999999000%Z) by reflexivity.
  assert (H3 : (clock_src offline (n_clock (sys (running recent))) - 1699999999000
                < oneDayMs)%Z) by (vm_compute; reflexivity).
  assert (H4 : (clock_src offline (S (n_clock (sys (running recent)))) - 1699999999000
                < oneDayMs)%Z) by (vm_compute; reflexivity).
  split; [exact H1 |]. split; [exact H2 |]. split; [exact H3 |]. split; [exact H4 |].
  exact (ensureFresh_twice_idle offline (running recent) 1699999999000%Z H1 H2 H3 H4).
Defined.

(* ================================================================== *)
(** * The lazy collection handle *)
(* ================================================================== *)

(** The initialisation closure leaves the module variables and the
    stored documents alone. *)
Lemma init_body_frame (o : Oracle) (st : App) :
  inits (snd (init_body o st)) = inits st
  /\ collectionPromise (snd (init_body o st)) = collectionPromise st
  /\ docs (coll (snd (init_body o st))) = docs (coll st).
Proof.
  unfold init_body, connectToDb, getClient, createIndex, try_catch, bind, lift,
    console_put, coll.
  destruct (cachedClient st); simpl;
    [| destruct (key_set (ATLAS_URI o)); simpl; [| repeat split];
       destruct (connect_src o (n_connect st)); simpl; [repeat split |]];
    (destruct (word_class st) as [c |] eqn:Hw; simpl;
     [rewrite ?Hw; simpl;
      destruct (unique_categoryName c); simpl; [rewrite ?Hw; repeat split |];
      destruct (has_clash (docs c)); simpl; rewrite ?Hw; repeat split
     | repeat split]).
Qed.

Lemma step_frame (o : Oracle) (st : App) (e : event) :
  docs (coll (step o st e)) = docs (coll st).
Proof.
  destruct e; unfold step, getCollection_start, settle.
  - destruct (collectionPromise st); reflexivity.
  - destruct (collectionPromise st) as [[| r] |]; try reflexivity.
    destruct (init_body_frame o st) as (_ & _ & Hd).
    destruct (init_body o st) as [r st']. exact Hd.
Qed.

(** Once settled, the promise stays as it is and no initialisation is
    started again. *)
Lemma step_settled (o : Oracle) (st : App) (e : event) (r : result unit) :
  collectionPromise st = Some (Settled r) -> step o st e = st.
Proof.
  intros Hp. destruct e; unfold step, getCollection_start, settle;
    rewrite Hp; reflexivity.
Qed.

Lemma run_settled (o : Oracle) (evs : list event) (st : App) (r : result unit) :
  collectionPromise st = Some (Settled r) -> run o evs st = st.
Proof.
  intros Hp. induction evs as [| e rest IH]; [reflexivity |].
  unfold run in *. simpl. rewrite (step_settled o st e r Hp). exact IH.
Qed.

Lemma run_app (o : Oracle) (evs1 evs2 : list event) (st : App) :
  run o (evs1 ++ evs2) st = run o evs2 (run o evs1 st).
Proof. unfold run. apply fold_left_app. Qed.

Lemma step_inits (o : Oracle) (st : App) (e : event) :
  (collectionPromise st = None -> inits st = 0) ->
  inits st <= 1 ->
  (collectionPromise (step o st e) = None -> inits (step o st e) = 0)
  /\ inits (step o st e) <= 1.
Proof.
  intros Hnone Hle. destruct e; unfold step, getCollection_start, settle.
  - destruct (collectionPromise st) as [p |] eqn:Hp; simpl.
    + rewrite Hp. split; [discriminate | exact Hle].
    + rewrite (Hnone eq_refl). split; [discriminate | lia].
  - destruct (collectionPromise st) as [[| r] |] eqn:Hp; simpl;
      try (rewrite Hp; split; [first [discriminate | exact Hnone] | exact Hle]).
    destruct (init_body_frame o st) as (Hi & _ & _).
    destruct (init_body o st) as [r st']. simpl in *.
    split; [discriminate | lia].
Qed.

Lemma run_inits (o : Oracle) (evs : list event) (st : App) :
  (collectionPromise st = None -> inits st = 0) ->
  inits st <= 1 ->
  inits (run o evs st) <= 1.
Proof.
  revert st. induction evs as [| e rest IH]; intros st Hnone Hle; [exact Hle |].
  unfold run in *. simpl.
  destruct (step_inits o st e Hnone Hle) as [H1 H2]. apply IH; assumption.
Qed.

Lemma getCollection_settled (o : Oracle) (st : App) (r : result unit) :
  collectionPromise st = Some (Settled r) -> getCollection o st = (r, st).
Proof.
  intros Hp. unfold getCollection, bind, getCollection_start.
  rewrite Hp. unfold settle. rewrite Hp. unfold await_promise. rewrite Hp.
  reflexivity.
Qed.

(** C5, as amended: initialisation is single-flight, and its outcome is
    final.  From a fresh module, whatever the order of arrivals and of the
    end of the initialisation, at most one initialisation is ever started;
    once its promise has settled, with the collection or with an error,
    every later call gets that same outcome and no new attempt is made. *)
Theorem getCollection_single_flight_final
  (o : Oracle) (st : App) (evs1 evs2 : list event) :
  collectionPromise st = None ->
  inits st = 0 ->
  inits (run o (evs1 ++ evs2) st) <= 1
  /\ match collectionPromise (run o evs1 st) with
     | Some (Settled r) =>
         run o (evs1 ++ evs2) st = run o evs1 st
         /\ getCollection o (run o (evs1 ++ evs2) st) = (r, run o evs1 st)
     | _ => True
     end.
Proof.
  intros Hnone Hzero. split.
  - apply run_inits; [intros _; exact Hzero | lia].
  - destruct (collectionPromise (run o evs1 st)) as [[| r] |] eqn:Hp; try exact I.
    rewrite run_app, (run_settled o evs2 _ r Hp).
    split; [reflexivity | apply getCollection_settled; exact Hp].
Qed.

Lemma getCollection_single_flight_final_witness :
  collectionPromise fresh_app = None
  /\ inits fresh_app = 0
  /\ inits (run flaky ([Arrives; Arrives; InitEnds] ++ [Arrives; InitEnds]) fresh_app) <= 1
  /\ match collectionPromise (run flaky [Arrives; Arrives; InitEnds] fresh_app) with
     | Some (Settled r) =>
         run flaky ([Arrives; Arrives; InitEnds] ++ [Arrives; InitEnds]) fresh_app
         = run flaky [Arrives; Arrives; InitEnds] fresh_app
         /\ getCollection flaky
              (run flaky ([Arrives; Arrives; InitEnds] ++ [Arrives; InitEnds]) fresh_app)
            = (r, run flaky [Arrives; Arrives; InitEnds] fresh_app)
     | _ => True
     end.
Proof.
  split; [reflexivity |]. split; [reflexivity |].
  apply (getCollection_single_flight_final flaky fresh_app
           [Arrives; Arrives; InitEnds] [Arrives; InitEnds]); reflexivity.
Defined.

(** C5 as stated fails on the retry: after a failed first connection the
    rejected promise stays in [collectionPromise]; a later call starts no
    new initialisation, although a new connection attempt would succeed,
    and the routes answer 503 from then on. *)
Lemma failed_init_never_retried :
  collectionPromise (run flaky [Arrives; InitEnds] fresh_app)
  = Some (Settled (Throw ECONNREFUSED))
  /\ connect_src flaky (n_connect (run flaky [Arrives; InitEnds] fresh_app)) = None
  /\ ~ retried flaky (run flaky [Arrives; InitEnds] fresh_app)
  /\ fst (getCollection flaky (run flaky [Arrives; InitEnds; Arrives] fresh_app))
     = Throw ECONNREFUSED
  /\ fst (get_categories None flaky (run flaky [Arrives; InitEnds] fresh_app))
     = Ok not_ready.
Proof.
  split; [reflexivity |]. split; [reflexivity |].
  split; [unfold retried; vm_compute; discriminate |].
  split; reflexivity.
Qed.

(* ================================================================== *)
(** * The routes *)
(* ================================================================== *)

Lemma getCollection_start_ok (o : Oracle) (st : App) :
  getCollection_start o st = (Ok tt, step o st Arrives).
Proof.
  unfold step, getCollection_start. destruct (collectionPromise st); reflexivity.
Qed.

Lemma settle_ok (o : Oracle) (st : App) :
  settle o st = (Ok tt, step o st InitEnds).
Proof.
  unfold step, settle. destruct (collectionPromise st) as [[| r] |]; try reflexivity.
  destruct (init_body o st); reflexivity.
Qed.


Lemma ready_settled (o : Oracle) (st : App) :
  collectionPromise st = Some (Settled (Ok tt)) -> ready o st = (Ok true, st).
Proof.
  intros Hp. unfold ready, try_catch, bind at 1.
  rewrite (getCollection_settled o st (Ok tt) Hp). reflexivity.
Qed.

Lemma json_eqb_refl : forall v : json, json_eqb v v = true.
Proof.
  fix IH 1. intros [| b | z | fr | s | items | fs]; simpl.
  - reflexivity.
  - destruct b; reflexivity.
  - apply Z.eqb_refl.
  - apply String.eqb_refl.
  - apply String.eqb_refl.
  - induction items as [| x rest IHr]; [reflexivity |].
    rewrite (IH x). exact IHr.
  - induction fs as [| [k x] rest IHr]; [reflexivity |].
    rewrite String.eqb_refl, (IH x). exact IHr.
Qed.

(** A value always clashes with itself in the index. *)
Lemma keys_clash_refl (v : json) : keys_clash v v = true.
Proof.
  unfold keys_clash.
  assert (Hk : forall k rest, index_keys v = k :: rest ->
                 existsb (fun k' => existsb (key_eqb k') (index_keys v)) (index_keys v) = true).
  { intros k rest E. rewrite E. simpl.
    assert (Hkk : key_eqb k k = true)
      by (destruct k; simpl; [apply json_eqb_refl | reflexivity]).
    rewrite Hkk. reflexivity. }
  destruct v as [| b | z | fr | s | [| x items] | fs]; eapply Hk; reflexivity.
Qed.

Lemma duplicate_key_present (x : Category) (d : Doc) (ds : list Doc) :
  In d ds ->
  categoryName (fields d) = categoryName x ->
  duplicate_key x ds = true.
Proof.
  intros Hin Hname. unfold duplicate_key. apply existsb_exists.
  exists d. split; [exact Hin |]. rewrite Hname. apply keys_clash_refl.
Qed.

(** What the body test lets through. *)
Lemma invalid_false (cn ws : option json) :
  invalid cn ws = false ->
  truthy cn = true
  /\ exists items,
      ws = Some (JArr items)
      /\ 1 <= List.length items <= 20
      /\ forallb is_string items = true.
Proof.
  unfold invalid. intros H. apply orb_false_elim in H. destruct H as [Ht Hw].
  split; [destruct (truthy cn); [reflexivity | discriminate Ht] |].
  destruct ws as [[| | | | | items |] |]; try discriminate Hw.
  exists items. split; [reflexivity |].
  apply orb_false_elim in Hw. destruct Hw as [Hw Hs].
  apply orb_false_elim in Hw. destruct Hw as [Hlo Hhi].
  apply Nat.ltb_ge in Hlo, Hhi.
  split; [lia |]. destruct (forallb is_string items); [reflexivity | discriminate Hs].
Qed.

(** Every body the specification accepts passes the test of the code. *)
Lemma create_ok_accepted (cn ws : option json) :
  create_ok cn ws = true -> invalid cn ws = false.
Proof.
  unfold create_ok, invalid. intros H. apply andb_prop in H. destruct H as [Hn Hw].
  destruct cn as [[| | | | s | |] |]; try discriminate Hn. simpl. rewrite Hn. simpl.
  destruct ws as [[| | | | | items |] |]; try discriminate Hw.
  apply andb_prop in Hw. destruct Hw as [Hw Hs].
  apply andb_prop in Hw. destruct Hw as [Hlo Hhi].
  apply Nat.leb_le in Hlo, Hhi. rewrite Hs. simpl.
  apply orb_false_intro; [| reflexivity].
  apply orb_false_intro; apply Nat.ltb_ge; lia.
Qed.

(** A body that passes the test without being accepted by the
    specification has a name that is not a string. *)
Lemma accepted_not_create_ok (cn ws : option json) :
  invalid cn ws = false ->
  create_ok cn ws = false ->
  truthy cn = true /\ forall s, cn <> Some (JStr s).
Proof.
  intros Hi Hc. destruct (invalid_false cn ws Hi) as (Ht & items & -> & Hlen & Hs).
  split; [exact Ht |]. intros s ->. unfold create_ok in Hc.
  cbn [truthy] in Ht.
  assert (H1 : (1 <=? List.length items)%nat = true) by (apply Nat.leb_le; lia).
  assert (H2 : (List.length items <=? 20)%nat = true) by (apply Nat.leb_le; lia).
  rewrite Ht, H1, H2, Hs in Hc. discriminate Hc.
Qed.

(** C3, as amended: on an initialised collection that holds a record
    with the name of a valid body (one the collection's validator lets
    through), [POST /categories] answers 409 and stores nothing when the
    unique index on [categoryName] exists; without the index (its creation
    failed and the system went on) the insert succeeds with 201 and a
    second record with that name is stored. *)
Theorem post_existing_name
  (o : Oracle) (st : App) (req cn ws : option json) (d : Doc) :
  destructure (body_or_empty req) "categoryName" = cn ->
  destructure (body_or_empty req) "words" = ws ->
  collectionPromise st = Some (Settled (Ok tt)) ->
  invalid cn ws = false ->
  In d (docs (coll st)) ->
  categoryName (fields d) = name_of cn ->
  passes (coll st) (posted cn ws (clock_src o (n_clock (sys st)))) = true ->
  exists st',
    post_categories req o st
    = (Ok (if unique_categoryName (coll st)
           then {| status := 409; payload := ErrorBody "categoryName already exists" |}
           else {| status := 201; payload := InsertedId (next_id (coll st)) |}),
       st')
    /\ docs (coll st')
       = (if unique_categoryName (coll st)
          then docs (coll st)
          else docs (coll st)
               ++ [{| _id := next_id (coll st);
                      fields := posted cn ws (clock_src o (n_clock (sys st))) |}])%list
    /\ oplog st'
       = (if unique_categoryName (coll st)
          then oplog st
          else oplog st ++ [OpInsertOne (posted cn ws (clock_src o (n_clock (sys st))))])%list.
Proof.
  intros Hcn Hws Hp Hinv Hin Hname Hpass.
  assert (Hdup : duplicate_key (posted cn ws (clock_src o (n_clock (sys st))))
                   (docs (coll st)) = true)
    by (eapply duplicate_key_present; [exact Hin | exact Hname]).
  unfold post_categories, bind at 1. rewrite (ready_settled o st Hp).
  rewrite Hcn, Hws, Hinv.
  unfold try_catch, bind, lift, new_Date, insertOne, write_error.
  cbn [sys with_sys]. rewrite coll_with_sys.
  fold (posted cn ws (clock_src o (n_clock (sys st)))).
  rewrite Hpass, Hdup. cbn [negb].
  destruct (unique_categoryName (coll st)); cbn [andb];
    eexists; (split; [reflexivity |]); split; reflexivity.
Qed.

Lemma post_existing_name_witness :
  destructure (body_or_empty (Some body_x)) "categoryName" = Some (JStr "x")
  /\ destructure (body_or_empty (Some body_x)) "words" = Some (JArr [JStr "a"; JStr "b"])
  /\ collectionPromise (running indexed) = Some (Settled (Ok tt))
  /\ invalid (Some (JStr "x")) (Some (JArr [JStr "a"; JStr "b"])) = false
  /\ In (stored "x" 0) (docs (coll (running indexed)))
  /\ categoryName (fields (stored "x" 0)) = name_of (Some (JStr "x"))
  /\ passes (coll (running indexed))
       (posted (Some (JStr "x")) (Some (JArr [JStr "a"; JStr "b"]))
          (clock_src offline (n_clock (sys (running indexed))))) = true
  /\ exists st',
      post_categories (Some body_x) offline (running indexed)
      = (Ok {| status := 409; payload := ErrorBody "categoryName already exists" |}, st')
      /\ docs (coll st') = docs (coll (running indexed))
      /\ oplog st' = oplog (running indexed).
Proof.
  split; [reflexivity |]. split; [reflexivity |]. split; [reflexivity |].
  split; [reflexivity |]. split; [left; reflexivity |]. split; [reflexivity |].
  split; [reflexivity |].
  apply (post_existing_name offline (running indexed) (Some body_x)
           (Some (JStr "x")) (Some (JArr [JStr "a"; JStr "b"])) (stored "x" 0));
    try reflexivity.
  left. reflexivity.
Defined.

(** C3 as stated fails in the degraded state: the collection holds the
    name [y] twice, so building the unique index fails and is only
    logged; a [POST] with the name [x], which the collection holds once,
    is then answered 201 and a second record named [x] is stored. *)
Lemma duplicate_stored_without_index :
  map (fun d => categoryName (fields d)) (docs (coll (cold duplicated)))
  = [JStr "y"; JStr "y"; JStr "x"]
  /\ fst (post_categories (Some body_x) offline (cold duplicated))
     = Ok {| status := 201; payload := InsertedId 3 |}
  /\ console (sys (snd (post_categories (Some body_x) offline (cold duplicated))))
     = [Warn "Could not create unique index: E11000 duplicate key error collection: worddb.word_class";
        Log "Connected to worddb -> word_class collection"]
  /\ map (fun d => categoryName (fields d))
       (docs (coll (snd (post_categories (Some body_x) offline (cold duplicated)))))
     = [JStr "y"; JStr "y"; JStr "x"; JStr "x"].
Proof. repeat split. Qed.

(** C8, the code at the failing input: a body whose [categoryName] is
    the number 42 is not what the specification accepts, yet it passes the
    test of the route, is inserted and answered 201. *)
Theorem post_accepts_number_as_name :
  create_ok (destructure numbered_body "categoryName")
            (destructure numbered_body "words") = false
  /\ invalid (destructure numbered_body "categoryName")
             (destructure numbered_body "words") = false
  /\ fst (post_categories (Some numbered_body) offline fresh_app)
     = Ok {| status := 201; payload := InsertedId 0 |}
  /\ map (fun d => categoryName (fields d))
       (docs (coll (snd (post_categories (Some numbered_body) offline fresh_app))))
     = [JNum 42].
Proof. repeat split. Qed.






(* ================================================================== *)
(** * Properties kept by every handler *)
(* ================================================================== *)

Lemma keeps_ret {A} (I : App -> Prop) (a : A) : keeps I (ret a).
Proof. intros o st r st' HI E. inversion E; subst. exact HI. Qed.

Lemma keeps_throw {A} (I : App -> Prop) (e : exn) : keeps (A := A) I (throw e).
Proof. intros o st r st' HI E. inversion E; subst. exact HI. Qed.

Lemma keeps_bind {A B} (I : App -> Prop) (m : H A) (k : A -> H B) :
  keeps I m -> (forall a, keeps I (k a)) -> keeps I (bind m k).
Proof.
  intros Hm Hk o st r st' HI E. unfold bind in E.
  destruct (m o st) as [[a | e] st1] eqn:E1.
  - eapply Hk; [eapply Hm; eassumption | exact E].
  - inversion E; subst. eapply Hm; eassumption.
Qed.

Lemma keeps_try_catch {A} (I : App -> Prop) (m : H A) (h : exn -> H A) :
  keeps I m -> (forall e, keeps I (h e)) -> keeps I (try_catch m h).
Proof.
  intros Hm Hh o st r st' HI E. unfold try_catch in E.
  destruct (m o st) as [[a | e] st1] eqn:E1.
  - inversion E; subst. eapply Hm; eassumption.
  - eapply Hh; [eapply Hm; eassumption | exact E].
Qed.

Lemma keeps_lift {A} (I : App -> Prop) (g : G A) :
  (forall st s, I st -> I (with_sys st s)) -> keeps I (lift g).
Proof.
  intros Hs o st r st' HI E. unfold lift in E.
  destruct (g o (sys st)) as [r1 s1]. inversion E; subst. apply Hs. exact HI.
Qed.

Lemma keeps_if {A} (I : App -> Prop) (b : bool) (m1 m2 : H A) :
  keeps I m1 -> keeps I m2 -> keeps I (if b then m1 else m2).
Proof. destruct b; auto. Qed.

(* ================================================================== *)
(** * The uniqueness invariant *)
(* ================================================================== *)

Lemma json_eqb_sym : forall a b : json, json_eqb a b = json_eqb b a.
Proof.
  fix IH 1. intros [| x | x | x | x | xs | xs] [| y | y | y | y | ys | ys]; simpl;
    try reflexivity.
  - destruct x, y; reflexivity.
  - apply Z.eqb_sym.
  - apply String.eqb_sym.
  - apply String.eqb_sym.
  - revert ys. induction xs as [| x xs IHx]; intros [| y ys]; try reflexivity.
    rewrite (IH x y), IHx. reflexivity.
  - revert ys. induction xs as [| [k x] xs IHx]; intros [| [k' y] ys];
      try reflexivity.
    rewrite (IH x y), IHx, (String.eqb_sym k k'). reflexivity.
Qed.

Lemma key_eqb_sym (a b : option json) : key_eqb a b = key_eqb b a.
Proof. destruct a, b; simpl; try reflexivity. apply json_eqb_sym. Qed.

Lemma existsb_swap {X Y} (f : X -> Y -> bool) (l1 : list X) (l2 : list Y) :
  existsb (fun x => existsb (f x) l2) l1
  = existsb (fun y => existsb (fun x => f x y) l1) l2.
Proof.
  induction l1 as [| x l1 IH]; simpl.
  - induction l2; simpl; auto.
  - rewrite IH. clear IH. induction l2 as [| y l2 IH2]; simpl.
    + reflexivity.
    + rewrite <- IH2.
      destruct (f x y), (existsb (f x) l2), (existsb (fun x0 => f x0 y) l1);
        reflexivity.
Qed.

Lemma existsb_pointwise {X} (f g : X -> bool) (l : list X) :
  (forall x, f x = g x) -> existsb f l = existsb g l.
Proof. intros Hfg. induction l as [| x l IH]; simpl; congruence. Qed.

Lemma keys_clash_sym (a b : json) : keys_clash a b = keys_clash b a.
Proof.
  unfold keys_clash. rewrite existsb_swap.
  apply existsb_pointwise. intros k. apply existsb_pointwise. intros k'.
  apply key_eqb_sym.
Qed.

Lemma duplicate_key_app (x : Category) (ds1 ds2 : list Doc) :
  duplicate_key x (ds1 ++ ds2) = duplicate_key x ds1 || duplicate_key x ds2.
Proof. unfold duplicate_key. apply existsb_app. Qed.

Lemma has_clash_snoc (ds : list Doc) (d : Doc) :
  has_clash (ds ++ [d]) = has_clash ds || duplicate_key (fields d) ds.
Proof.
  induction ds as [| x ds IH]; simpl; [reflexivity |].
  rewrite IH, duplicate_key_app. simpl.
  rewrite (keys_clash_sym (categoryName (fields d)) (categoryName (fields x))).
  destruct (duplicate_key (fields x) ds), (has_clash ds),
    (keys_clash (categoryName (fields x)) (categoryName (fields d))),
    (duplicate_key (fields d) ds); reflexivity.
Qed.

Lemma duplicate_key_filter (f : Doc -> bool) (x : Category) (ds : list Doc) :
  duplicate_key x ds = false -> duplicate_key x (filter f ds) = false.
Proof.
  unfold duplicate_key. induction ds as [| d ds IH]; simpl; [reflexivity |].
  intros H. apply orb_false_elim in H. destruct H as [H1 H2].
  destruct (f d); simpl; [rewrite H1 |]; auto.
Qed.

Lemma has_clash_filter (f : Doc -> bool) (ds : list Doc) :
  has_clash ds = false -> has_clash (filter f ds) = false.
Proof.
  induction ds as [| d ds IH]; simpl; [reflexivity |].
  intros H. apply orb_false_elim in H. destruct H as [H1 H2].
  destruct (f d); simpl; [| auto].
  rewrite (duplicate_key_filter f _ _ H1). auto.
Qed.

Lemma write_error_none (c : Collection) (x : Category) :
  write_error c x = None ->
  passes c x = true
  /\ (unique_categoryName c = true -> duplicate_key x (docs c) = false).
Proof.
  unfold write_error. destruct (passes c x); simpl; [| discriminate].
  destruct (unique_categoryName c); simpl; [| intros _; split; [reflexivity | discriminate]].
  destruct (duplicate_key x (docs c)); [discriminate |].
  intros _. split; reflexivity.
Qed.

Lemma store_unique_names (c : Collection) (x : Category) :
  unique_names c -> write_error c x = None -> unique_names (store c x).
Proof.
  intros [Hu Hc] Hw. destruct (write_error_none c x Hw) as [_ Hd].
  split; [exact Hu |]. unfold store. cbn [docs].
  rewrite has_clash_snoc, Hc. cbn [fields]. rewrite (Hd Hu). reflexivity.
Qed.

Lemma insert_unordered_unique_names (batch : list Category) (c : Collection) :
  unique_names c -> unique_names (fst (insert_unordered c batch)).
Proof.
  revert c. induction batch as [| x rest IH]; intros c Hc; simpl; [exact Hc |].
  destruct (write_error c x) as [e |] eqn:Hw.
  - specialize (IH c Hc). destruct (insert_unordered c rest). exact IH.
  - specialize (IH (store c x) (store_unique_names c x Hc Hw)).
    destruct (insert_unordered (store c x) rest). exact IH.
Qed.

(** On an existing collection the initialisation at most adds the
    unique index, and only when no two names clash. *)
Lemma init_body_coll (o : Oracle) (st : App) (c : Collection) :
  word_class st = Some c ->
  coll (snd (init_body o st)) = c
  \/ (coll (snd (init_body o st))
      = {| docs := docs c; unique_categoryName := true;
           validator := validator c; next_id := next_id c |}
      /\ has_clash (docs c) = false).
Proof.
  intros Hw.
  unfold init_body, connectToDb, getClient, createIndex, try_catch, bind, lift,
    console_put.
  destruct (cachedClient st); simpl;
    [| destruct (key_set (ATLAS_URI o)); simpl;
       [| left; unfold coll; rewrite Hw; reflexivity];
       destruct (connect_src o (n_connect st)); simpl;
       [left; unfold coll; simpl; rewrite Hw; reflexivity |]];
    rewrite Hw; simpl; unfold coll; simpl; rewrite Hw;
    (destruct (unique_categoryName c); simpl;
     [left; rewrite Hw; reflexivity |]);
    (destruct (has_clash (docs c)) eqn:Hc; simpl;
     [left; rewrite Hw; reflexivity | right; split; reflexivity]).
Qed.

Section UniqueNamesKept.

Let I (st : App) : Prop := unique_names (coll st).

Lemma I_with_sys (st : App) (s : Sys) : I st -> I (with_sys st s).
Proof. auto. Qed.

Lemma keeps_unique_deleteMany (ids : list nat) : keeps I (deleteMany ids).
Proof.
  intros o st r st' [Hu Hc] E. unfold deleteMany in E. inversion E; subst.
  split; [exact Hu |]. unfold I, coll, with_coll. cbn [word_class docs].
  apply has_clash_filter. exact Hc.
Qed.

Lemma keeps_unique_insertMany (batch : list Category) : keeps I (insertMany batch).
Proof.
  intros o st r st' HI E. unfold insertMany in E.
  destruct batch as [| x rest]; [inversion E; subst; exact HI |].
  pose proof (insert_unordered_unique_names (x :: rest) (coll st) HI) as Hk.
  destruct (insert_unordered (coll st) (x :: rest)) as [c' err].
  destruct err; inversion E; subst; exact Hk.
Qed.

Lemma keeps_unique_insertOne (x : Category) : keeps I (insertOne x).
Proof.
  intros o st r st' HI E. unfold insertOne in E.
  destruct (write_error (coll st) x) eqn:Hw; inversion E; subst; [exact HI |].
  apply (store_unique_names (coll st) x HI Hw).
Qed.

Lemma keeps_unique_sample (size : nat) : keeps I (aggregate_sample size).
Proof. intros o st r st' HI E. inversion E; subst. exact HI. Qed.

Lemma keeps_unique_count : keeps I countDocuments.
Proof. intros o st r st' HI E. inversion E; subst. exact HI. Qed.

Lemma keeps_unique_find (k : nat) : keeps I (find_recent k).
Proof. intros o st r st' HI E. inversion E; subst. exact HI. Qed.

Lemma keeps_unique_insertMany_tolerant (label : string) (batch : list Category) :
  keeps I (insertMany_tolerant label batch).
Proof.
  apply keeps_try_catch; [apply keeps_unique_insertMany |].
  intros e. apply keeps_lift. apply I_with_sys.
Qed.

Lemma keeps_unique_ensureFresh : keeps I ensureFresh.
Proof.
  unfold ensureFresh.
  apply keeps_bind; [apply keeps_lift, I_with_sys |]. intros now.
  apply keeps_bind; [apply keeps_unique_count |]. intros count.
  apply keeps_bind; [apply keeps_unique_find |]. intros latest.
  apply keeps_bind.
  - apply keeps_if; [| apply keeps_ret].
    unfold prune_and_add.
    apply keeps_bind; [apply keeps_unique_sample |]. intros ids.
    apply keeps_bind.
    { destruct ids; [apply keeps_ret | apply keeps_unique_deleteMany]. }
    intros _. apply keeps_bind; [apply keeps_lift, I_with_sys |]. intros b.
    apply keeps_unique_insertMany_tolerant.
  - intros _. apply keeps_if; [| apply keeps_ret].
    unfold add_fresh.
    apply keeps_bind; [apply keeps_lift, I_with_sys |]. intros b.
    apply keeps_unique_insertMany_tolerant.
Qed.

Lemma keeps_unique_init_body : keeps I init_body.
Proof.
  intros o st r st' HI E.
  assert (Hst : st' = snd (init_body o st)) by (rewrite E; reflexivity).
  destruct HI as [Hu Hc]. unfold coll in Hu, Hc.
  destruct (word_class st) as [c |] eqn:Hw; [| discriminate Hu].
  destruct (init_body_coll o st c Hw) as [H1 | [H1 H2]];
    unfold I; rewrite Hst, H1; split; auto.
Qed.

Lemma keeps_unique_ready : keeps I ready.
Proof.
  unfold ready, getCollection.
  apply keeps_try_catch; [| intros e; apply keeps_ret].
  apply keeps_bind.
  { apply keeps_bind.
    - intros o st r st' HI E. unfold getCollection_start in E.
      destruct (collectionPromise st); inversion E; subst; exact HI.
    - intros _. apply keeps_bind.
      + intros o st r st' HI E. unfold settle in E.
        destruct (collectionPromise st) as [[| r0] |];
          try (inversion E; subst; exact HI).
        destruct (init_body o st) as [r1 st1] eqn:E1.
        inversion E; subst.
        apply (keeps_unique_init_body o st r1 st1 HI E1).
      + intros _ o st r st' HI E. unfold await_promise in E.
        destruct (collectionPromise st) as [[| r0] |]; inversion E; subst; exact HI. }
  intros _. apply keeps_ret.
Qed.

Lemma keeps_unique_get_categories (q : option string) : keeps I (get_categories q).
Proof.
  unfold get_categories.
  apply keeps_bind; [apply keeps_unique_ready |]. intros [|]; [| apply keeps_ret].
  apply keeps_try_catch.
  - apply keeps_bind; [apply keeps_unique_ensureFresh |]. intros _.
    apply keeps_bind; [apply keeps_unique_find |]. intros found. apply keeps_ret.
  - intros e. apply keeps_bind; [apply keeps_lift, I_with_sys |].
    intros _. apply keeps_ret.
Qed.

Lemma keeps_unique_post_categories (req : option json) : keeps I (post_categories req).
Proof.
  unfold post_categories.
  apply keeps_bind; [apply keeps_unique_ready |]. intros [|]; [| apply keeps_ret].
  destruct (invalid _ _); [apply keeps_ret |].
  apply keeps_try_catch.
  - apply keeps_bind; [apply keeps_lift, I_with_sys |]. intros now.
    apply keeps_bind; [apply keeps_unique_insertOne |]. intros id. apply keeps_ret.
  - intros e. destruct (match code e with Some c => _ | None => _ end); apply keeps_ret.
Qed.

End UniqueNamesKept.

(** X1: with the unique index in place and no two stored names clashing,
    neither [GET /categories] nor [POST /categories] ever leaves the
    collection with two clashing names or without the index, whatever the
    providers answer and whatever the body is. *)
Theorem routes_keep_names_unique
  (o : Oracle) (st : App) (q : option string) (req : option json) :
  unique_names (coll st) ->
  unique_names (coll (snd (get_categories q o st)))
  /\ unique_names (coll (snd (post_categories req o st))).
Proof.
  intros HI. split.
  - destruct (get_categories q o st) as [r st'] eqn:E.
    exact (keeps_unique_get_categories q o st r st' HI E).
  - destruct (post_categories req o st) as [r st'] eqn:E.
    exact (keeps_unique_post_categories req o st r st' HI E).
Qed.

Lemma routes_keep_names_unique_witness :
  unique_names (coll (running indexed))
  /\ unique_names (coll (snd (get_categories None offline (running indexed))))
  /\ unique_names (coll (snd (post_categories (Some body_x) offline (running indexed)))).
Proof.
  assert (H : unique_names (coll (running indexed))) by (split; reflexivity).
  split; [exact H |].
  exact (routes_keep_names_unique offline (running indexed) None (Some body_x) H).
Defined.

(* ================================================================== *)
(** * What [GET /categories] answers *)
(* ================================================================== *)

Lemma insert_desc_perm (d : Doc) (l : list Doc) :
  Permutation (insert_desc d l) (d :: l).
Proof.
  induction l as [| x rest IH]; simpl; [apply Permutation_refl |].
  destruct (createdAt (fields x) <? createdAt (fields d))%Z.
  - apply Permutation_refl.
  - eapply Permutation_trans; [apply perm_skip; exact IH | apply perm_swap].
Qed.

Lemma sort_desc_perm (l : list Doc) : Permutation (sort_desc l) l.
Proof.
  induction l as [| d rest IH]; simpl; [apply Permutation_refl |].
  eapply Permutation_trans; [apply insert_desc_perm | apply perm_skip; exact IH].
Qed.

Lemma insert_desc_sorted (d : Doc) (l : list Doc) :
  StronglySorted newer_or_equal l -> StronglySorted newer_or_equal (insert_desc d l).
Proof.
  induction 1 as [| x rest Hs IH Hx]; simpl.
  - constructor; constructor.
  - destruct (Z.ltb_spec (createdAt (fields x)) (createdAt (fields d))) as [Hlt | Hge].
    + constructor; [constructor; assumption |].
      constructor; [unfold newer_or_equal; lia |].
      eapply Forall_impl; [| exact Hx].
      intros y Hy. unfold newer_or_equal in *. lia.
    + constructor; [exact IH |].
      eapply Permutation_Forall; [apply Permutation_sym, insert_desc_perm |].
      constructor; [unfold newer_or_equal; lia | exact Hx].
Qed.

Lemma sort_desc_sorted (l : list Doc) : StronglySorted newer_or_equal (sort_desc l).
Proof.
  induction l as [| d rest IH]; simpl; [constructor |].
  apply insert_desc_sorted. exact IH.
Qed.

Lemma StronglySorted_firstn {A} (R : A -> A -> Prop) (k : nat) (l : list A) :
  StronglySorted R l -> StronglySorted R (firstn k l).
Proof.
  intros Hl. revert k. induction Hl as [| x rest Hs IH Hx]; intros [| k]; simpl;
    try constructor.
  - apply IH.
  - rewrite Forall_forall in *. intros y Hy. apply Hx. eapply firstn_In. exact Hy.
Qed.

Lemma parse_limit_range (q : option string) : (1 <= parse_limit q <= 1000)%Z.
Proof.
  unfold parse_limit. destruct (parseInt10 _) as [v |]; [| lia].
  destruct (Z.ltb_spec v 1), (Z.ltb_spec 1000 v); simpl; lia.
Qed.

(** After a call to [getCollection()] the promise has settled. *)
Lemma ready_outcome (o : Oracle) (st : App) :
  exists st1,
    docs (coll st1) = docs (coll st)
    /\ ((ready o st = (Ok true, st1)
         /\ collectionPromise st1 = Some (Settled (Ok tt)))
        \/ (exists e, ready o st = (Ok false, st1)
                      /\ collectionPromise st1 = Some (Settled (Throw e)))).
Proof.
  unfold ready, try_catch, getCollection, bind.
  rewrite getCollection_start_ok, settle_ok.
  set (st1 := step o (step o st Arrives) InitEnds).
  assert (Hd : docs (coll st1) = docs (coll st))
    by (unfold st1; rewrite !step_frame; reflexivity).
  assert (Hp : exists r, collectionPromise st1 = Some (Settled r)).
  { unfold st1, step, getCollection_start, settle.
    destruct (collectionPromise st) as [[| r] |] eqn:E; simpl; rewrite ?E.
    - destruct (init_body o st); simpl. eauto.
    - simpl. rewrite E. eauto.
    - destruct (init_body o _); simpl. eauto. }
  destruct Hp as (r & Hp). exists st1. split; [exact Hd |].
  unfold await_promise. rewrite Hp.
  destruct r as [[] | e]; [left | right; exists e]; split; auto.
Qed.

Lemma ensureFresh_promise (o : Oracle) (st : App) :
  collectionPromise (snd (ensureFresh o st)) = collectionPromise st.
Proof.
  rewrite ensureFresh_unfold.
  remember (with_sys st (tick (sys st))) as st0 eqn:E0.
  assert (H0 : collectionPromise st0 = collectionPromise st)
    by (subst st0; reflexivity).
  assert (Hc0 : coll st0 = coll st) by (subst st0; reflexivity).
  rewrite <- H0. clear H0 E0.
  destruct (1000 <? List.length (docs (coll st)))%nat eqn:Hcap.
  - apply Nat.ltb_lt in Hcap. rewrite <- Hc0 in Hcap.
    destruct (prune_and_add_spec o st0 Hcap)
      as (st1 & ids & b1 & added1 & E1 & _ & _ & _ & _ & _ & _ & _ & Hp1).
    unfold bind. rewrite E1.
    destruct (stale _ _); [| cbn [snd]; exact Hp1].
    destruct (add_fresh_spec o st1)
      as (st2 & b2 & added2 & E2 & _ & _ & _ & _ & _ & _ & Hp2).
    rewrite E2. cbn [snd]. rewrite Hp2. exact Hp1.
  - unfold bind, ret.
    destruct (stale _ _); [| reflexivity].
    destruct (add_fresh_spec o st0)
      as (st2 & b2 & added2 & E2 & _ & _ & _ & _ & _ & _ & Hp2).
    rewrite E2. cbn [snd]. exact Hp2.
Qed.

Lemma StronglySorted_app_cross {A} (R : A -> A -> Prop) (l1 l2 : list A) :
  StronglySorted R (l1 ++ l2) ->
  Forall (fun y => Forall (fun x => R x y) l1) l2.
Proof.
  induction l1 as [| a l1 IH]; intros Hs.
  - apply Forall_forall. intros y _. constructor.
  - cbn [app] in Hs. apply StronglySorted_inv in Hs. destruct Hs as [Hs Ha].
    specialize (IH Hs). rewrite Forall_forall in *. intros y Hy.
    constructor; [| apply IH; exact Hy].
    apply Ha. apply in_or_app. right. exact Hy.
Qed.

(** The first [k] documents of the sorted collection are its newest:
    with the documents left out they make up the collection, sorted, so
    that none left out is newer than one returned. *)
Lemma find_recent_newest (k : nat) (ds : list Doc) :
  let found := firstn k (sort_desc ds) in
  exists rest,
    Permutation (found ++ rest) ds
    /\ StronglySorted newer_or_equal (found ++ rest)
    /\ Forall (fun d => Forall (fun f => newer_or_equal f d) found) rest.
Proof.
  intros found. exists (skipn k (sort_desc ds)). unfold found.
  rewrite firstn_skipn.
  split; [apply sort_desc_perm |]. split; [apply sort_desc_sorted |].
  apply StronglySorted_app_cross. rewrite firstn_skipn. apply sort_desc_sorted.
Qed.

(** X2: [GET /categories] always answers, with 503 or with 200, never
    with 500, whatever the providers reply and whatever the inserts run
    into.  It answers 503 exactly when the initialisation of the handle
    failed; otherwise the body holds the [min(limit, count)] newest stored
    records, newest first, at most 1000 of them: together with the records
    left out they are the whole collection in descending order of
    [createdAt], so no record left out is newer than a record returned. *)
Theorem get_categories_answer (o : Oracle) (st : App) (q : option string) :
  exists resp st',
    get_categories q o st = (Ok resp, st')
    /\ ((resp = not_ready
         /\ exists e, collectionPromise st' = Some (Settled (Throw e)))
        \/ (status resp = 200
            /\ collectionPromise st' = Some (Settled (Ok tt))
            /\ exists found,
                payload resp = Docs found
                /\ List.length found
                   = Nat.min (Z.to_nat (parse_limit q)) (List.length (docs (coll st')))
                /\ List.length found <= 1000
                /\ StronglySorted newer_or_equal found
                /\ incl found (docs (coll st'))
                /\ exists rest,
                    Permutation (found ++ rest) (docs (coll st'))
                    /\ StronglySorted newer_or_equal (found ++ rest)
                    /\ Forall (fun d => Forall (fun f => newer_or_equal f d) found)
                         rest)).
Proof.
  destruct (ready_outcome o st) as (st1 & _ & [[E1 Hp1] | (e & E1 & Hp1)]).
  - destruct (ensureFresh_spec o st1) as (st2 & ids & b1 & b2 & added & E2 & _).
    pose proof (ensureFresh_promise o st1) as Hp2. rewrite E2 in Hp2. simpl in Hp2.
    eexists _, st2. split.
    + unfold get_categories, bind at 1. rewrite E1.
      unfold try_catch, bind. rewrite E2. unfold find_recent, ret. reflexivity.
    + right. split; [reflexivity |]. split; [congruence |].
      eexists. split; [reflexivity |].
      pose proof (parse_limit_range q) as Hr.
      assert (Hlen : List.length (sort_desc (docs (coll st2)))
                     = List.length (docs (coll st2)))
        by (apply Permutation_length, sort_desc_perm).
      split; [rewrite length_firstn, Hlen; reflexivity |].
      split; [rewrite length_firstn; lia |].
      split; [apply StronglySorted_firstn, sort_desc_sorted |].
      split.
      { intros d Hd. apply firstn_In in Hd.
        eapply Permutation_in; [apply sort_desc_perm | exact Hd]. }
      apply find_recent_newest.
  - exists not_ready, st1. split.
    + unfold get_categories, bind at 1. rewrite E1. reflexivity.
    + left. split; [reflexivity | eauto].
Qed.

(* ================================================================== *)
(** * What [POST /categories] does to the store *)
(* ================================================================== *)

(** The route on a ready handle and a body that passes the test. *)
Lemma post_categories_ready (o : Oracle) (st : App) (req cn ws : option json) :
  destructure (body_or_empty req) "categoryName" = cn ->
  destructure (body_or_empty req) "words" = ws ->
  collectionPromise st = Some (Settled (Ok tt)) ->
  invalid cn ws = false ->
  post_categories req o st
  = match write_error (coll st) (posted cn ws (clock_src o (n_clock (sys st)))) with
    | None =>
        (Ok (created (next_id (coll st))),
         with_coll (with_sys st (tick (sys st)))
           (store (coll st) (posted cn ws (clock_src o (n_clock (sys st)))))
           [OpInsertOne (posted cn ws (clock_src o (n_clock (sys st))))])
    | Some e =>
        (Ok (if is_duplicate e then conflict else failed e),
         with_sys st (tick (sys st)))
    end.
Proof.
  intros Hcn Hws Hp Hinv.
  unfold post_categories, bind at 1. rewrite (ready_settled o st Hp).
  rewrite Hcn, Hws, Hinv.
  unfold try_catch, bind, lift, new_Date, insertOne.
  cbn [sys with_sys]. rewrite coll_with_sys.
  fold (posted cn ws (clock_src o (n_clock (sys st)))).
  destruct (write_error (coll st) _) as [e |]; [| reflexivity].
  unfold is_duplicate. destruct (match code e with Some c => _ | None => _ end);
    reflexivity.
Qed.

(** X3: posting the same valid body twice on a ready collection with
    the unique index (and a validator that lets the record through) makes
    the second request a 409 that stores nothing, whether the first one
    was answered 201 or 409. *)
Theorem post_twice_conflicts
  (o : Oracle) (st : App) (req cn ws : option json) :
  destructure (body_or_empty req) "categoryName" = cn ->
  destructure (body_or_empty req) "words" = ws ->
  collectionPromise st = Some (Settled (Ok tt)) ->
  unique_categoryName (coll st) = true ->
  invalid cn ws = false ->
  (forall t, passes (coll st) (posted cn ws t) = true) ->
  exists r1 st1 st2,
    post_categories req o st = (Ok r1, st1)
    /\ (r1 = created (next_id (coll st)) \/ r1 = conflict)
    /\ post_categories req o st1 = (Ok conflict, st2)
    /\ word_class st2 = word_class st1
    /\ oplog st2 = oplog st1.
Proof.
  intros Hcn Hws Hp Hu Hinv Hpass.
  rewrite (post_categories_ready o st req cn ws Hcn Hws Hp Hinv).
  assert (Hsecond : forall st1,
             collectionPromise st1 = Some (Settled (Ok tt)) ->
             unique_categoryName (coll st1) = true ->
             validator (coll st1) = validator (coll st) ->
             (exists d, In d (docs (coll st1))
                        /\ categoryName (fields d) = name_of cn) ->
             post_categories req o st1 = (Ok conflict, with_sys st1 (tick (sys st1)))).
  { intros st1 Hp1 Hu1 Hv1 (d & Hin & Hname).
    rewrite (post_categories_ready o st1 req cn ws Hcn Hws Hp1 Hinv).
    unfold write_error.
    assert (Hpass1 : passes (coll st1) (posted cn ws (clock_src o (n_clock (sys st1)))) = true).
    { unfold passes. rewrite Hv1. apply (Hpass (clock_src o (n_clock (sys st1)))). }
    rewrite Hpass1, Hu1.
    rewrite (duplicate_key_present
               (posted cn ws (clock_src o (n_clock (sys st1)))) d _ Hin Hname).
    reflexivity. }
  unfold write_error. rewrite (Hpass (clock_src o (n_clock (sys st)))), Hu.
  cbn [negb andb].
  set (x1 := posted cn ws (clock_src o (n_clock (sys st)))).
  destruct (duplicate_key x1 (docs (coll st))) eqn:Hdup.
  - apply existsb_exists in Hdup. destruct Hdup as (d & Hin & Hclash).
    exists conflict, (with_sys st (tick (sys st))),
      (with_sys (with_sys st (tick (sys st))) (tick (sys (with_sys st (tick (sys st)))))).
    split; [reflexivity |].
    split; [right; reflexivity |].
    rewrite (post_categories_ready o (with_sys st (tick (sys st))) req cn ws
               Hcn Hws Hp Hinv).
    rewrite coll_with_sys. unfold write_error.
    rewrite (Hpass _), Hu. cbn [negb andb].
    assert (Hdup2 : duplicate_key
                      (posted cn ws (clock_src o (n_clock (sys (with_sys st (tick (sys st)))))))
                      (docs (coll st)) = true).
    { apply existsb_exists. exists d. split; [exact Hin | exact Hclash]. }
    rewrite Hdup2. split; [reflexivity |]. split; reflexivity.
  - set (st1 := with_coll (with_sys st (tick (sys st))) (store (coll st) x1)
                  [OpInsertOne x1]).
    exists (created (next_id (coll st))), st1, (with_sys st1 (tick (sys st1))).
    split; [reflexivity |].
    split; [left; reflexivity |].
    split; [| split; reflexivity].
    apply Hsecond.
    + exact Hp.
    + exact Hu.
    + reflexivity.
    + exists {| _id := next_id (coll st); fields := x1 |}.
      split; [| reflexivity].
      unfold st1, coll, with_coll, store. cbn [word_class docs].
      apply in_or_app. right. left. reflexivity.
Qed.

Lemma post_twice_conflicts_witness :
  destructure (body_or_empty (Some body_x)) "categoryName" = Some (JStr "x")
  /\ destructure (body_or_empty (Some body_x)) "words" = Some (JArr [JStr "a"; JStr "b"])
  /\ collectionPromise (running recent) = Some (Settled (Ok tt))
  /\ unique_categoryName (coll (running recent)) = true
  /\ invalid (Some (JStr "x")) (Some (JArr [JStr "a"; JStr "b"])) = false
  /\ (forall t, passes (coll (running recent))
                  (posted (Some (JStr "x")) (Some (JArr [JStr "a"; JStr "b"])) t) = true)
  /\ exists r1 st1 st2,
      post_categories (Some body_x) offline (running recent) = (Ok r1, st1)
      /\ (r1 = created (next_id (coll (running recent))) \/ r1 = conflict)
      /\ post_categories (Some body_x) offline st1 = (Ok conflict, st2)
      /\ word_class st2 = word_class st1
      /\ oplog st2 = oplog st1.
Proof.
  split; [reflexivity |]. split; [reflexivity |]. split; [reflexivity |].
  split; [reflexivity |]. split; [reflexivity |].
  split; [intros t; reflexivity |].
  apply (post_twice_conflicts offline (running recent) (Some body_x)
           (Some (JStr "x")) (Some (JArr [JStr "a"; JStr "b"])));
    reflexivity.
Defined.

(** The newest record heads the sorted list. *)
Lemma sort_desc_head (l : list Doc) (d : Doc) :
  In d l ->
  exists t,
    lastCreatedAt (firstn 1 (sort_desc l)) = Some t
    /\ (createdAt (fields d) <= t)%Z.
Proof.
  intros Hin.
  assert (Hin' : In d (sort_desc l))
    by (eapply Permutation_in; [apply Permutation_sym, sort_desc_perm | exact Hin]).
  pose proof (sort_desc_sorted l) as Hs.
  destruct (sort_desc l) as [| h rest]; [contradiction |].
  exists (createdAt (fields h)). split; [reflexivity |].
  destruct Hin' as [-> | Hin']; [lia |].
  inversion Hs as [| ? ? _ Hall]; subst.
  rewrite Forall_forall in Hall. apply (Hall d Hin').
Qed.

(** X4: read your write.  After a [POST] answered 201 on a ready
    collection that then holds at most 1000 records, a [GET] whose clock
    reading is less than a day later and whose limit covers the count
    generates nothing, deletes nothing and returns the posted record, under
    the id the [POST] returned, in its body. *)
Theorem post_then_get_returns_record
  (o : Oracle) (st : App) (req cn ws : option json) (q : option string) :
  destructure (body_or_empty req) "categoryName" = cn ->
  destructure (body_or_empty req) "words" = ws ->
  collectionPromise st = Some (Settled (Ok tt)) ->
  invalid cn ws = false ->
  write_error (coll st) (posted cn ws (clock_src o (n_clock (sys st)))) = None ->
  List.length (docs (coll st)) < 1000 ->
  (clock_src o (S (n_clock (sys st))) - clock_src o (n_clock (sys st)) < oneDayMs)%Z ->
  (Z.of_nat (List.length (docs (coll st))) < parse_limit q)%Z ->
  exists st1 st2 found,
    post_categories req o st = (Ok (created (next_id (coll st))), st1)
    /\ get_categories q o st1 = (Ok {| status := 200; payload := Docs found |}, st2)
    /\ In {| _id := next_id (coll st);
             fields := posted cn ws (clock_src o (n_clock (sys st))) |} found
    /\ List.length found = S (List.length (docs (coll st)))
    /\ word_class st2 = word_class st1
    /\ oplog st2 = oplog st1.
Proof.
  intros Hcn Hws Hp Hinv Hw Hcount Hclock Hlimit.
  rewrite (post_categories_ready o st req cn ws Hcn Hws Hp Hinv), Hw.
  set (x := posted cn ws (clock_src o (n_clock (sys st)))).
  set (st1 := with_coll (with_sys st (tick (sys st))) (store (coll st) x)
                [OpInsertOne x]).
  set (d := {| _id := next_id (coll st); fields := x |}).
  assert (Hdocs : docs (coll st1) = (docs (coll st) ++ [d])%list) by reflexivity.
  assert (Hlen : List.length (docs (coll st1)) = S (List.length (docs (coll st))))
    by (rewrite Hdocs, length_app; simpl; lia).
  assert (Hin : In d (docs (coll st1)))
    by (rewrite Hdocs; apply in_or_app; right; left; reflexivity).
  assert (Hcap : (1000 <? List.length (docs (coll st1)))%nat = false)
    by (apply Nat.ltb_ge; lia).
  destruct (sort_desc_head (docs (coll st1)) d Hin) as (t & Ht & Hle).
  assert (Hstale : stale (clock_src o (n_clock (sys st1)))
                     (lastCreatedAt (firstn 1 (sort_desc (docs (coll st1))))) = false).
  { rewrite Ht. unfold stale. apply Z.leb_gt.
    change (n_clock (sys st1)) with (S (n_clock (sys st))).
    change (createdAt (fields d)) with (clock_src o (n_clock (sys st))) in Hle.
    lia. }
  exists st1, (with_sys st1 (tick (sys st1))), (sort_desc (docs (coll st1))).
  split; [reflexivity |].
  assert (Hall : firstn (Z.to_nat (parse_limit q)) (sort_desc (docs (coll st1)))
                 = sort_desc (docs (coll st1))).
  { apply firstn_all2.
    rewrite (Permutation_length (sort_desc_perm (docs (coll st1)))), Hlen. lia. }
  split.
  { unfold get_categories, bind at 1.
    rewrite (ready_settled o st1 Hp).
    unfold try_catch, bind.
    rewrite (ensureFresh_idle o st1 Hcap Hstale).
    unfold find_recent, ret. rewrite coll_with_sys, Hall. reflexivity. }
  split.
  { eapply Permutation_in; [apply Permutation_sym, sort_desc_perm | exact Hin]. }
  split; [rewrite (Permutation_length (sort_desc_perm _)); exact Hlen |].
  split; reflexivity.
Qed.

Lemma post_then_get_returns_record_witness :
  destructure (body_or_empty (Some body_x)) "categoryName" = Some (JStr "x")
  /\ destructure (body_or_empty (Some body_x)) "words" = Some (JArr [JStr "a"; JStr "b"])
  /\ collectionPromise (running recent) = Some (Settled (Ok tt))
  /\ invalid (Some (JStr "x")) (Some (JArr [JStr "a"; JStr "b"])) = false
  /\ write_error (coll (running recent))
       (posted (Some (JStr "x")) (Some (JArr [JStr "a"; JStr "b"]))
          (clock_src offline (n_clock (sys (running recent))))) = None
  /\ List.length (docs (coll (running recent))) < 1000
  /\ (clock_src offline (S (n_clock (sys (running recent))))
      - clock_src offline (n_clock (sys (running recent))) < oneDayMs)%Z
  /\ (Z.of_nat (List.length (docs (coll (running recent)))) < parse_limit None)%Z
  /\ exists st1 st2 found,
      post_categories (Some body_x) offline (running recent)
      = (Ok (created (next_id (coll (running recent)))), st1)
      /\ get_categories None offline st1
         = (Ok {| status := 200; payload := Docs found |}, st2)
      /\ In {| _id := next_id (coll (running recent));
               fields := posted (Some (JStr "x")) (Some (JArr [JStr "a"; JStr "b"]))
                           (clock_src offline (n_clock (sys (running recent)))) |} found
      /\ List.length found = S (List.length (docs (coll (running recent))))
      /\ word_class st2 = word_class st1
      /\ oplog st2 = oplog st1.
Proof.
  assert (H6 : List.length (docs (coll (running recent))) < 1000) by (simpl; lia).
  assert (H7 : (clock_src offline (S (n_clock (sys (running recent))))
                - clock_src offline (n_clock (sys (running recent))) < oneDayMs)%Z)
    by (vm_compute; reflexivity).
  assert (H8 : (Z.of_nat (List.length (docs (coll (running recent))))
                < parse_limit None)%Z) by (vm_compute; reflexivity).
  split; [reflexivity |]. split; [reflexivity |]. split; [reflexivity |].
  split; [reflexivity |]. split; [reflexivity |].
  split; [exact H6 |]. split; [exact H7 |]. split; [exact H8 |].
  exact (post_then_get_returns_record offline (running recent) (Some body_x)
           (Some (JStr "x")) (Some (JArr [JStr "a"; JStr "b"])) None
           eq_refl eq_refl eq_refl eq_refl eq_refl H6 H7 H8).
Defined.

(* ================================================================== *)
(** * Connection and initialisation *)
(* ================================================================== *)

Lemma init_body_outcome (o : Oracle) (st : App) :
  if connects o st
  then fst (init_body o st) = Ok tt
       /\ coll (snd (init_body o st)) = initialised o st
  else (exists e, fst (init_body o st) = Throw e)
       /\ word_class (snd (init_body o st)) = word_class st
       /\ oplog (snd (init_body o st)) = oplog st.
Proof.
  unfold connects, initialised, init_body, connectToDb, getClient, createIndex,
    try_catch, bind, lift, console_put.
  destruct (cachedClient st); simpl.
  2: destruct (key_set (ATLAS_URI o)); simpl.
  3: { split; [eexists; reflexivity | split; reflexivity]. }
  2: destruct (connect_src o (n_connect st)); simpl.
  2: { split; [eexists; reflexivity | split; reflexivity]. }
  all: destruct (word_class st) as [c |] eqn:Hw; simpl; unfold coll; simpl;
    rewrite ?Hw; simpl; [| split; reflexivity].
  all: destruct c as [ds u v nid]; simpl.
  all: destruct u; simpl; rewrite ?Hw; simpl; [split; reflexivity |].
  all: destruct (has_clash ds); simpl; rewrite ?Hw; simpl; split; reflexivity.
Qed.

(** X5: the first request settles the handle.  The handle is ready
    exactly when the client is cached or the connection attempt succeeds;
    a failing [createIndex] never makes it unready.  When it is ready the
    stored documents are untouched, a missing collection has been created
    with the validator, and the unique index exists unless two stored names
    clash; when it is not, the database is untouched. *)
Theorem ready_when_connected (o : Oracle) (st : App) :
  collectionPromise st = None ->
  exists st',
    ready o st = (Ok (connects o st), st')
    /\ inits st' = S (inits st)
    /\ if connects o st
       then collectionPromise st' = Some (Settled (Ok tt))
            /\ coll st' = initialised o st
       else (exists e, collectionPromise st' = Some (Settled (Throw e)))
            /\ word_class st' = word_class st
            /\ oplog st' = oplog st.
Proof.
  intros Hp.
  set (stp := with_promise st (Some Pending) (S (inits st))).
  pose proof (init_body_outcome o stp) as Hout.
  destruct (init_body_frame o stp) as (Hi & _ & _).
  change (connects o stp) with (connects o st) in Hout.
  change (initialised o stp) with (initialised o st) in Hout.
  unfold ready, try_catch, getCollection, bind, getCollection_start.
  rewrite Hp. fold stp. unfold settle. cbn [collectionPromise stp with_promise].
  destruct (init_body o stp) as [r st1] eqn:E1. cbn [fst snd] in Hout, Hi.
  unfold await_promise. cbn [collectionPromise with_promise].
  destruct (connects o st).
  - destruct Hout as [Hr Hc]. subst r.
    eexists. split; [reflexivity |]. split; [exact Hi |].
    split; [reflexivity | exact Hc].
  - destruct Hout as ((e & Hr) & Hw & Hop). subst r.
    eexists. split; [reflexivity |]. split; [exact Hi |].
    split; [exists e; reflexivity |]. split; assumption.
Qed.

Lemma ready_when_connected_witness :
  collectionPromise (cold duplicated) = None
  /\ exists st',
      ready offline (cold duplicated) = (Ok (connects offline (cold duplicated)), st')
      /\ inits st' = S (inits (cold duplicated))
      /\ if connects offline (cold duplicated)
         then collectionPromise st' = Some (Settled (Ok tt))
              /\ coll st' = initialised offline (cold duplicated)
         else (exists e, collectionPromise st' = Some (Settled (Throw e)))
              /\ word_class st' = word_class (cold duplicated)
              /\ oplog st' = oplog (cold duplicated).
Proof.
  split; [reflexivity |].
  exact (ready_when_connected offline (cold duplicated) eq_refl).
Defined.

Lemma getClient_cached (o : Oracle) (st : App) :
  cachedClient st = true -> getClient o st = (Ok tt, st).
Proof. intros Hc. unfold getClient. rewrite Hc. reflexivity. Qed.

Lemma getClient_calls_cached (o : Oracle) (k : nat) (st : App) :
  cachedClient st = true -> getClient_calls o k st = st.
Proof.
  intros Hc. induction k as [| k IH]; [reflexivity |].
  simpl. rewrite (getClient_cached o st Hc). exact IH.
Qed.

Lemma getClient_calls_failing (o : Oracle) (k : nat) (st : App) :
  key_set (ATLAS_URI o) = true ->
  cachedClient st = false ->
  (forall i, i < k -> connect_src o (n_connect st + i) <> None) ->
  getClient_calls o k st = with_client st false (n_connect st + k).
Proof.
  intros Hk. revert st. induction k as [| k IH]; intros st Hc Hfail.
  - simpl. rewrite Nat.add_0_r. destruct st; simpl in *. subst. reflexivity.
  - simpl. unfold getClient at 1. rewrite Hc, Hk. cbn [negb].
    pose proof (Hfail 0 ltac:(lia)) as H0. rewrite Nat.add_0_r in H0.
    destruct (connect_src o (n_connect st)) as [e |]; [| congruence].
    cbn [snd]. rewrite IH.
    + unfold with_client. cbn. f_equal. lia.
    + reflexivity.
    + intros i Hi. cbn [n_connect with_client].
      replace (S (n_connect st) + i) with (n_connect st + S i) by lia.
      apply Hfail. lia.
Qed.

Lemma getClient_calls_snoc (o : Oracle) (k : nat) (st : App) :
  getClient_calls o (S k) st = snd (getClient o (getClient_calls o k st)).
Proof.
  revert st. induction k as [| k IH]; intros st; [reflexivity |].
  change (getClient_calls o (S (S k)) st)
    with (getClient_calls o (S k) (snd (getClient o st))).
  rewrite IH. reflexivity.
Qed.

(** X6: [getClient()] of [db/connect.js] caches a success and nothing
    else.  While the connection attempts fail, every call makes a new
    attempt and the client stays uncached; the first attempt that succeeds
    is cached, and from then on no call connects again, whatever would
    happen to a new attempt. *)
Theorem getClient_retries_until_connected (o : Oracle) (st : App) (k j : nat) :
  key_set (ATLAS_URI o) = true ->
  cachedClient st = false ->
  (forall i, i < k -> connect_src o (n_connect st + i) <> None) ->
  connect_src o (n_connect st + k) = None ->
  cachedClient (getClient_calls o k st) = false
  /\ n_connect (getClient_calls o k st) = n_connect st + k
  /\ fst (getClient o (getClient_calls o k st)) = Ok tt
  /\ cachedClient (getClient_calls o (S k) st) = true
  /\ n_connect (getClient_calls o (S k) st) = n_connect st + S k
  /\ (forall o', getClient_calls o' j (getClient_calls o (S k) st)
                 = getClient_calls o (S k) st).
Proof.
  intros Hk Hc Hfail Hok.
  pose proof (getClient_calls_failing o k st Hk Hc Hfail) as H3.
  assert (Hstep : getClient o (getClient_calls o k st)
                  = (Ok tt, with_client (getClient_calls o k st) true
                              (S (n_connect st + k)))).
  { rewrite H3. unfold getClient. cbn [cachedClient n_connect with_client].
    rewrite Hk, Hok. reflexivity. }
  rewrite getClient_calls_snoc, Hstep. cbn [fst snd].
  split; [rewrite H3; reflexivity |].
  split; [rewrite H3; reflexivity |].
  split; [reflexivity |].
  split; [reflexivity |].
  split; [cbn; lia |].
  intros o'. apply getClient_calls_cached. reflexivity.
Qed.

Lemma getClient_retries_until_connected_witness :
  key_set (ATLAS_URI flaky) = true
  /\ cachedClient fresh_app = false
  /\ (forall i, i < 1 -> connect_src flaky (n_connect fresh_app + i) <> None)
  /\ connect_src flaky (n_connect fresh_app + 1) = None
  /\ cachedClient (getClient_calls flaky 1 fresh_app) = false
  /\ n_connect (getClient_calls flaky 1 fresh_app) = n_connect fresh_app + 1
  /\ fst (getClient flaky (getClient_calls flaky 1 fresh_app)) = Ok tt
  /\ cachedClient (getClient_calls flaky 2 fresh_app) = true
  /\ n_connect (getClient_calls flaky 2 fresh_app) = n_connect fresh_app + 2
  /\ (forall o', getClient_calls o' 3 (getClient_calls flaky 2 fresh_app)
                 = getClient_calls flaky 2 fresh_app).
Proof.
  assert (H3 : forall i, i < 1 -> connect_src flaky (n_connect fresh_app + i) <> None).
  { intros i Hi. destruct i as [| i]; [discriminate | lia]. }
  split; [reflexivity |]. split; [reflexivity |]. split; [exact H3 |].
  split; [reflexivity |].
  exact (getClient_retries_until_connected flaky fresh_app 1 3 eq_refl eq_refl H3 eq_refl).
Defined.

Lemma init_body_leaves_schema (o : Oracle) (st : App) :
  fst (init_body o st) = Ok tt ->
  exists c,
    word_class (snd (init_body o st)) = Some c
    /\ (unique_categoryName c = true \/ has_clash (docs c) = true).
Proof.
  unfold init_body, connectToDb, getClient, createIndex, try_catch, bind, lift,
    console_put.
  destruct (cachedClient st); simpl.
  2: destruct (key_set (ATLAS_URI o)); simpl; [| discriminate].
  2: destruct (connect_src o (n_connect st)); simpl; [discriminate |].
  all: destruct (word_class st) as [c |] eqn:Hw; simpl; unfold coll; simpl;
    rewrite ?Hw; simpl; [| intros _; eexists; split; [reflexivity | left; reflexivity]].
  all: destruct (unique_categoryName c) eqn:Hu; simpl; rewrite ?Hw; simpl;
    [intros _; exists c; split; [reflexivity | left; exact Hu] |].
  all: destruct (has_clash (docs c)) eqn:Hc; simpl; rewrite ?Hw; simpl; intros _;
    eexists; (split; [reflexivity |]); [right; exact Hc | left; reflexivity].
Qed.

Lemma init_body_on_schema (o : Oracle) (st : App) (c : Collection) :
  word_class st = Some c ->
  unique_categoryName c = true \/ has_clash (docs c) = true ->
  word_class (snd (init_body o st)) = Some c
  /\ oplog (snd (init_body o st)) = oplog st.
Proof.
  intros Hw Hc.
  assert (Hidx : unique_categoryName c = true
                 \/ (unique_categoryName c = false /\ has_clash (docs c) = true)).
  { destruct (unique_categoryName c); [left; reflexivity |].
    destruct Hc as [Hc | Hc]; [discriminate | right; split; [reflexivity | exact Hc]]. }
  unfold init_body, connectToDb, getClient, createIndex, try_catch, bind, lift,
    console_put.
  destruct (cachedClient st); simpl.
  2: destruct (key_set (ATLAS_URI o)); simpl; [| split; [first [exact Hw | reflexivity] | reflexivity]].
  2: destruct (connect_src o (n_connect st)); simpl; [split; [first [exact Hw | reflexivity] | reflexivity] |].
  all: rewrite Hw; simpl; unfold coll; simpl; rewrite ?Hw; simpl.
  all: destruct Hidx as [Hu | [Hu Hcl]]; rewrite Hu; simpl; rewrite ?Hw; simpl;
    [split; [first [exact Hw | reflexivity] | reflexivity] |].
  all: rewrite Hcl; simpl; rewrite ?Hw; split; [first [exact Hw | reflexivity] | reflexivity].
Qed.

(** X7: the initialisation is idempotent on the database.  Once it has
    succeeded, running it again on the database it left, from any process
    state (the client cached or not, the connection working or not),
    changes neither the collection, its validator and its index nor sends
    any command that changes the database. *)
Theorem init_body_idempotent (o o' : Oracle) (st st2 : App) :
  fst (init_body o st) = Ok tt ->
  word_class st2 = word_class (snd (init_body o st)) ->
  word_class (snd (init_body o' st2)) = word_class st2
  /\ oplog (snd (init_body o' st2)) = oplog st2.
Proof.
  intros Hok Hsame.
  destruct (init_body_leaves_schema o st Hok) as (c & Hw & Hc).
  rewrite Hw in Hsame.
  destruct (init_body_on_schema o' st2 c Hsame Hc) as [H1 H2].
  split; [congruence | exact H2].
Qed.

Lemma init_body_idempotent_witness :
  fst (init_body offline fresh_app) = Ok tt
  /\ word_class (snd (init_body offline fresh_app))
     = word_class (snd (init_body offline fresh_app))
  /\ word_class (snd (init_body flaky (snd (init_body offline fresh_app))))
     = word_class (snd (init_body offline fresh_app))
  /\ oplog (snd (init_body flaky (snd (init_body offline fresh_app))))
     = oplog (snd (init_body offline fresh_app)).
Proof.
  split; [reflexivity |]. split; [reflexivity |].
  exact (init_body_idempotent offline flaky fresh_app
           (snd (init_body offline fresh_app)) eq_refl eq_refl).
Defined.

(* ================================================================== *)
(** * What the generators consume *)
(* ================================================================== *)

Lemma append_empty_r (s : string) : s ++ "" = s.
Proof. induction s as [| c s IH]; simpl; [reflexivity | rewrite IH; reflexivity]. Qed.

Lemma pool_index_in (k : Z) :
  (0 <= k < two53)%Z ->
  In (at_index wordsPool (Z.to_nat (floor_times k (Z.of_nat (List.length wordsPool)))))
     wordsPool.
Proof.
  intros Hk. apply nth_In.
  pose proof (floor_times_range k (Z.of_nat (List.length wordsPool)) Hk ltac:(simpl; lia)).
  lia.
Qed.

Lemma random_in_range (o : Oracle) (s : Sys) :
  (0 <= random_src o (n_random s) mod two53 < two53)%Z.
Proof. apply Z.mod_pos_bound. reflexivity. Qed.

Lemma draw_word_runs (o : Oracle) (s : Sys) :
  exists w s', draw_word o s = (Ok w, s') /\ pool_word w /\ drew 2 3 s s'.
Proof.
  unfold draw_word, bind, Math_random. cbn [n_random].
  pose proof (random_in_range o s) as Hr1.
  destruct (lt_tenth _) eqn:Ht.
  - eexists _, _. split; [reflexivity |]. split.
    + eexists. split; [apply pool_index_in; exact Hr1 |].
      right. eexists. split; [| reflexivity].
      apply floor_times_range; [apply Z.mod_pos_bound; reflexivity | lia].
    + unfold drew; simpl. repeat split; lia.
  - eexists _, _. split; [reflexivity |]. split.
    + eexists. split; [apply pool_index_in; exact Hr1 |].
      left. apply append_empty_r.
    + unfold drew; simpl. repeat split; lia.
Qed.

Lemma draw_words_runs (k : nat) (o : Oracle) (s : Sys) :
  exists ws s',
    draw_words k o s = (Ok ws, s')
    /\ List.length ws = k
    /\ Forall pool_word ws
    /\ drew (2 * k) (3 * k) s s'.
Proof.
  revert s. induction k as [| k IH]; intros s.
  - exists [], s. split; [reflexivity |]. split; [reflexivity |].
    split; [constructor |]. unfold drew. repeat split; lia.
  - destruct (draw_word_runs o s) as (w & s1 & E1 & Hw & D1).
    destruct (IH s1) as (ws & s2 & E2 & Hl & Hws & D2).
    exists (w :: ws), s2. cbn [draw_words]. unfold bind. rewrite E1, E2.
    split; [reflexivity |]. split; [simpl; congruence |].
    split; [constructor; assumption |].
    unfold drew in *.
    destruct D1 as (A1 & A2 & A3 & A4 & A5 & A6).
    destruct D2 as (B1 & B2 & B3 & B4 & B5 & B6).
    repeat split; try lia; congruence.
Qed.

Lemma Set_from_subset (xs seen : list string) (P : string -> Prop) :
  Forall P xs -> Forall P (Set_from seen xs).
Proof.
  intros H. rewrite Forall_forall in *. intros x Hx.
  apply Set_from_fresh in Hx. apply H. apply Hx.
Qed.

Lemma Forall_firstn {A} (P : A -> Prop) (k : nat) (l : list A) :
  Forall P l -> Forall P (firstn k l).
Proof.
  intros H. rewrite Forall_forall in *. intros x Hx. apply H.
  eapply firstn_In. exact Hx.
Qed.

Lemma fallback_record_runs (i : nat) (o : Oracle) (s : Sys) :
  exists c s',
    fallback_record i o s = (Ok c, s')
    /\ Forall pool_word (words c)
    /\ n_clock s' = S (n_clock s)
    /\ createdAt c = clock_src o (n_clock s)
    /\ n_random s + 11 <= n_random s'
    /\ n_gemini s' = n_gemini s
    /\ n_mistral s' = n_mistral s
    /\ console s' = console s.
Proof.
  unfold fallback_record, bind at 1, Math_random.
  set (s1 := {| n_random := S (n_random s); n_clock := n_clock s;
                n_gemini := n_gemini s; n_mistral := n_mistral s;
                console := console s |}).
  destruct (draw_words_runs (5 + i mod 16) o s1) as (ws & s2 & E2 & Hl & Hws & D2).
  unfold bind, new_Date, ret. rewrite E2.
  eexists _, _. split; [reflexivity |]. cbn [words createdAt n_clock n_random
    n_gemini n_mistral console].
  unfold drew in D2. cbn [s1 n_random n_clock n_gemini n_mistral console] in D2.
  destruct D2 as (Hlo & Hhi & Hck & Hg & Hm & Hc).
  split; [apply Forall_firstn, Set_from_subset; exact Hws |].
  repeat split; try congruence; lia.
Qed.

Lemma fallback_loop_runs (l : list nat) (o : Oracle) (s : Sys) :
  exists out s',
    mapM fallback_record l o s = (Ok out, s')
    /\ List.length out = List.length l
    /\ Forall (fun c => Forall pool_word (words c)) out
    /\ Forall (fun c => (exists j, j < List.length l
                                   /\ createdAt c = clock_src o (n_clock s + j))) out
    /\ n_clock s' = n_clock s + List.length l
    /\ n_random s + 11 * List.length l <= n_random s'
    /\ n_gemini s' = n_gemini s
    /\ n_mistral s' = n_mistral s
    /\ console s' = console s.
Proof.
  revert s. induction l as [| i rest IH]; intros s.
  - exists [], s. split; [reflexivity |]. simpl. repeat split; auto; lia.
  - destruct (fallback_record_runs i o s)
      as (c & s1 & E1 & Hw & Hck & Hat & Hr & Hg & Hm & Hc).
    destruct (IH s1) as (out & s2 & E2 & Hl & Hws & Hats & Hck2 & Hr2 & Hg2 & Hm2 & Hc2).
    exists (c :: out), s2. cbn [mapM]. unfold bind. rewrite E1, E2.
    split; [reflexivity |]. simpl.
    split; [congruence |].
    split; [constructor; assumption |].
    split.
    { constructor.
      - exists 0. split; [lia |]. rewrite Nat.add_0_r. exact Hat.
      - eapply Forall_impl; [| exact Hats]. intros c' (j & Hj & Hcj).
        exists (S j). split; [lia |]. rewrite Hcj, Hck. f_equal. lia. }
    repeat split; try congruence; lia.
Qed.

Lemma Set_from_In (xs seen : list string) (x : string) :
  In x xs -> ~ In x seen -> In x (Set_from seen xs).
Proof.
  revert seen. induction xs as [| y rest IH]; intros seen Hx Hn; [destruct Hx |].
  cbn [Set_from]. destruct (existsb (String.eqb y) seen) eqn:E.
  - apply existsb_eqb_In in E. destruct Hx as [-> | Hx]; [contradiction |].
    apply IH; assumption.
  - destruct (string_dec y x) as [-> | Hne]; [left; reflexivity |].
    destruct Hx as [-> | Hx]; [congruence |].
    right. apply IH; [exact Hx |]. intros [-> | Hin]; [congruence | contradiction].
Qed.

(** The loop body at index [i], from any state. *)
Lemma fallback_record_drawn (i : nat) (o : Oracle) (s : Sys) :
  exists c s', fallback_record i o s = (Ok c, s') /\ fallback_drawn o s i c.
Proof.
  unfold fallback_record, bind at 1.
  destruct (Math_random o s) as [[r | e] s1] eqn:E1; [| discriminate E1].
  destruct (draw_words_runs (5 + i mod 16) o s1) as (ws & s2 & E2 & Hl & Hws & _).
  unfold bind, new_Date, ret. rewrite E2.
  assert (Hi : i mod 16 < 16) by (apply Nat.mod_upper_bound; lia).
  assert (Hfull : firstn 20 (Set_from [] ws) = Set_from [] ws).
  { apply firstn_all2. pose proof (Set_from_length ws []). lia. }
  eexists _, _. split; [reflexivity |].
  exists r, s1, ws, s2. rewrite Hfull.
  split; [exact E1 |]. split; [exact E2 |]. split; [exact Hl |].
  split; [exact Hws |]. split; [reflexivity |]. cbn [words].
  split; [apply Set_from_NoDup |].
  intros w. split.
  - intros Hw. apply (Set_from_fresh ws [] w Hw).
  - intros Hw. apply Set_from_In; [exact Hw | intros []].
Qed.

Lemma mapM_split {S A B} (f : A -> M S B) (l1 l2 : list A) (x : A)
  (o : Oracle) (s s' : S) (out : list B) :
  mapM f (l1 ++ x :: l2) o s = (Ok out, s') ->
  exists pre s1 y s2 post,
    mapM f l1 o s = (Ok pre, s1)
    /\ f x o s1 = (Ok y, s2)
    /\ out = (pre ++ y :: post)%list
    /\ List.length pre = List.length l1.
Proof.
  revert s out. induction l1 as [| a l1 IH]; intros s out E.
  - cbn [app mapM] in E. unfold bind in E.
    destruct (f x o s) as [[y | e] s2] eqn:Ex; [| discriminate E].
    destruct (mapM f l2 o s2) as [[post | e] s3]; [| discriminate E].
    unfold ret in E. inversion E; subst.
    exists [], s, y, s2, post. repeat split; auto.
  - cbn [app mapM] in E. unfold bind in E.
    destruct (f a o s) as [[b | e] sa] eqn:Ea; [| discriminate E].
    destruct (mapM f (l1 ++ x :: l2) o sa) as [[rest | e] sb] eqn:Er;
      [| discriminate E].
    unfold ret in E. inversion E; subst.
    destruct (IH sa rest Er) as (pre & s1 & y & s2 & post & E1 & Ex & Hout & Hl).
    exists (b :: pre), s1, y, s2, post.
    cbn [mapM]. unfold bind. rewrite Ea, E1. unfold ret.
    split; [reflexivity |]. split; [exact Ex |].
    split; [rewrite Hout; reflexivity | simpl; congruence].
Qed.

(** C7, as amended: for every [n] the fallback generator returns [n]
    records; the record at index [i] is named by the [i mod 13]-th adjective,
    the [i mod 14]-th noun and a number below 10000, carries the
    [No-ai-fallback] tag, and holds the distinct words among
    [5 + i mod 16] draws (5 to 20 draws): between 1 and [5 + i mod 16]
    words, none repeated.  Record [i] is built from the state the first
    [i] records leave: its words are exactly the different words among
    the [5 + i mod 16] pool words drawn there, each kept once, in the order
    of their first draw. *)
Theorem fallbackGenerate_records (o : Oracle) (s : Sys) (n : nat) :
  exists out s',
    fallbackGenerate n o s = (Ok out, s')
    /\ List.length out = n
    /\ Forall2 fallback_shape (seq 0 n) out
    /\ forall i, i < n ->
         exists s_i c,
           fallbackGenerate i o s = (Ok (firstn i out), s_i)
           /\ nth_error out i = Some c
           /\ fallback_drawn o s_i i c.
Proof.
  destruct (fallbackGenerate_shape n o s) as (out & s' & E & Hout).
  exists out, s'. split; [exact E |].
  assert (Hlen : List.length out = n)
    by (rewrite (Forall2_length_eq _ _ _ Hout); apply length_seq).
  split; [exact Hlen |]. split; [exact Hout |].
  intros i Hi.
  assert (Hseq : seq 0 n = (seq 0 i ++ i :: seq (S i) (n - S i))%list).
  { replace n with (i + S (n - S i)) at 1 by lia.
    rewrite seq_app. reflexivity. }
  unfold fallbackGenerate in E. rewrite Hseq in E.
  destruct (mapM_split _ _ _ _ _ _ _ _ E)
    as (pre & s_i & y & s2 & post & Epre & Ey & Ho & Hl).
  rewrite length_seq in Hl.
  destruct (fallback_record_drawn i o s_i) as (c & s2' & Ec & Hc).
  rewrite Ey in Ec. inversion Ec; subst y s2'.
  exists s_i, c.
  assert (Hfirst : firstn i out = pre).
  { rewrite Ho, <- Hl. rewrite firstn_app, Nat.sub_diag, firstn_all.
    cbn [firstn]. apply app_nil_r. }
  split; [unfold fallbackGenerate; rewrite Hfirst; exact Epre |].
  split; [| exact Hc].
  rewrite Ho, nth_error_app2 by lia. rewrite Hl, Nat.sub_diag. reflexivity.
Qed.

(** X8: every word of every record of the fallback generator is a word
    of the pool, as it is or followed by an underscore and a number below
    100; no other text is ever produced. *)
Theorem fallback_words_from_pool (o : Oracle) (s : Sys) (n : nat) :
  exists out s',
    fallbackGenerate n o s = (Ok out, s')
    /\ Forall (fun c => Forall pool_word (words c)) out.
Proof.
  destruct (fallback_loop_runs (seq 0 n) o s) as (out & s' & E & _ & Hw & _).
  exists out, s'. split; [exact E | exact Hw].
Qed.

(** X9: with no provider key configured, [generateCategories(n)] asks
    no provider and logs nothing; it reads the clock exactly [n] times,
    once per record, each record carrying one of these readings as its
    [createdAt], and draws at least [11 n] random numbers. *)
Theorem generateCategories_offline_footprint (o : Oracle) (s : Sys) (n : nat) :
  no_keys o = true ->
  exists out s',
    generateCategories n o s = (Ok out, s')
    /\ n_gemini s' = n_gemini s
    /\ n_mistral s' = n_mistral s
    /\ console s' = console s
    /\ n_clock s' = n_clock s + n
    /\ n_random s + 11 * n <= n_random s'
    /\ Forall (fun c => exists j, j < n
                                  /\ createdAt c = clock_src o (n_clock s + j)) out.
Proof.
  intros Hno. unfold no_keys in Hno. apply andb_prop in Hno. destruct Hno as [Hg Hm].
  apply negb_true_iff in Hg, Hm.
  rewrite (generateCategories_no_keys o s n Hg Hm).
  destruct (fallback_loop_runs (seq 0 n) o s)
    as (out & s' & E & _ & _ & Hat & Hck & Hr & Hg' & Hm' & Hc).
  rewrite length_seq in *.
  exists out, s'. unfold fallbackGenerate. rewrite E. repeat split; assumption.
Qed.

Lemma generateCategories_offline_footprint_witness :
  no_keys offline = true
  /\ exists out s',
      generateCategories 4 offline boot = (Ok out, s')
      /\ n_gemini s' = n_gemini boot
      /\ n_mistral s' = n_mistral boot
      /\ console s' = console boot
      /\ n_clock s' = n_clock boot + 4
      /\ n_random boot + 11 * 4 <= n_random s'
      /\ Forall (fun c => exists j, j < 4
                                    /\ createdAt c = clock_src offline (n_clock boot + j)) out.
Proof.
  split; [reflexivity |].
  exact (generateCategories_offline_footprint offline boot 4 eq_refl).
Defined.

Lemma mapM_normalize_full (tag : string) (items : list json) :
  first_error items = None ->
  forall o s, exists batch s',
    mapM (normalize tag) items o s = (Ok batch, s')
    /\ Forall2 (normalized tag) items batch
    /\ n_clock s' = n_clock s + List.length items
    /\ n_random s' = n_random s
    /\ n_gemini s' = n_gemini s
    /\ n_mistral s' = n_mistral s
    /\ console s' = console s.
Proof.
  induction items as [| x rest IH]; intros E o s; simpl in E.
  - exists [], s. split; [reflexivity |]. split; [constructor |].
    simpl. repeat split; lia.
  - cbn [mapM]. unfold bind at 1.
    destruct (normalize_fields x) as [[name ws] | e'] eqn:Ex; [| discriminate].
    rewrite (normalize_ok tag x _ o s Ex).
    destruct (IH E o (tick s)) as (batch & s' & E' & HF & Hck & Hr & Hg & Hm & Hc).
    eexists _, s'. unfold bind at 1. rewrite E'. unfold ret.
    split; [reflexivity |].
    split.
    { constructor; [| exact HF]. exists name, ws. repeat split; assumption. }
    simpl in *. repeat split; try congruence; lia.
Qed.

(** X10: Gemini has precedence and the requested count plays no role.
    When the Gemini key is set and the reply parses to an array whose items
    all normalise, [generateCategories(n)] returns exactly these items, in
    order, normalised and tagged [gemini], whatever [n] is; Mistral is not
    asked, no random number is drawn, nothing is logged, and the clock is
    read once per item. *)
Theorem gemini_batch_returned_as_is
  (o : Oracle) (s : Sys) (n : nat) (items : list json) :
  key_set (GEMINI_API_KEY o) = true ->
  gemini_src o (n_gemini s) = Text (Ok (JArr items)) ->
  first_error items = None ->
  exists batch s',
    generateCategories n o s = (Ok batch, s')
    /\ Forall2 (normalized "gemini") items batch
    /\ n_gemini s' = S (n_gemini s)
    /\ n_mistral s' = n_mistral s
    /\ n_random s' = n_random s
    /\ console s' = console s
    /\ n_clock s' = n_clock s + List.length items.
Proof.
  intros Hk Hr Hf.
  destruct (mapM_normalize_full "gemini" items Hf o (asked Gemini s))
    as (batch & s' & E & HF & Hck & Hrn & Hg & Hm & Hc).
  exists batch, s'. split.
  - unfold generateCategories, bind at 1, provider_attempt, bind at 1, ask.
    cbn [api_key]. rewrite Hk. unfold try_catch, bind at 1, request.
    cbn [reply_of]. rewrite Hr. unfold bind at 1, liftR, bind at 1, parsed_map.
    cbn [provider_tag]. rewrite E. reflexivity.
  - cbn [asked n_clock n_random n_gemini n_mistral console] in *.
    repeat split; assumption.
Qed.

Lemma gemini_batch_returned_as_is_witness :
  key_set (GEMINI_API_KEY (with_gemini (Text (Ok (JArr [fruits_item]))))) = true
  /\ gemini_src (with_gemini (Text (Ok (JArr [fruits_item])))) (n_gemini boot)
     = Text (Ok (JArr [fruits_item]))
  /\ first_error [fruits_item] = None
  /\ exists batch s',
      generateCategories 100 (with_gemini (Text (Ok (JArr [fruits_item])))) boot
      = (Ok batch, s')
      /\ Forall2 (normalized "gemini") [fruits_item] batch
      /\ n_gemini s' = S (n_gemini boot)
      /\ n_mistral s' = n_mistral boot
      /\ n_random s' = n_random boot
      /\ console s' = console boot
      /\ n_clock s' = n_clock boot + List.length [fruits_item].
Proof.
  split; [reflexivity |]. split; [reflexivity |]. split; [reflexivity |].
  exact (gemini_batch_returned_as_is (with_gemini (Text (Ok (JArr [fruits_item]))))
           boot 100 [fruits_item] eq_refl eq_refl eq_refl).
Defined.

(* ================================================================== *)
(** * How many records the capacity branch removes *)
(* ================================================================== *)









(** What [insertMany] stores goes to the end, under ids not used before. *)
Lemma insert_unordered_fresh (batch : list Category) (c : Collection) :
  exists added,
    docs (fst (insert_unordered c batch)) = (docs c ++ added)%list
    /\ List.length added <= List.length batch
    /\ Forall (fun d => In (fields d) batch) added
    /\ Forall (fun d => next_id c <= _id d) added
    /\ next_id c <= next_id (fst (insert_unordered c batch)).
Proof.
  revert c. induction batch as [| x rest IH]; intros c; cbn [insert_unordered].
  - exists []. cbn. rewrite app_nil_r. repeat split; auto.
  - destruct (write_error c x) as [e |].
    + destruct (IH c) as (added & Hd & Hl & Hf & Hi & Hn).
      destruct (insert_unordered c rest) as [c' e']. cbn [fst] in *.
      exists added. split; [exact Hd |]. split; [cbn; lia |].
      split; [| split; assumption].
      eapply Forall_impl; [| exact Hf]. intros d Hin. right. exact Hin.
    + destruct (IH (store c x)) as (added & Hd & Hl & Hf & Hi & Hn).
      destruct (insert_unordered (store c x) rest) as [c' e']. cbn [fst] in *.
      unfold store in Hd, Hi, Hn. cbn [docs next_id] in Hd, Hi, Hn.
      exists ({| _id := next_id c; fields := x |} :: added).
      split; [rewrite Hd, <- app_assoc; reflexivity |].
      split; [cbn; lia |].
      split.
      { constructor; [left; reflexivity |].
        eapply Forall_impl; [| exact Hf]. intros d Hin. right. exact Hin. }
      split; [| lia].
      constructor; [cbn; lia |].
      eapply Forall_impl; [| exact Hi]. intros d Hle. cbn beta in *. lia.
Qed.

Lemma insertMany_tolerant_fresh (label : string) (batch : list Category) o st :
  exists st' added,
    insertMany_tolerant label batch o st = (Ok tt, st')
    /\ oplog st' = (oplog st ++ sent batch)%list
    /\ docs (coll st') = (docs (coll st) ++ added)%list
    /\ List.length added <= List.length batch
    /\ Forall (fun d => In (fields d) batch) added
    /\ Forall (fun d => next_id (coll st) <= _id d) added
    /\ next_id (coll st) <= next_id (coll st').
Proof.
  unfold insertMany_tolerant, try_catch, insertMany.
  destruct batch as [| x rest].
  - eexists _, []. split; [reflexivity |]. cbn.
    rewrite !app_nil_r. repeat split; auto.
  - destruct (insert_unordered_fresh (x :: rest) (coll st))
      as (added & Hd & Hl & Hf & Hi & Hn).
    destruct (insert_unordered (coll st) (x :: rest)) as [c' err].
    cbn [fst] in *.
    destruct err as [e |]; eexists _, added; (split; [reflexivity |]);
      cbn; repeat split; auto.
Qed.

Section RefreshSteps.

Variable o : Oracle.
Variable gen : G (list Category).
Variable Q : list Category -> Prop.
Hypothesis gen_runs : forall s, exists b s', gen o s = (Ok b, s') /\ Q b.

(** Generate a batch, then insert it, errors tolerated. *)
Lemma insert_step (label : string) (st : App) :
  exists b st' added,
    (bind (lift gen) (fun newCats => insertMany_tolerant label newCats)) o st
    = (Ok tt, st')
    /\ Q b
    /\ oplog st' = (oplog st ++ sent b)%list
    /\ docs (coll st') = (docs (coll st) ++ added)%list
    /\ List.length added <= List.length b
    /\ Forall (fun d => In (fields d) b) added
    /\ Forall (fun d => next_id (coll st) <= _id d) added
    /\ next_id (coll st) <= next_id (coll st').
Proof.
  destruct (gen_runs (sys st)) as (b & s' & E & Hb).
  destruct (insertMany_tolerant_fresh label b o (with_sys st s'))
    as (st' & added & E' & Hop & Hd & Hl & Hf & Hi & Hn).
  exists b, st', added. split.
  { unfold bind, lift. rewrite E. exact E'. }
  split; [exact Hb |]. repeat split; assumption.
Qed.

(** Sample 100 ids, delete them, generate a batch and insert it. *)
Lemma prune_step (label : string) (st : App) :
  1000 < List.length (docs (coll st)) ->
  let removed := take_sample (sample_src o) (n_sample st) 100 (docs (coll st)) in
  exists b st' added,
    (bind (aggregate_sample 100)
       (fun ids =>
          bind (match ids with
                | [] => ret tt
                | _ :: _ => deleteMany ids
                end)
            (fun _ =>
               bind (lift gen) (fun newCats => insertMany_tolerant label newCats))))
      o st
    = (Ok tt, st')
    /\ Q b
    /\ List.length removed = 100
    /\ oplog st' = (oplog st ++ OpDeleteMany (map _id removed) :: sent b)%list
    /\ docs (coll st') = (kept (map _id removed) (docs (coll st)) ++ added)%list
    /\ List.length added <= List.length b
    /\ Forall (fun d => In (fields d) b) added
    /\ Forall (fun d => next_id (coll st) <= _id d) added
    /\ next_id (coll st) <= next_id (coll st').
Proof.
  intros Hcount removed.
  assert (Hlen : List.length removed = 100).
  { unfold removed. rewrite take_sample_length. lia. }
  assert (Eagg : aggregate_sample 100 o st
                 = (Ok (map _id removed), with_sample st (n_sample st + 100)))
    by reflexivity.
  clearbody removed.
  assert (Hne : map _id removed <> []).
  { intros Hnil. apply (f_equal (@List.length nat)) in Hnil.
    rewrite length_map, Hlen in Hnil. discriminate Hnil. }
  remember (snd (deleteMany (map _id removed) o (with_sample st (n_sample st + 100))))
    as st2 eqn:E2.
  destruct (insert_step label st2)
    as (b & st' & added & E & Hb & Hop & Hd & Hl & Hf & Hi & Hn).
  exists b, st', added. split.
  { unfold bind at 1. rewrite Eagg.
    rewrite (delete_if_any _ Hne). unfold bind at 1.
    assert (Hdel : deleteMany (map _id removed) o (with_sample st (n_sample st + 100))
                   = (Ok tt, st2))
      by (subst st2; reflexivity).
    rewrite Hdel. exact E. }
  subst st2. simpl in Hop, Hd, Hi, Hn.
  split; [exact Hb |]. split; [exact Hlen |].
  split; [rewrite Hop, <- app_assoc; reflexivity |].
  split; [exact Hd |]. repeat split; assumption.
Qed.

End RefreshSteps.




(* ================================================================== *)
(** * The first call on an empty store *)
(* ================================================================== *)

Lemma before_space_tail (x rest : string) (k : nat) :
  no_space x = true ->
  before_space k (x ++ rest) = x ++ before_space k rest.
Proof.
  induction x as [| c x IH]; simpl; intros H; [reflexivity |].
  apply andb_prop in H. destruct H as [Hc Hx].
  apply negb_true_iff in Hc. rewrite Hc. rewrite (IH Hx). reflexivity.
Qed.

Lemma before_space_stem (x y rest : string) :
  no_space x = true -> no_space y = true ->
  before_space 1 (x ++ " " ++ y ++ " " ++ rest) = x ++ " " ++ y.
Proof.
  intros Hx Hy. rewrite (before_space_tail x _ 1 Hx). f_equal.
  cbn [append before_space]. change (Ascii.eqb " " " ") with true. cbv iota.
  f_equal. rewrite (before_space_tail y _ 0 Hy).
  cbn [append before_space]. change (Ascii.eqb " " " ") with true. cbv iota.
  apply append_empty_r.
Qed.

Lemma pools_without_space :
  forallb no_space adjectives = true /\ forallb no_space nouns = true.
Proof. split; reflexivity. Qed.

Lemma at_index_no_space (l : list string) (i : nat) :
  forallb no_space l = true -> i < List.length l -> no_space (at_index l i) = true.
Proof.
  intros Hl Hi. rewrite forallb_forall in Hl. apply Hl. apply nth_In. exact Hi.
Qed.

(** The name at index [i] starts with the stem of [i]. *)
Lemma fallback_shape_stem (i : nat) (c : Category) :
  fallback_shape i c ->
  categoryName c = JStr (name_text c)
  /\ before_space 1 (name_text c) = stem i
  /\ ai c = Some "No-ai-fallback".
Proof.
  intros ((k & _ & Hname) & _ & _ & _ & _ & _ & Ht).
  unfold name_text. rewrite Hname. cbn [as_string].
  split; [reflexivity |]. split; [| exact Ht].
  destruct pools_without_space as [Ha Hn].
  apply before_space_stem.
  - apply at_index_no_space; [exact Ha |]. apply Nat.mod_upper_bound. discriminate.
  - apply at_index_no_space; [exact Hn |]. apply Nat.mod_upper_bound. discriminate.
Qed.

(** Below 182 no two indices share adjective and noun. *)
Lemma stems_distinct : NoDup (map stem (seq 0 182)).
Proof.
  assert (H : nodup string_dec (map stem (seq 0 182)) = map stem (seq 0 182))
    by (vm_compute; reflexivity).
  rewrite <- H. apply NoDup_nodup.
Qed.

Lemma Forall2_map_eq {A B C} (f : A -> C) (g : B -> C) (R : A -> B -> Prop)
  (l : list A) (l' : list B) :
  Forall2 R l l' -> (forall a b, R a b -> g b = f a) -> map g l' = map f l.
Proof.
  induction 1 as [| a b l l' Hab Hl IH]; intros HR; simpl; [reflexivity |].
  rewrite (HR a b Hab), (IH HR). reflexivity.
Qed.

Lemma NoDup_seq_prefix (f : nat -> string) (n m : nat) :
  n <= m -> NoDup (map f (seq 0 m)) -> NoDup (map f (seq 0 n)).
Proof.
  intros Hle Hnd.
  replace m with (n + (m - n)) in Hnd by lia.
  rewrite seq_app, map_app in Hnd. eapply NoDup_app_remove_r. exact Hnd.
Qed.

(** The names of a fallback batch of at most 182 records are pairwise
    different, whatever the random suffixes. *)
Lemma fallback_names_distinct (n : nat) (out : list Category) :
  n <= 182 ->
  Forall2 fallback_shape (seq 0 n) out ->
  NoDup (map name_text out).
Proof.
  intros Hn HF.
  assert (Hstems : map (fun c => before_space 1 (name_text c)) out
                   = map stem (seq 0 n)).
  { eapply Forall2_map_eq; [exact HF |]. intros i c Hs.
    apply (fallback_shape_stem i c Hs). }
  assert (Hnd : NoDup (map (before_space 1) (map name_text out))).
  { rewrite map_map, Hstems. apply (NoDup_seq_prefix stem n 182 Hn stems_distinct). }
  eapply NoDup_map_inv. exact Hnd.
Qed.

Lemma keys_clash_strings (a b : string) :
  keys_clash (JStr a) (JStr b) = String.eqb a b.
Proof.
  unfold keys_clash. simpl. destruct (String.eqb a b); reflexivity.
Qed.

Lemma all_new_strings (batch seen : list Category) :
  Forall (fun c => categoryName c = JStr (name_text c)) (seen ++ batch) ->
  NoDup (map name_text (seen ++ batch)) ->
  all_new seen batch.
Proof.
  revert seen. induction batch as [| x rest IH]; intros seen Hs Hnd; simpl;
    [exact I |].
  split.
  - intros d Hd.
    rewrite Forall_forall in Hs.
    rewrite (Hs x) by (apply in_or_app; right; left; reflexivity).
    rewrite (Hs d) by (apply in_or_app; left; exact Hd).
    rewrite keys_clash_strings. apply String.eqb_neq. intros Heq.
    rewrite map_app in Hnd. simpl in Hnd.
    apply NoDup_remove_2 in Hnd. apply Hnd.
    apply in_or_app. left. rewrite Heq. apply in_map. exact Hd.
  - apply IH; rewrite <- app_assoc; simpl; assumption.
Qed.

(** With the unique index, a batch the validator lets through and whose
    records are all new is inserted whole, without error. *)
Lemma insert_unordered_all (batch : list Category) (c : Collection) :
  unique_categoryName c = true ->
  (forall x, In x batch -> passes c x = true) ->
  all_new (map fields (docs c)) batch ->
  insert_unordered c batch
  = ({| docs := (docs c ++ numbered (next_id c) batch)%list;
        unique_categoryName := true;
        validator := validator c;
        next_id := next_id c + List.length batch |}, None).
Proof.
  revert c. induction batch as [| x rest IH]; intros c Hu Hp Hnew.
  - simpl. rewrite app_nil_r, Nat.add_0_r. destruct c; simpl in *. subst.
    reflexivity.
  - destruct Hnew as [Hx Hrest]. cbn [insert_unordered].
    assert (Hw : write_error c x = None).
    { unfold write_error. rewrite (Hp x (or_introl eq_refl)), Hu. cbn [negb andb].
      assert (Hd : duplicate_key x (docs c) = false).
      { unfold duplicate_key.
        destruct (existsb _ (docs c)) eqn:E; [| reflexivity].
        apply existsb_exists in E. destruct E as (d & Hd & Hk).
        rewrite (Hx (fields d)) in Hk by (apply in_map; exact Hd). discriminate. }
      rewrite Hd. reflexivity. }
    rewrite Hw.
    rewrite (IH (store c x)).
    + unfold store. cbn [docs next_id validator numbered List.length].
      rewrite <- app_assoc. cbn [app]. do 2 f_equal. lia.
    + exact Hu.
    + intros y Hy. unfold passes, store. cbn [validator].
      apply (Hp y). right. exact Hy.
    + unfold store. cbn [docs]. rewrite map_app. exact Hrest.
Qed.

Lemma numbered_length (from : nat) (batch : list Category) :
  List.length (numbered from batch) = List.length batch.
Proof. revert from. induction batch; intros from; simpl; congruence. Qed.

Lemma numbered_fields (from : nat) (batch : list Category) :
  map fields (numbered from batch) = batch.
Proof. revert from. induction batch; intros from; simpl; congruence. Qed.

Lemma init_body_fresh (o : Oracle) (st : App) :
  word_class st = None ->
  connects o st = true ->
  exists st1,
    init_body o st = (Ok tt, st1)
    /\ word_class st1
       = Some {| docs := []; unique_categoryName := true;
                 validator := Some (word_class_json o); next_id := 0 |}
    /\ oplog st1 = (oplog st ++ [OpCreateCollection; OpCreateIndex])%list
    /\ console (sys st1)
       = (console (sys st)
          ++ [Log "Connected to worddb -> word_class collection"])%list
    /\ n_clock (sys st1) = n_clock (sys st)
    /\ collectionPromise st1 = collectionPromise st
    /\ inits st1 = inits st.
Proof.
  intros Hw Hc. unfold connects in Hc.
  unfold init_body, connectToDb, getClient, createIndex, try_catch, bind, lift,
    console_put.
  destruct (cachedClient st) eqn:Hcc; simpl in *.
  - rewrite Hw. simpl. eexists. split; [reflexivity |]. simpl.
    rewrite <- app_assoc. repeat split.
  - apply andb_prop in Hc. destruct Hc as [Hk Hs]. rewrite Hk. simpl.
    destruct (connect_src o (n_connect st)); [discriminate |]. simpl.
    rewrite Hw. simpl. eexists. split; [reflexivity |]. simpl.
    rewrite <- app_assoc. repeat split.
Qed.

Lemma fallback_batch (o : Oracle) (s : Sys) (n : nat) :
  no_keys o = true ->
  exists out s',
    generateCategories n o s = (Ok out, s')
    /\ Forall2 fallback_shape (seq 0 n) out
    /\ console s' = console s.
Proof.
  intros Hno. unfold no_keys in Hno. apply andb_prop in Hno. destruct Hno as [Hg Hm].
  apply negb_true_iff in Hg, Hm.
  rewrite (generateCategories_no_keys o s n Hg Hm).
  destruct (fallbackGenerate_shape n o s) as (out & s' & E & Hsh).
  destruct (fallback_loop_runs (seq 0 n) o s)
    as (out' & s'' & E' & _ & _ & _ & _ & _ & _ & _ & Hc).
  unfold fallbackGenerate in E. rewrite E' in E. inversion E; subst.
  exists out, s'. unfold fallbackGenerate. rewrite E'. repeat split; assumption.
Qed.

Lemma Forall2_length_seq {A} (R : nat -> A -> Prop) (n : nat) (l : list A) :
  Forall2 R (seq 0 n) l -> List.length l = n.
Proof.
  intros HF. apply Forall2_length in HF. rewrite length_seq in HF. congruence.
Qed.

Lemma Forall2_right {A B} (R : A -> B -> Prop) (P : B -> Prop)
  (l : list A) (l' : list B) :
  Forall2 R l l' -> (forall a b, R a b -> P b) -> Forall P l'.
Proof.
  induction 1; intros HR; constructor; eauto.
Qed.

(** On an empty collection with the unique index, the freshness branch
    without provider keys stores its whole batch. *)
Lemma add_fresh_on_empty (o : Oracle) (st : App) (v : option (Category -> bool)) :
  no_keys o = true ->
  word_class st
  = Some {| docs := []; unique_categoryName := true; validator := v; next_id := 0 |} ->
  (forall i c, fallback_shape i c ->
               match v with Some p => p c | None => true end = true) ->
  exists out s',
    add_fresh o st
    = (Ok tt, with_coll (with_sys st s')
                {| docs := numbered 0 out; unique_categoryName := true;
                   validator := v; next_id := 100 |}
                [OpInsertMany out])
    /\ Forall2 fallback_shape (seq 0 100) out
    /\ NoDup (map name_text out)
    /\ console s' = console (sys st).
Proof.
  intros Hno Hw Hv.
  destruct (fallback_batch o (sys st) 100 Hno) as (out & s' & E & Hsh & Hc).
  pose proof (Forall2_length_seq _ _ _ Hsh) as Hlen.
  pose proof (fallback_names_distinct 100 out ltac:(lia) Hsh) as Hnd.
  exists out, s'. split; [| repeat split; assumption].
  unfold add_fresh, bind, lift. rewrite E.
  unfold insertMany_tolerant, try_catch, insertMany.
  destruct out as [| x rest]; [discriminate |].
  unfold coll. cbn [with_sys word_class]. rewrite Hw.
  rewrite insert_unordered_all.
  - cbn [docs next_id validator app]. rewrite Hlen. reflexivity.
  - reflexivity.
  - intros y Hy. unfold passes. cbn [validator].
    destruct (Forall2_right _ (fun c => exists i, fallback_shape i c) _ _ Hsh
                ltac:(intros a b Hab; exists a; exact Hab)) as [| ].
    + destruct Hy.
    + assert (HF : Forall (fun c => exists i, fallback_shape i c) (x0 :: l))
        by (constructor; assumption).
      rewrite Forall_forall in HF. destruct (HF y Hy) as (i & Hi).
      specialize (Hv i y Hi). destruct v; exact Hv.
  - cbn [docs map]. apply all_new_strings; cbn [app]; [| exact Hnd].
    eapply Forall2_right; [exact Hsh |]. intros i c Hs.
    apply (fallback_shape_stem i c Hs).
Qed.

Lemma numbered_sorted_length (k : nat) (batch : list Category) :
  List.length (firstn k (sort_desc (numbered 0 batch)))
  = Nat.min k (List.length batch).
Proof.
  rewrite length_firstn.
  rewrite (Permutation_length (sort_desc_perm (numbered 0 batch))).
  rewrite numbered_length. reflexivity.
Qed.

(** X12: the first [GET /categories] against a database without the
    collection, with no provider key set and a validator that accepts the
    fallback records.  The request creates the collection and the unique
    index, generates 100 fallback records and stores all of them with one
    [insertMany]: their names are pairwise different whatever the random
    suffixes, so the unique index refuses none and nothing is warned.  It
    answers 200 with [min(limit, 100)] of them. *)
Theorem first_get_on_empty_database (o : Oracle) (st : App) (q : option string) :
  collectionPromise st = None ->
  word_class st = None ->
  connects o st = true ->
  no_keys o = true ->
  (forall i c, fallback_shape i c -> word_class_json o c = true) ->
  exists found st' out,
    get_categories q o st = (Ok {| status := 200; payload := Docs found |}, st')
    /\ Forall2 fallback_shape (seq 0 100) out
    /\ NoDup (map name_text out)
    /\ docs (coll st') = numbered 0 out
    /\ unique_categoryName (coll st') = true
    /\ oplog st'
       = (oplog st ++ [OpCreateCollection; OpCreateIndex; OpInsertMany out])%list
    /\ console (sys st')
       = (console (sys st)
          ++ [Log "Connected to worddb -> word_class collection"])%list
    /\ List.length found = Nat.min (Z.to_nat (parse_limit q)) 100.
Proof.
  intros Hp Hw Hc Hno Hv.
  set (stp := with_promise st (Some Pending) (S (inits st))).
  destruct (init_body_fresh o stp Hw Hc)
    as (st1 & E1 & Hw1 & Hop1 & Hcon1 & _ & _ & _).
  set (st2 := with_promise st1 (Some (Settled (Ok tt))) (inits st1)).
  assert (Er : ready o st = (Ok true, st2)).
  { unfold ready, try_catch, getCollection, bind, getCollection_start.
    rewrite Hp. fold stp. unfold settle. cbn [collectionPromise stp with_promise].
    fold stp. rewrite E1. reflexivity. }
  set (st3 := with_sys st2 (tick (sys st2))).
  destruct (add_fresh_on_empty o st3 (Some (word_class_json o)) Hno Hw1 Hv)
    as (out & s' & Ea & Hsh & Hnd & Hcs).
  assert (Ef : ensureFresh o st2
               = (Ok tt, with_coll (with_sys st3 s')
                           {| docs := numbered 0 out; unique_categoryName := true;
                              validator := Some (word_class_json o);
                              next_id := 100 |}
                           [OpInsertMany out])).
  { rewrite ensureFresh_unfold. unfold coll. cbn [st2 with_promise word_class].
    rewrite Hw1. cbn [docs List.length Nat.ltb Nat.leb sort_desc firstn
      lastCreatedAt stale]. unfold bind, ret. exact Ea. }
  eexists _, _, out. split.
  { unfold get_categories, bind at 1. rewrite Er.
    unfold try_catch, bind. rewrite Ef. unfold find_recent, ret. reflexivity. }
  split; [exact Hsh |]. split; [exact Hnd |].
  split; [reflexivity |]. split; [reflexivity |].
  split.
  { cbn [oplog with_coll with_sys st3 st2 with_promise]. rewrite Hop1.
    rewrite <- app_assoc. reflexivity. }
  split.
  { cbn [sys with_coll with_sys]. rewrite Hcs.
    cbn [st3 with_sys sys tick console st2 with_promise]. exact Hcon1. }
  unfold coll. cbn [word_class with_coll docs].
  rewrite numbered_sorted_length, (Forall2_length_seq _ _ _ Hsh). reflexivity.
Qed.

Lemma first_get_on_empty_database_witness :
  exists found st' out,
    get_categories (Some "7") offline fresh_app
    = (Ok {| status := 200; payload := Docs found |}, st')
    /\ Forall2 fallback_shape (seq 0 100) out
    /\ NoDup (map name_text out)
    /\ docs (coll st') = numbered 0 out
    /\ unique_categoryName (coll st') = true
    /\ oplog st'
       = (oplog fresh_app
          ++ [OpCreateCollection; OpCreateIndex; OpInsertMany out])%list
    /\ console (sys st')
       = (console (sys fresh_app)
          ++ [Log "Connected to worddb -> word_class collection"])%list
    /\ List.length found = Nat.min (Z.to_nat (parse_limit (Some "7"))) 100.
Proof.
  apply (first_get_on_empty_database offline fresh_app (Some "7")); try reflexivity.
Defined.

(* ================================================================== *)
(** * What [parseInt] lets through *)
(* ================================================================== *)

Lemma skip_white_app_upto (n : nat) (ws t : string) :
  String.length ws <= n ->
  all_white ws = true -> skip_white (ws ++ t) = skip_white t.
Proof.
  revert ws. induction n as [| n IH]; intros ws Hlen H.
  - destruct ws; [reflexivity | simpl in Hlen; lia].
  - destruct ws as [| c1 r1]; [reflexivity |].
    cbn [String.length] in Hlen. cbn [all_white] in H.
    cbn [append skip_white].
    destruct (is_StrWhiteSpaceChar c1).
    + apply IH; [lia | exact H].
    + destruct r1 as [| c2 r2]; [discriminate H |].
      cbn [String.length] in Hlen. cbn [append].
      destruct (white2 c1 c2).
      * apply IH; [lia | exact H].
      * destruct r2 as [| c3 r3]; [discriminate H |].
        cbn [String.length] in Hlen. cbn [append].
        apply andb_prop in H. destruct H as [H3 Hr]. rewrite H3.
        apply IH; [lia | exact Hr].
Qed.

Lemma skip_white_app (ws t : string) :
  all_white ws = true -> skip_white (ws ++ t) = skip_white t.
Proof. apply (skip_white_app_upto (String.length ws)). lia. Qed.

Lemma parseInt10_skips (ws t : string) :
  all_white ws = true -> parseInt10 (ws ++ t) = parseInt10 t.
Proof. intros H. unfold parseInt10. rewrite (skip_white_app ws t H). reflexivity. Qed.

Lemma digits_prefix_app (ds junk : string) (acc : option Z) :
  all_digits ds = true -> no_digit_first junk = true ->
  digits_prefix (ds ++ junk) acc = digits_prefix ds acc.
Proof.
  revert acc. induction ds as [| c ds IH]; intros acc Hd Hj.
  - cbn [append digits_prefix]. destruct junk as [| c rest]; [reflexivity |].
    cbn [digits_prefix]. unfold no_digit_first in Hj.
    destruct (digit_value c); [discriminate | reflexivity].
  - cbn [append digits_prefix]. cbn [all_digits] in Hd.
    destruct (digit_value c); [| discriminate]. apply IH; assumption.
Qed.

Lemma numeral_all_digits (d : Decimal.uint) :
  all_digits (NilEmpty.string_of_uint d) = true.
Proof. induction d; cbn [NilEmpty.string_of_uint all_digits]; auto. Qed.

Lemma parseInt10_digits_app (c : ascii) (ds junk : string) :
  all_digits (String c ds) = true -> no_digit_first junk = true ->
  parseInt10 (String c ds ++ junk) = parseInt10 (String c ds)
  /\ parseInt10 (String "-" (String c ds ++ junk)) = parseInt10 (String "-" (String c ds)).
Proof.
  intros Hd Hj.
  assert (Hp : forall acc, digits_prefix (String c ds ++ junk) acc
                           = digits_prefix (String c ds) acc)
    by (intros acc; apply digits_prefix_app; assumption).
  cbn [all_digits] in Hd. destruct (digit_value c) as [d0 |] eqn:Hc; [| discriminate].
  split.
  - unfold parseInt10. cbn [append] in *.
    rewrite !(skip_white_digit c _ d0 Hc).
    destruct c as [[] [] [] [] [] [] [] []]; try discriminate Hc;
      rewrite Hp; reflexivity.
  - unfold parseInt10. rewrite !skip_white_minus.
    rewrite Hp. reflexivity.
Qed.

Lemma decimal_cases (n : Z) :
  exists c ds,
    all_digits (String c ds) = true
    /\ (decimal n = String c ds
        \/ decimal n = String "-" (String c ds)).
Proof.
  unfold decimal, Z.to_int, NilZero.string_of_int, NilZero.string_of_uint.
  destruct n as [| p | p].
  - exists "0"%char, EmptyString. split; [reflexivity | left; reflexivity].
  - pose proof (Unsigned.to_uint_nonnil p) as Hp.
    pose proof (numeral_all_digits (Pos.to_uint p)) as Hd.
    destruct (Pos.to_uint p) eqn:E; try congruence;
      cbn [NilEmpty.string_of_uint] in *;
      eexists _, _; (split; [exact Hd | left; reflexivity]).
  - pose proof (Unsigned.to_uint_nonnil p) as Hp.
    pose proof (numeral_all_digits (Pos.to_uint p)) as Hd.
    destruct (Pos.to_uint p) eqn:E; try congruence;
      cbn [NilEmpty.string_of_uint] in *;
      eexists _, _; (split; [exact Hd | right; reflexivity]).
Qed.

Lemma append_assoc (a b c : string) : ((a ++ b) ++ c = a ++ (b ++ c))%string.
Proof. induction a; simpl; congruence. Qed.

Lemma parseInt10_lenient (ws junk : string) (n : Z) :
  all_white ws = true -> no_digit_first junk = true ->
  parseInt10 (ws ++ decimal n ++ junk) = Some n.
Proof.
  intros Hw Hj. rewrite (parseInt10_skips _ _ Hw).
  rewrite <- (parseInt10_decimal n).
  destruct (decimal_cases n) as (c & ds & Hd & [E | E]); rewrite E.
  - apply (parseInt10_digits_app c ds junk Hd Hj).
  - apply (parseInt10_digits_app c ds junk Hd Hj).
Qed.

(** X13: [parseInt] reads the number at the front of [limit] and
    ignores what surrounds it: leading white space and line terminators
    (the ASCII ones, U+00A0, U+1680, U+2000 to U+200A, U+2028, U+2029,
    U+202F, U+205F, U+3000 and U+FEFF) are skipped and the text after the
    last digit is dropped.  So [limit=50px] and [limit=12.9] are served as
    50 and 12, and [limit=1e3] as 1. *)
Theorem parse_limit_ignores_surroundings (ws junk : string) (n : Z) :
  all_white ws = true ->
  no_digit_first junk = true ->
  parse_limit (Some (ws ++ decimal n ++ junk))
  = if ((1 <=? n) && (n <=? 1000))%Z then n else 100%Z.
Proof.
  intros Hw Hj. unfold parse_limit. rewrite (parseInt10_lenient ws junk n Hw Hj).
  destruct (Z.ltb_spec n 1), (Z.ltb_spec 1000 n), (Z.leb_spec 1 n),
    (Z.leb_spec n 1000); simpl; try reflexivity; lia.
Qed.

Lemma parse_limit_ignores_surroundings_witness :
  parse_limit (Some ((nbsp ++ " " ++ line_separator) ++ "12" ++ ".9")) = 12%Z.
Proof.
  exact (parse_limit_ignores_surroundings (nbsp ++ " " ++ line_separator) ".9" 12
           eq_refl eq_refl).
Defined.

(* ================================================================== *)
(** * Requests after the initialisation *)
(* ================================================================== *)

Lemma ready_failed (o : Oracle) (st : App) (e : exn) :
  collectionPromise st = Some (Settled (Throw e)) -> ready o st = (Ok false, st).
Proof.
  intros Hp. unfold ready, try_catch, bind at 1.
  rewrite (getCollection_settled o st (Throw e) Hp). reflexivity.
Qed.

Lemma serve_failed (o : Oracle) (st : App) (e : exn) (r : request_to) :
  collectionPromise st = Some (Settled (Throw e)) ->
  serve r o st = (Ok not_ready, st).
Proof.
  intros Hp. destruct r as [q | b]; cbn [serve].
  - unfold get_categories, bind. rewrite (ready_failed o st e Hp). reflexivity.
  - unfold post_categories, bind. rewrite (ready_failed o st e Hp). reflexivity.
Qed.

(** X14: a failed initialisation is permanent.  Once the promise has
    settled with an error, every request of any sequence of [GET] and [POST]
    requests is answered 503 [DB not ready], and the process state is left
    exactly as it was: no connection attempt, no database command, no log
    line. *)
Theorem failed_init_answers_503 (o : Oracle) (st : App) (e : exn)
  (rs : list request_to) :
  collectionPromise st = Some (Settled (Throw e)) ->
  serve_all rs o st = (Ok (map (fun _ => not_ready) rs), st).
Proof.
  intros Hp. unfold serve_all. induction rs as [| r rs IH]; [reflexivity |].
  cbn [mapM map]. unfold bind at 1. rewrite (serve_failed o st e r Hp).
  unfold bind at 1. rewrite IH. reflexivity.
Qed.

Lemma failed_init_answers_503_witness :
  serve_all [Get (Some "5"); Post (Some body_x); Get None] flaky (broken ECONNREFUSED)
  = (Ok [not_ready; not_ready; not_ready], broken ECONNREFUSED).
Proof.
  exact (failed_init_answers_503 flaky (broken ECONNREFUSED) ECONNREFUSED
           [Get (Some "5"); Post (Some body_x); Get None] eq_refl).
Defined.

Lemma post_categories_refused (o : Oracle) (st : App) (req : option json) :
  collectionPromise st = Some (Settled (Ok tt)) ->
  invalid (destructure (body_or_empty req) "categoryName")
          (destructure (body_or_empty req) "words") = true ->
  post_categories req o st = (Ok bad_request, st).
Proof.
  intros Hp Hinv. unfold post_categories, bind at 1.
  rewrite (ready_settled o st Hp), Hinv. reflexivity.
Qed.

(** X15: the answers of [POST /categories] on a ready handle.  The
    body is tested first: a refused body is answered 400 and nothing
    happens, the clock is not even read.  Then the server decides: a record
    the validator refuses is answered 500, before the unique index is
    looked at; a record whose name is already indexed is answered 409;
    any other is stored at the end with a fresh id and answered 201.
    Only the 201 changes the collection. *)
Theorem post_categories_answers (o : Oracle) (st : App) (req : option json) :
  collectionPromise st = Some (Settled (Ok tt)) ->
  let cn := destructure (body_or_empty req) "categoryName" in
  let ws := destructure (body_or_empty req) "words" in
  let x := posted cn ws (clock_src o (n_clock (sys st))) in
  exists resp st',
    post_categories req o st = (Ok resp, st')
    /\ if invalid cn ws then resp = bad_request /\ st' = st
       else if negb (passes (coll st) x)
       then resp = failed ValidationFailed /\ coll st' = coll st
       else if unique_categoryName (coll st) && duplicate_key x (docs (coll st))
       then resp = conflict /\ coll st' = coll st
       else resp = created (next_id (coll st))
            /\ docs (coll st')
               = (docs (coll st) ++ [{| _id := next_id (coll st); fields := x |}])%list
            /\ oplog st' = (oplog st ++ [OpInsertOne x])%list.
Proof.
  intros Hp cn ws x.
  destruct (invalid cn ws) eqn:Hinv.
  - exists bad_request, st. split; [| split; reflexivity].
    apply post_categories_refused; assumption.
  - rewrite (post_categories_ready o st req cn ws eq_refl eq_refl Hp Hinv).
    fold x. unfold write_error.
    destruct (passes (coll st) x); cbn [negb].
    + destruct (unique_categoryName (coll st) && duplicate_key x (docs (coll st))).
      * eexists _, _. split; [reflexivity |]. split; reflexivity.
      * eexists _, _. split; [reflexivity |]. repeat split.
    + eexists _, _. split; [reflexivity |]. split; reflexivity.
Qed.

Lemma post_categories_answers_witness :
  exists resp st',
    post_categories (Some numbered_body) offline (running strict) = (Ok resp, st')
    /\ resp = failed ValidationFailed /\ coll st' = coll (running strict).
Proof.
  exact (post_categories_answers offline (running strict) (Some numbered_body) eq_refl).
Defined.

(* ================================================================== *)
(** * The router with the module-level handle *)
(* ================================================================== *)

(** The call of the current router, [connectToDb('worddb', 'word_class',
    { validatorObject })], in terms of the function with its options. *)
Lemma connectToDb_as_called (o : Oracle) (st : App) :
  connectToDb o st
  = bind require_validator (fun v => connectToDb_with (Some v) true) o st.
Proof.
  unfold connectToDb, connectToDb_with, require_validator, bind.
  destruct (getClient o st) as [[[] | e] st1]; reflexivity.
Qed.

Lemma legacy_stages (cn ws : option json) :
  invalid cn ws
  = (negb (truthy cn) || negb (Legacy.isArray ws))
    || ((List.length (Legacy.items_of ws) <? 1)%nat
        || (20 <? List.length (Legacy.items_of ws))%nat)
    || negb (forallb is_string (Legacy.items_of ws)).
Proof.
  unfold invalid, Legacy.isArray, Legacy.items_of.
  destruct (truthy cn); cbn [negb orb].
  - destruct ws as [[| b | z | fr | s | items | fs] |]; cbn [negb orb]; reflexivity.
  - reflexivity.
Qed.

Lemma legacy_post_valid (o : Oracle) (sv : Legacy.Server) (req cn ws : option json) :
  destructure (body_or_empty req) "categoryName" = cn ->
  destructure (body_or_empty req) "words" = ws ->
  Legacy.collection sv = true ->
  invalid cn ws = false ->
  Legacy.post_categories req o sv
  = match write_error (coll (Legacy.app sv))
            (posted cn ws (clock_src o (n_clock (sys (Legacy.app sv))))) with
    | None =>
        (Ok (created (next_id (coll (Legacy.app sv)))),
         up (with_coll (with_sys (Legacy.app sv) (tick (sys (Legacy.app sv))))
               (store (coll (Legacy.app sv))
                  (posted cn ws (clock_src o (n_clock (sys (Legacy.app sv))))))
               [OpInsertOne (posted cn ws (clock_src o (n_clock (sys (Legacy.app sv)))))]))
    | Some e =>
        (Ok (if is_duplicate e then conflict else failed e),
         up (with_sys (Legacy.app sv) (tick (sys (Legacy.app sv)))))
    end.
Proof.
  intros Hcn Hws Hc Hinv. rewrite legacy_stages in Hinv.
  apply orb_false_elim in Hinv. destruct Hinv as [Hinv H3].
  apply orb_false_elim in Hinv. destruct Hinv as [H1 H2].
  unfold Legacy.post_categories. rewrite Hc, Hcn, Hws. cbn [negb].
  rewrite H1, H2, H3.
  unfold Legacy.on_app, try_catch, bind, lift, new_Date, insertOne.
  cbn [sys with_sys]. rewrite coll_with_sys. rewrite Hc.
  fold (posted cn ws (clock_src o (n_clock (sys (Legacy.app sv))))).
  destruct (write_error (coll (Legacy.app sv)) _) as [e |]; [| reflexivity].
  unfold is_duplicate. destruct (match code e with Some c => _ | None => _ end);
    reflexivity.
Qed.

Lemma legacy_post_refused (o : Oracle) (sv : Legacy.Server) (req cn ws : option json) :
  destructure (body_or_empty req) "categoryName" = cn ->
  destructure (body_or_empty req) "words" = ws ->
  Legacy.collection sv = true ->
  invalid cn ws = true ->
  Legacy.post_categories req o sv = (Ok (Legacy.refused (refusal cn ws)), sv).
Proof.
  intros Hcn Hws Hc Hinv. rewrite legacy_stages in Hinv.
  unfold Legacy.post_categories, refusal. rewrite Hc, Hcn, Hws. cbn [negb].
  destruct (negb (truthy cn) || negb (Legacy.isArray ws)); [reflexivity |].
  destruct ((List.length (Legacy.items_of ws) <? 1)%nat
            || (20 <? List.length (Legacy.items_of ws))%nat); [reflexivity |].
  cbn [orb] in Hinv. rewrite Hinv. reflexivity.
Qed.

(** X17: the answers of the legacy [POST /categories].  While the
    module-level handle is unset it answers 503 and does nothing.
    Otherwise it refuses exactly the bodies the current route refuses, with
    status 400 and the message of the first of its three tests that fails,
    and does nothing; any other body goes to the server, with the answers
    500 (validator), 409 (unique index) and 201 in this order. *)
Theorem legacy_post_answers (o : Oracle) (sv : Legacy.Server) (req : option json) :
  let cn := destructure (body_or_empty req) "categoryName" in
  let ws := destructure (body_or_empty req) "words" in
  let st := Legacy.app sv in
  let x := posted cn ws (clock_src o (n_clock (sys st))) in
  exists resp sv',
    Legacy.post_categories req o sv = (Ok resp, sv')
    /\ Legacy.collection sv' = Legacy.collection sv
    /\ if negb (Legacy.collection sv) then resp = not_ready /\ sv' = sv
       else if invalid cn ws
       then resp = Legacy.refused (refusal cn ws) /\ sv' = sv
       else if negb (passes (coll st) x)
       then resp = failed ValidationFailed /\ coll (Legacy.app sv') = coll st
       else if unique_categoryName (coll st) && duplicate_key x (docs (coll st))
       then resp = conflict /\ coll (Legacy.app sv') = coll st
       else resp = created (next_id (coll st))
            /\ docs (coll (Legacy.app sv'))
               = (docs (coll st) ++ [{| _id := next_id (coll st); fields := x |}])%list
            /\ oplog (Legacy.app sv') = (oplog st ++ [OpInsertOne x])%list.
Proof.
  intros cn ws st x.
  destruct (Legacy.collection sv) eqn:Hc; cbn [negb].
  2: { exists not_ready, sv. unfold Legacy.post_categories. rewrite Hc.
       repeat split; auto. }
  destruct (invalid cn ws) eqn:Hinv.
  - exists (Legacy.refused (refusal cn ws)), sv.
    rewrite (legacy_post_refused o sv req cn ws eq_refl eq_refl Hc Hinv).
    repeat split; auto.
  - rewrite (legacy_post_valid o sv req cn ws eq_refl eq_refl Hc Hinv).
    fold st. fold x. unfold write_error.
    destruct (passes (coll st) x); cbn [negb].
    + destruct (unique_categoryName (coll st) && duplicate_key x (docs (coll st))).
      * eexists _, _. split; [reflexivity |]. repeat split.
      * eexists _, _. split; [reflexivity |]. repeat split.
    + eexists _, _. split; [reflexivity |]. repeat split.
Qed.

Lemma legacy_init_runs (o : Oracle) (sv : Legacy.Server) :
  exists sv',
    Legacy.init o sv = (Ok tt, sv')
    /\ if connects o (Legacy.app sv)
       then Legacy.collection sv' = true
            /\ coll (Legacy.app sv') = initialised_bare (Legacy.app sv)
            /\ n_clock (sys (Legacy.app sv')) = n_clock (sys (Legacy.app sv))
       else Legacy.collection sv' = Legacy.collection sv
            /\ word_class (Legacy.app sv') = word_class (Legacy.app sv)
            /\ oplog (Legacy.app sv') = oplog (Legacy.app sv)
            /\ exists e,
                console (sys (Legacy.app sv'))
                = (console (sys (Legacy.app sv))
                   ++ [Warn ("wordapi: could not connect/create collection (continuing without DB): "
                             ++ message e)])%list.
Proof.
  destruct sv as [st c0].
  unfold connects, initialised_bare, Legacy.init, Legacy.on_app, Legacy.assign_collection,
    require_validator, connectToDb_with, getClient, createIndex, try_catch, bind,
    lift, console_put.
  cbn [Legacy.app Legacy.collection].
  destruct (cachedClient st); cbn [orb negb].
  2: destruct (key_set (ATLAS_URI o)); cbn [andb negb].
  3: { eexists. split; [reflexivity |]. cbn [Legacy.app Legacy.collection].
       repeat split. exists MissingUri. reflexivity. }
  2: destruct (connect_src o (n_connect st)) as [e |]; cbn.
  2: { eexists. split; [reflexivity |]. cbn [Legacy.app Legacy.collection].
       repeat split. exists e. reflexivity. }
  all: destruct (word_class st) as [c |] eqn:Hw; cbn; unfold coll; cbn;
    rewrite ?Hw; cbn.
  2, 4: eexists; split; [reflexivity |]; cbn; repeat split.
  all: destruct c as [ds u v nid]; cbn.
  all: destruct u; cbn; rewrite ?Hw; cbn.
  1, 3: eexists; split; [reflexivity |]; cbn; rewrite ?Hw; repeat split.
  all: destruct (has_clash ds); cbn; rewrite ?Hw; cbn;
    eexists; (split; [reflexivity |]); cbn; rewrite ?Hw; repeat split.
Qed.

(** X16: the function the legacy router runs at load never throws.
    It sets the module-level handle exactly when the client connects; the
    stored documents are untouched and the unique index is built unless two
    stored names clash.  It passes the validator under a key that
    [connectToDb] does not read, so a collection it creates has no
    validator.  When the connection fails it logs one warning and leaves
    the handle and the database as they were. *)
Theorem legacy_init_outcome (o : Oracle) (sv : Legacy.Server) :
  exists sv',
    Legacy.init o sv = (Ok tt, sv')
    /\ if connects o (Legacy.app sv)
       then Legacy.collection sv' = true
            /\ coll (Legacy.app sv') = initialised_bare (Legacy.app sv)
            /\ n_clock (sys (Legacy.app sv')) = n_clock (sys (Legacy.app sv))
       else Legacy.collection sv' = Legacy.collection sv
            /\ word_class (Legacy.app sv') = word_class (Legacy.app sv)
            /\ oplog (Legacy.app sv') = oplog (Legacy.app sv)
            /\ exists e,
                console (sys (Legacy.app sv'))
                = (console (sys (Legacy.app sv))
                   ++ [Warn ("wordapi: could not connect/create collection (continuing without DB): "
                             ++ message e)])%list.
Proof. exact (legacy_init_runs o sv). Qed.

Lemma ready_fresh (o : Oracle) (st : App) :
  collectionPromise st = None ->
  word_class st = None ->
  connects o st = true ->
  exists st2,
    ready o st = (Ok true, st2)
    /\ collectionPromise st2 = Some (Settled (Ok tt))
    /\ word_class st2
       = Some {| docs := []; unique_categoryName := true;
                 validator := Some (word_class_json o); next_id := 0 |}
    /\ n_clock (sys st2) = n_clock (sys st).
Proof.
  intros Hp Hw Hc.
  set (stp := with_promise st (Some Pending) (S (inits st))).
  destruct (init_body_fresh o stp Hw Hc)
    as (st1 & E1 & Hw1 & _ & _ & Hck & _ & _).
  exists (with_promise st1 (Some (Settled (Ok tt))) (inits st1)).
  split.
  { unfold ready, try_catch, getCollection, bind, getCollection_start.
    rewrite Hp. fold stp. unfold settle. cbn [collectionPromise stp with_promise].
    fold stp. rewrite E1. reflexivity. }
  split; [reflexivity |]. split; [exact Hw1 | exact Hck].
Qed.

Lemma post_after_ready (o : Oracle) (st st2 : App) (req : option json) :
  ready o st = (Ok true, st2) ->
  collectionPromise st2 = Some (Settled (Ok tt)) ->
  post_categories req o st = post_categories req o st2.
Proof.
  intros E Hp. unfold post_categories, bind at 1. rewrite E.
  symmetry. unfold bind at 1. rewrite (ready_settled o st2 Hp). reflexivity.
Qed.

(** X18: the validator reaches the database in the current router
    only.  On a database without the collection, a body that passes the
    test of the route but not the schema of [word_class.json] is answered
    500 by the current [POST] and nothing is stored; the legacy router,
    whose collection was created without validator, stores it and answers
    201. *)
Theorem schema_checked_in_current_only (o : Oracle) (st : App) (req : option json) :
  let cn := destructure (body_or_empty req) "categoryName" in
  let ws := destructure (body_or_empty req) "words" in
  let x := posted cn ws (clock_src o (n_clock (sys st))) in
  collectionPromise st = None ->
  word_class st = None ->
  connects o st = true ->
  invalid cn ws = false ->
  word_class_json o x = false ->
  (fst (post_categories req o st) = Ok (failed ValidationFailed)
   /\ docs (coll (snd (post_categories req o st))) = [])
  /\ exists sv1,
      Legacy.init o {| Legacy.app := st; Legacy.collection := false |} = (Ok tt, sv1)
      /\ fst (Legacy.post_categories req o sv1) = Ok (created 0)
      /\ map fields (docs (coll (Legacy.app (snd (Legacy.post_categories req o sv1)))))
         = [x].
Proof.
  intros cn ws x Hp Hw Hc Hinv Hx. split.
  - destruct (ready_fresh o st Hp Hw Hc) as (st2 & E & Hp2 & Hw2 & Hck).
    rewrite (post_after_ready o st st2 req E Hp2).
    rewrite (post_categories_ready o st2 req cn ws eq_refl eq_refl Hp2 Hinv).
    rewrite Hck. fold x. unfold write_error, passes, coll. rewrite Hw2.
    cbn [validator]. rewrite Hx. cbn [negb fst snd]. split; [reflexivity |].
    cbn [with_sys word_class]. rewrite Hw2. reflexivity.
  - destruct (legacy_init_runs o {| Legacy.app := st; Legacy.collection := false |})
      as (sv1 & E & Hout).
    cbn [Legacy.app] in Hout. rewrite Hc in Hout. destruct Hout as (Hc1 & Hcoll & Hck).
    exists sv1. split; [exact E |].
    rewrite (legacy_post_valid o sv1 req cn ws eq_refl eq_refl Hc1 Hinv).
    rewrite Hck. fold x. rewrite Hcoll.
    unfold initialised_bare, write_error, passes, coll. rewrite Hw.
    cbn. split; reflexivity.
Qed.

Lemma schema_checked_in_current_only_witness :
  (fst (post_categories (Some numbered_body) picky fresh_app)
   = Ok (failed ValidationFailed)
   /\ docs (coll (snd (post_categories (Some numbered_body) picky fresh_app))) = [])
  /\ exists sv1,
      Legacy.init picky at_load = (Ok tt, sv1)
      /\ fst (Legacy.post_categories (Some numbered_body) picky sv1) = Ok (created 0)
      /\ map fields
           (docs (coll (Legacy.app
                          (snd (Legacy.post_categories (Some numbered_body) picky sv1)))))
         = [posted (Some (JNum 42)) (Some (JArr [JStr "a"])) 1700000000000].
Proof.
  exact (schema_checked_in_current_only picky fresh_app (Some numbered_body)
           eq_refl eq_refl eq_refl eq_refl eq_refl).
Defined.

Lemma legacy_fallback_record_total (i : nat) :
  total (Legacy.fallback_record i) (fun _ => True).
Proof.
  unfold Legacy.fallback_record.
  eapply total_bind; [apply Math_random_range |]. intros r _.
  eapply total_bind; [apply draw_words_total |]. intros ws _.
  eapply total_bind; [apply new_Date_total |]. intros t _.
  apply total_ret. exact I.
Qed.

Lemma legacy_generateCategories_total (n : nat) :
  total (Legacy.generateCategories n) (fun _ => True).
Proof.
  unfold Legacy.generateCategories.
  eapply total_bind; [apply (provider_attempt_total Gemini) |].
  intros [batch |] _; [apply total_ret; exact I |].
  eapply total_bind; [apply (provider_attempt_total Mistral) |].
  intros [batch |] _; [apply total_ret; exact I |].
  eapply total_weaken;
    [apply (total_mapM Legacy.fallback_record (fun _ _ => True));
     apply legacy_fallback_record_total | auto].
Qed.

Lemma legacy_generateCategories_runs (o : Oracle) (s : Sys) :
  exists b s',
    Legacy.generateCategories 100 o s = (Ok b, s')
    /\ (no_keys o = true -> List.length b = 100).
Proof.
  destruct (legacy_generateCategories_total 100 o s) as (b & s' & E & _).
  exists b, s'. split; [exact E |]. intros Hno.
  unfold no_keys in Hno. apply andb_prop in Hno. destruct Hno as [Hg Hm].
  apply negb_true_iff in Hg, Hm.
  assert (Ef : Legacy.generateCategories 100 o s = Legacy.fallbackGenerate 100 o s).
  { unfold Legacy.generateCategories, provider_attempt, bind, ask, api_key.
    rewrite Hg. unfold ret. rewrite Hm. reflexivity. }
  rewrite Ef in E.
  destruct (total_mapM Legacy.fallback_record (fun _ _ => True) (seq 0 100)
              legacy_fallback_record_total o s) as (out & s2 & E2 & Hsh).
  unfold Legacy.fallbackGenerate in E. rewrite E2 in E. inversion E; subst.
  apply Forall2_length in Hsh. rewrite length_seq in Hsh. symmetry. exact Hsh.
Qed.

(** The nested test of the legacy route decides as the test of the
    current one. *)
Lemma legacy_decision (count : nat) (now : Z) (last : option Z) :
  (if Legacy.fresh_enough now last then false
   else Legacy.wants_more count now last)
  = stale now last.
Proof.
  unfold Legacy.fresh_enough, Legacy.wants_more, stale.
  destruct last as [t |].
  - destruct (Z.ltb_spec (now - t) oneDayMs), (Z.leb_spec oneDayMs (now - t));
      try lia; try reflexivity; apply orb_true_r.
  - apply orb_true_r.
Qed.

Lemma legacy_get_ready (o : Oracle) (sv : Legacy.Server) :
  Legacy.collection sv = true ->
  let st := Legacy.app sv in
  let st0 := with_sys st (tick (sys st)) in
  let count := List.length (docs (coll st)) in
  let last := lastCreatedAt (firstn 1 (sort_desc (docs (coll st)))) in
  let now := clock_src o (n_clock (sys st)) in
  exists st1 st2 ids b1 b2,
    (if (1000 <? count)%nat then Legacy.prune_and_add else ret tt) o st0 = (Ok tt, st1)
    /\ (if stale now last then Legacy.add_fresh else ret tt) o st1 = (Ok tt, st2)
    /\ Legacy.get_categories o sv
       = (Ok {| status := 200;
                payload := Docs (firstn 1000 (sort_desc (docs (coll st2)))) |},
          up st2)
    /\ oplog st2
       = (oplog st
          ++ (if (1000 <? count)%nat then OpDeleteMany ids :: sent b1 else [])
          ++ (if stale now last then sent b2 else []))%list
    /\ ((1000 <? count)%nat = true -> List.length ids = 100)
    /\ (no_keys o = true ->
        ((1000 <? count)%nat = true -> List.length b1 = 100)
        /\ (stale now last = true -> List.length b2 = 100))
    /\ ((1000 <? count)%nat = false -> stale now last = false -> st2 = st0).
Proof.
  intros Hc st st0 count last now.
  assert (Hprune : exists st1 ids b1,
             (if (1000 <? count)%nat then Legacy.prune_and_add else ret tt) o st0
             = (Ok tt, st1)
             /\ oplog st1
                = (oplog st
                   ++ (if (1000 <? count)%nat then OpDeleteMany ids :: sent b1 else []))%list
             /\ ((1000 <? count)%nat = true -> List.length ids = 100)
             /\ (no_keys o = true -> (1000 <? count)%nat = true -> List.length b1 = 100)
             /\ ((1000 <? count)%nat = false -> st1 = st0)).
  { destruct (1000 <? count)%nat eqn:Hcap.
    - apply Nat.ltb_lt in Hcap.
      destruct (prune_step o (Legacy.generateCategories 100)
                  (fun b => no_keys o = true -> List.length b = 100)
                  (legacy_generateCategories_runs o)
                  "Insert many (after prune) had errors: " st0 Hcap)
        as (b1 & st1 & added1 & E1 & Hb1 & Hlen & Hop1 & _).
      exists st1,
        (map _id (take_sample (sample_src o) (n_sample st0) 100 (docs (coll st0)))),
        b1.
      split; [exact E1 |]. split; [exact Hop1 |].
      split; [intros _; rewrite length_map; exact Hlen |].
      split; [intros Hno _; apply Hb1; exact Hno | discriminate].
    - exists st0, [], []. split; [reflexivity |].
      split; [rewrite app_nil_r; reflexivity |].
      split; [discriminate |]. split; [discriminate | reflexivity]. }
  destruct Hprune as (st1 & ids & b1 & E1 & Hop1 & Hids & Hb1 & Hidle1).
  assert (Hadd : exists st2 b2,
             (if stale now last then Legacy.add_fresh else ret tt) o st1 = (Ok tt, st2)
             /\ oplog st2 = (oplog st1 ++ (if stale now last then sent b2 else []))%list
             /\ (no_keys o = true -> stale now last = true -> List.length b2 = 100)
             /\ (stale now last = false -> st2 = st1)).
  { destruct (stale now last).
    - destruct (insert_step o (Legacy.generateCategories 100)
                  (fun b => no_keys o = true -> List.length b = 100)
                  (legacy_generateCategories_runs o) "Insert many had errors: " st1)
        as (b2 & st2 & added2 & E2 & Hb2 & Hop2 & _).
      exists st2, b2. split; [exact E2 |]. split; [exact Hop2 |].
      split; [intros Hno _; apply Hb2; exact Hno | discriminate].
    - exists st1, []. split; [reflexivity |].
      split; [rewrite app_nil_r; reflexivity |].
      split; [discriminate | reflexivity]. }
  destruct Hadd as (st2 & b2 & E2 & Hop2 & Hb2 & Hidle2).
  exists st1, st2, ids, b1, b2.
  split; [exact E1 |]. split; [exact E2 |].
  split.
  { unfold Legacy.get_categories. rewrite Hc. cbn [negb].
    unfold Legacy.on_app, try_catch.
    unfold bind at 1, lift at 1, new_Date. fold st.
    unfold bind at 1, countDocuments. unfold bind at 1, find_recent at 1.
    rewrite !coll_with_sys. fold count. fold last. fold now.
    change {| n_random := n_random (sys st); n_clock := S (n_clock (sys st));
              n_gemini := n_gemini (sys st); n_mistral := n_mistral (sys st);
              console := console (sys st) |} with (tick (sys st)).
    fold st0.
    pose proof (legacy_decision count now last) as Hd.
    clear Hop1 Hop2 Hids Hb1 Hb2 Hidle1 Hidle2.
    revert E1 E2 Hd.
    destruct (1000 <? count)%nat, (Legacy.fresh_enough now last),
      (Legacy.wants_more count now last);
      intros E1 E2 Hd; rewrite <- Hd in E2; cbv beta iota in E1, E2 |- *;
      unfold bind at 1; rewrite E1; unfold bind at 1; rewrite E2;
      unfold bind, find_recent, ret, up; rewrite Hc; reflexivity. }
  split; [rewrite Hop2, Hop1, <- app_assoc; reflexivity |].
  split; [exact Hids |].
  split; [intros Hno; split; [apply Hb1 | apply Hb2]; exact Hno |].
  intros H1 H2. rewrite (Hidle2 H2). apply Hidle1. exact H1.
Qed.

(** X19: the legacy [GET /categories].  While the module-level handle
    is unset it answers 503 and does nothing.  Otherwise it always answers
    200, with the [min(1000, count)] newest stored records, newest first
    (no record left out is newer than one returned): there is no [limit]
    parameter.  Its nested freshness test decides as the single test of
    the current route: after the capacity branch, the batch step runs
    exactly when the newest record at entry is missing or a day old, so
    that the commands sent are those of the current route; with at most
    1000 records whose newest is younger than a day it only reads the
    clock. *)
Theorem legacy_get_answers (o : Oracle) (sv : Legacy.Server) :
  let st := Legacy.app sv in
  let st0 := with_sys st (tick (sys st)) in
  let count := List.length (docs (coll st)) in
  let last := lastCreatedAt (firstn 1 (sort_desc (docs (coll st)))) in
  let now := clock_src o (n_clock (sys st)) in
  exists resp sv',
    Legacy.get_categories o sv = (Ok resp, sv')
    /\ Legacy.collection sv' = Legacy.collection sv
    /\ if Legacy.collection sv
       then status resp = 200
            /\ (exists found rest,
                   payload resp = Docs found
                   /\ List.length found
                      = Nat.min 1000 (List.length (docs (coll (Legacy.app sv'))))
                   /\ StronglySorted newer_or_equal found
                   /\ incl found (docs (coll (Legacy.app sv')))
                   /\ Permutation (found ++ rest) (docs (coll (Legacy.app sv')))
                   /\ StronglySorted newer_or_equal (found ++ rest)
                   /\ Forall (fun d => Forall (fun f => newer_or_equal f d) found) rest)
            /\ (exists st1 ids b1 b2,
                   (if (1000 <? count)%nat then Legacy.prune_and_add else ret tt) o st0
                   = (Ok tt, st1)
                   /\ (if stale now last then Legacy.add_fresh else ret tt) o st1
                      = (Ok tt, Legacy.app sv')
                   /\ oplog (Legacy.app sv')
                      = (oplog st
                         ++ (if (1000 <? count)%nat
                             then OpDeleteMany ids :: sent b1 else [])
                         ++ (if stale now last then sent b2 else []))%list
                   /\ ((1000 <? count)%nat = true -> List.length ids = 100)
                   /\ (no_keys o = true ->
                       ((1000 <? count)%nat = true -> List.length b1 = 100)
                       /\ (stale now last = true -> List.length b2 = 100)))
            /\ ((1000 <? count)%nat = false -> stale now last = false ->
                Legacy.app sv' = st0)
       else resp = not_ready /\ sv' = sv.
Proof.
  intros st st0 count last now.
  destruct (Legacy.collection sv) eqn:Hc.
  2: { exists not_ready, sv. unfold Legacy.get_categories. rewrite Hc.
       repeat split; auto. }
  destruct (legacy_get_ready o sv Hc)
    as (st1 & st2 & ids & b1 & b2 & E1 & E2 & E & Hop & Hids & Hb & Hidle).
  fold st in E1, E2, E, Hop, Hids, Hb, Hidle.
  fold st0 in E1, Hidle. fold count in E1, Hop, Hids, Hb, Hidle.
  fold last in E2, Hop, Hb, Hidle. fold now in E2, Hop, Hb, Hidle.
  eexists _, (up st2). split; [exact E |].
  cbn [up Legacy.collection Legacy.app status payload].
  split; [reflexivity |]. split; [reflexivity |].
  split.
  { destruct (find_recent_newest 1000 (docs (coll st2))) as (rest & Hp & Hs & Hcross).
    eexists _, rest. split; [reflexivity |].
    split.
    { rewrite length_firstn.
      rewrite (Permutation_length (sort_desc_perm (docs (coll st2)))).
      reflexivity. }
    split; [apply StronglySorted_firstn, sort_desc_sorted |].
    split.
    { intros d Hd. apply firstn_In in Hd.
      eapply Permutation_in; [apply sort_desc_perm | exact Hd]. }
    split; [exact Hp |]. split; [exact Hs | exact Hcross]. }
  split; [| exact Hidle].
  exists st1, ids, b1, b2. repeat split; try assumption; apply Hb; assumption.
Qed.

(* ================================================================== *)
(** * Names of the legacy fallback generator *)
(* ================================================================== *)

Lemma legacy_fallback_record_name (i : nat) (o : Oracle) (s : Sys) :
  exists c s',
    Legacy.fallback_record i o s = (Ok c, s')
    /\ categoryName c
       = JStr (Legacy.catName i (random_src o (n_random s) mod two53)).
Proof.
  unfold Legacy.fallback_record, bind at 1, Math_random.
  set (s1 := {| n_random := S (n_random s); n_clock := n_clock s;
                n_gemini := n_gemini s; n_mistral := n_mistral s;
                console := console s |}).
  destruct (draw_words_runs (5 + i mod 16) o s1) as (ws & s2 & E2 & _).
  unfold bind, new_Date, ret. rewrite E2.
  eexists _, _. split; reflexivity.
Qed.

Lemma legacy_fallback_names (l : list nat) (o : Oracle) (s : Sys) :
  exists out s',
    mapM Legacy.fallback_record l o s = (Ok out, s')
    /\ Forall2 (fun i c => exists j,
                    categoryName c
                    = JStr (Legacy.catName i (random_src o j mod two53))) l out.
Proof.
  revert s. induction l as [| i rest IH]; intros s.
  - exists [], s. split; [reflexivity | constructor].
  - destruct (legacy_fallback_record_name i o s) as (c & s1 & E1 & Hn).
    destruct (IH s1) as (out & s2 & E2 & HF).
    exists (c :: out), s2. cbn [mapM]. unfold bind. rewrite E1, E2.
    split; [reflexivity |]. constructor; [eexists; exact Hn | exact HF].
Qed.

Lemma Forall2_seq_nth {A} (P : nat -> A -> Prop) (n a i : nat) (out : list A) :
  Forall2 P (seq a n) out -> i < n ->
  exists c, nth_error out i = Some c /\ P (a + i) c.
Proof.
  revert a i out. induction n as [| n IH]; intros a i out HF Hi; [lia |].
  cbn [seq] in HF. inversion HF as [| x c l out' Hx Hrest]; subst.
  destruct i as [| i].
  - exists c. rewrite Nat.add_0_r. split; [reflexivity | exact Hx].
  - destruct (IH (S a) i out' Hrest ltac:(lia)) as (c' & Hn & Hc').
    exists c'. split; [exact Hn |]. replace (a + S i) with (S a + i) by lia.
    exact Hc'.
Qed.

Lemma insert_unordered_bound (batch : list Category) (c : Collection) :
  List.length (docs (fst (insert_unordered c batch)))
  <= List.length (docs c) + List.length batch
  /\ (snd (insert_unordered c batch) <> None ->
      List.length (docs (fst (insert_unordered c batch)))
      < List.length (docs c) + List.length batch).
Proof.
  revert c. induction batch as [| x rest IH]; intros c; cbn [insert_unordered].
  - cbn. split; [lia | congruence].
  - destruct (write_error c x) as [e |].
    + destruct (IH c) as [Hle _].
      destruct (insert_unordered c rest) as [c' e']. cbn [fst snd] in *.
      cbn [List.length]. split; [lia | intros _; lia].
    + destruct (IH (store c x)) as [Hle Hlt].
      destruct (insert_unordered (store c x) rest) as [c' e']. cbn [fst snd] in *.
      unfold store in Hle, Hlt. cbn [docs] in Hle, Hlt.
      rewrite length_app in Hle, Hlt. cbn [List.length] in *.
      split; [lia | intros He; specialize (Hlt He); lia].
Qed.

(** Under the unique index, a batch that holds a record whose name is
    already stored comes back with an error. *)
Lemma insert_unordered_stored_clash (batch : list Category) (c : Collection)
  (y : Category) (d : Doc) :
  unique_categoryName c = true ->
  In d (docs c) ->
  keys_clash (categoryName y) (categoryName (fields d)) = true ->
  In y batch ->
  snd (insert_unordered c batch) <> None.
Proof.
  revert c. induction batch as [| x rest IH]; intros c Hu Hd Hk Hy; [destruct Hy |].
  cbn [insert_unordered].
  destruct (write_error c x) as [e |] eqn:Hw.
  - destruct (insert_unordered c rest). cbn. discriminate.
  - destruct Hy as [Hy | Hy].
    + subst x. exfalso. unfold write_error in Hw.
      destruct (negb (passes c y)); [discriminate |].
      rewrite Hu in Hw. cbn [andb] in Hw.
      assert (Hdup : duplicate_key y (docs c) = true).
      { unfold duplicate_key. apply existsb_exists. exists d. split; assumption. }
      rewrite Hdup in Hw. discriminate.
    + specialize (IH (store c x)).
      destruct (insert_unordered (store c x) rest) as [c' e'] eqn:E.
      cbn [snd] in *. apply IH; try assumption.
      unfold store. cbn [docs]. apply in_or_app. left. exact Hd.
Qed.

(** Under the unique index, a batch that holds two records with the
    same name comes back with an error. *)
Lemma insert_unordered_pair (pre post : list Category) (x y : Category)
  (c : Collection) :
  unique_categoryName c = true ->
  keys_clash (categoryName y) (categoryName x) = true ->
  In y post ->
  snd (insert_unordered c (pre ++ x :: post)) <> None.
Proof.
  revert c. induction pre as [| p pre IH]; intros c Hu Hk Hy.
  - cbn [app insert_unordered].
    destruct (write_error c x) as [e |] eqn:Hw.
    + destruct (insert_unordered c post). cbn. discriminate.
    + pose proof (insert_unordered_stored_clash post (store c x) y
                    {| _id := next_id c; fields := x |}) as Hs.
      destruct (insert_unordered (store c x) post) as [c' e'].
      cbn [snd] in *. apply Hs; try assumption.
      unfold store. cbn [docs]. apply in_or_app. right. left. reflexivity.
  - cbn [app insert_unordered].
    destruct (write_error c p) as [e |].
    + destruct (insert_unordered c (pre ++ x :: post)). cbn. discriminate.
    + specialize (IH (store c p)).
      destruct (insert_unordered (store c p) (pre ++ x :: post)) as [c' e'].
      cbn [snd] in *. apply IH; assumption.
Qed.

Lemma legacy_stem_9_48 (r : Z) :
  Legacy.catName 9 r = "bright song " ++ Number_toString (floor_times r 10000)
  /\ Legacy.catName 48 r = "bright song " ++ Number_toString (floor_times r 10000).
Proof. split; reflexivity. Qed.

(** X20: the legacy fallback generator can name two records of one
    batch alike.  Its noun list holds [song] twice, so in a batch of 100 the
    records 9 and 48 are both named [bright song] followed by a random
    number below 10000; whenever the two numbers agree, an [insertMany] of
    the batch into a collection with the unique index comes back with an
    error and stores fewer than 100 records. *)
Theorem legacy_fallback_repeats_name (o : Oracle) (s : Sys) :
  no_keys o = true ->
  exists out s' j9 j48,
    Legacy.generateCategories 100 o s = (Ok out, s')
    /\ nth_error (map categoryName out) 9
       = Some (JStr ("bright song " ++ Number_toString (suffix o j9)))
    /\ nth_error (map categoryName out) 48
       = Some (JStr ("bright song " ++ Number_toString (suffix o j48)))
    /\ (suffix o j9 = suffix o j48 ->
        forall c, unique_categoryName c = true ->
          snd (insert_unordered c out) <> None
          /\ List.length (docs (fst (insert_unordered c out)))
             < List.length (docs c) + 100).
Proof.
  intros Hno. unfold no_keys in Hno. apply andb_prop in Hno. destruct Hno as [Hg Hm].
  apply negb_true_iff in Hg, Hm.
  destruct (legacy_fallback_names (seq 0 100) o s) as (out & s' & E & HF).
  pose proof (Forall2_length HF) as Hlen. rewrite length_seq in Hlen.
  destruct (Forall2_seq_nth _ 100 0 9 out HF ltac:(lia)) as (x & Hx & (j9 & Nx)).
  destruct (Forall2_seq_nth _ 100 0 48 out HF ltac:(lia)) as (y & Hy & (j48 & Ny)).
  cbn [Nat.add] in Nx, Ny.
  rewrite (proj1 (legacy_stem_9_48 _)) in Nx.
  rewrite (proj2 (legacy_stem_9_48 _)) in Ny.
  fold (suffix o j9) in Nx. fold (suffix o j48) in Ny.
  exists out, s', j9, j48.
  split.
  { unfold Legacy.generateCategories, provider_attempt, bind, ask, api_key.
    rewrite Hg. unfold ret. rewrite Hm. exact E. }
  split; [rewrite nth_error_map, Hx; cbn [option_map]; rewrite Nx; reflexivity |].
  split; [rewrite nth_error_map, Hy; cbn [option_map]; rewrite Ny; reflexivity |].
  intros Heq c Hu.
  destruct (nth_error_split out 9 Hx) as (pre & post & Hout & Hpre).
  assert (Hin : In y post).
  { rewrite Hout in Hy. rewrite nth_error_app2 in Hy by lia.
    rewrite Hpre in Hy.
    change (nth_error (x :: post) (48 - 9)) with (nth_error post 38) in Hy.
    eapply nth_error_In. exact Hy. }
  assert (Herr : snd (insert_unordered c out) <> None).
  { rewrite Hout. apply (insert_unordered_pair pre post x y c Hu); [| exact Hin].
    rewrite Ny, Nx, Heq. rewrite keys_clash_strings. apply String.eqb_refl. }
  split; [exact Herr |].
  destruct (insert_unordered_bound out c) as [_ Hlt].
  rewrite <- Hlen in Hlt. apply Hlt. exact Herr.
Qed.

Lemma legacy_fallback_repeats_name_witness :
  exists out s',
    Legacy.generateCategories 100 offline boot = (Ok out, s')
    /\ snd (insert_unordered recent out) <> None
    /\ List.length (docs (fst (insert_unordered recent out)))
       < List.length (docs recent) + 100.
Proof.
  destruct (legacy_fallback_repeats_name offline boot eq_refl)
    as (out & s' & j9 & j48 & E & _ & _ & Hrep).
  exists out, s'. split; [exact E |].
  apply Hrep; reflexivity.
Defined.

(* ================================================================== *)
(** * The earlier db/connect.js *)
(* ================================================================== *)

Lemma getClient_alike (o : Oracle) (p : Connect0.Pool) (st : App) :
  alike o p st ->
  returned (fst (Connect0.getClient o p)) = returned (fst (getClient o st))
  /\ alike o (snd (Connect0.getClient o p)) (snd (getClient o st)).
Proof.
  intros (Hc & Hd & Hcl & Huri).
  unfold Connect0.getClient, getClient, alike.
  rewrite <- Hc, <- Hd.
  destruct p as [cl cn d]. cbn [Connect0._client Connect0._connected Connect0.dials] in *.
  destruct cn; cbn [andb].
  - rewrite (Hcl eq_refl). cbn. repeat split; auto.
  - destruct cl; cbn [negb andb].
    + rewrite (Huri eq_refl). cbn [negb].
      destruct (connect_src o d); cbn; repeat split; auto; discriminate.
    + destruct (key_set (ATLAS_URI o)) eqn:Hk; cbn [negb].
      * destruct (connect_src o d); cbn; repeat split; auto; discriminate.
      * cbn. repeat split; auto; discriminate.
Qed.

Lemma getClient_calls_alike (o : Oracle) (k : nat) (p : Connect0.Pool) (st : App) :
  alike o p st ->
  alike o (pool_run o (repeat Open k) p) (getClient_calls o k st).
Proof.
  revert p st. induction k as [| k IH]; intros p st Ha; [exact Ha |].
  cbn [repeat pool_run fold_left getClient_calls]. apply IH.
  apply (getClient_alike o p st Ha).
Qed.

(** X21: [getClient()] of the earlier [db/connect.js] and of the
    current one connect alike.  From states that agree, a call returns in
    the one exactly when it returns in the other, and after any number of
    calls both have made the same number of connection attempts and are
    connected or not together; only the text of the missing-URI error
    differs. *)
Theorem getClient_versions_agree (o : Oracle) (k : nat) (p : Connect0.Pool)
  (st : App) :
  alike o p st ->
  alike o (pool_run o (repeat Open k) p) (getClient_calls o k st)
  /\ returned (fst (Connect0.getClient o (pool_run o (repeat Open k) p)))
     = returned (fst (getClient o (getClient_calls o k st))).
Proof.
  intros Ha. pose proof (getClient_calls_alike o k p st Ha) as Hk.
  split; [exact Hk |]. apply (getClient_alike _ _ _ Hk).
Qed.

Lemma getClient_versions_agree_witness :
  alike flaky (pool_run flaky (repeat Open 2) unloaded) (getClient_calls flaky 2 fresh_app)
  /\ returned (fst (Connect0.getClient flaky (pool_run flaky (repeat Open 2) unloaded)))
     = returned (fst (getClient flaky (getClient_calls flaky 2 fresh_app))).
Proof.
  apply (getClient_versions_agree flaky 2 unloaded fresh_app).
  unfold alike. cbn. repeat split; auto; discriminate.
Defined.

Lemma pool_run_snoc (o : Oracle) (ops : list pool_op) (op : pool_op)
  (p : Connect0.Pool) :
  pool_run o (ops ++ [op]) p = pool_step o (pool_run o ops p) op.
Proof. unfold pool_run. rewrite fold_left_app. reflexivity. Qed.

Lemma pool_invariant (o : Oracle) (ops : list pool_op) :
  let p := pool_run o ops unloaded in
  (Connect0._connected p = true -> Connect0._client p = true)
  /\ (Connect0._client p = true -> key_set (ATLAS_URI o) = true).
Proof.
  induction ops as [| op ops IH] using rev_ind.
  - cbn. split; discriminate.
  - rewrite pool_run_snoc. cbv zeta in IH.
    destruct (pool_run o ops unloaded) as [cl cn d].
    cbn [Connect0._client Connect0._connected] in IH. destruct IH as [H1 H2].
    destruct op; cbn [pool_step].
    + unfold Connect0.getClient.
      cbn [Connect0._client Connect0._connected Connect0.dials].
      destruct cn; cbn [andb].
      * rewrite (H1 eq_refl). cbn. split; auto.
      * destruct cl; cbn [negb andb].
        -- destruct (connect_src o d); cbn; split; auto.
        -- destruct (key_set (ATLAS_URI o)) eqn:Hk; cbn [negb].
           ++ destruct (connect_src o d); cbn; split; auto.
           ++ cbn. split; discriminate.
    + unfold Connect0.closeClient. cbn [Connect0._client].
      destruct cl; cbn; split; auto; discriminate.
Qed.

(** X22: the life of the client in the earlier [db/connect.js].
    After any sequence of [getClient()] and [closeClient()] calls from
    load: a connected module holds a client, and a client exists only when
    [ATLAS_URI] is set; the next [getClient()] calls [connect()] exactly
    when the module is not connected and the URI is set; [closeClient()]
    leaves no client and no connection, so that the call after it
    connects anew. *)
Theorem pool_life_cycle (o : Oracle) (ops : list pool_op) :
  let p := pool_run o ops unloaded in
  (Connect0._connected p = true -> Connect0._client p = true)
  /\ (Connect0._client p = true -> key_set (ATLAS_URI o) = true)
  /\ Connect0.dials (pool_step o p Open)
     = (if Connect0._connected p || negb (key_set (ATLAS_URI o))
        then Connect0.dials p else S (Connect0.dials p))
  /\ pool_step o p Close
     = {| Connect0._client := false; Connect0._connected := false;
          Connect0.dials := Connect0.dials p |}.
Proof.
  intros p. destruct (pool_invariant o ops) as [H1 H2]. fold p in H1, H2.
  split; [exact H1 |]. split; [exact H2 |].
  destruct p as [cl cn d]. cbn [Connect0._client Connect0._connected Connect0.dials] in *.
  split.
  - cbn [pool_step]. unfold Connect0.getClient.
    cbn [Connect0._client Connect0._connected Connect0.dials].
    destruct cn; cbn [andb orb].
    + rewrite (H1 eq_refl). reflexivity.
    + destruct cl; cbn [negb andb].
      * rewrite (H2 eq_refl). cbn [negb].
        destruct (connect_src o d); reflexivity.
      * destruct (key_set (ATLAS_URI o)); cbn [negb];
          [destruct (connect_src o d) |]; reflexivity.
  - cbn [pool_step]. unfold Connect0.closeClient. cbn [Connect0._client].
    destruct cl; [reflexivity |].
    destruct cn; [discriminate (H1 eq_refl) | reflexivity].
Qed.
